(** * Gateway admission middleware and server lifecycle of kubo's corehttp

  A shallow embedding of [core/corehttp/corehttp.go] (package [corehttp]):
  [MakeHandler], [Serve], [getLimiter], [DedicatedGatewayMiddleware],
  [getDedicatedGatewayAccess] and [checkDmca], together with the pieces of
  the Go standard library they call.  Go strings are byte strings and are
  modelled by [string]; HTTP status codes are [Z]; the two package-level
  maps of [*rate.Limiter] are [gmap string loc] over a store of limiter
  objects, so that aliasing of limiter pointers is visible.

  The development also covers the TiKV helpers (package [tikv]), the
  aiozfs datastore plugin (package [aiozfs]) and the init command
  ([cmd/ipfs/init.go]); these are sequences of calls into libraries and
  are modelled over the recorded history of their calls. *)

From Stdlib Require Import ZArith Ascii String.
From stdpp Require Import base option list gmap strings.

Local Open Scope string_scope.
Local Open Scope Z_scope.

(** ** Strings and the path pattern *)

Module GoStrings.

(** [strings.HasPrefix(s, prefix)] *)
Definition HasPrefix (s prefix : string) : bool := String.prefix prefix s.

(** Dropping the first [n] bytes: [s[n:]] (empty when out of range). *)
Fixpoint drop_bytes (n : nat) (s : string) : string :=
  match n, s with
  | O, _ => s
  | S n', String _ s' => drop_bytes n' s'
  | S _, EmptyString => EmptyString
  end.

End GoStrings.

Module Regexp.

Import GoStrings.

Definition slash : ascii := "/"%char.

(** The greedy group [([^/]+)]: the longest run of bytes other than '/'
    at the head of [s].  A negated class of Go's [regexp] matches every
    rune but the excluded ones (newline included), and '/' never occurs
    inside a multi-byte rune, so the run is the same on bytes. *)
Fixpoint span_not_slash (s : string) : string :=
  match s with
  | EmptyString => EmptyString
  | String c s' =>
      if Ascii.eqb c slash then EmptyString else String c (span_not_slash s')
  end.

(** A match of [/ipfs/([^/]+)] anchored at the head of [s]:
    the whole match and the first group. *)
Definition match_here (s : string) : option (list string) :=
  if HasPrefix s "/ipfs/" then
    let g := span_not_slash (drop_bytes 6 s) in
    match g with
    | EmptyString => None
    | _ => Some ["/ipfs/" ++ g; g]
    end
  else None.

(** [regexp.MustCompile(`/ipfs/([^/]+)`).FindStringSubmatch(s)]: the
    leftmost match; the pattern is not anchored, so every start position
    is tried in turn.  [None] is Go's [nil]. *)
Fixpoint FindStringSubmatch (s : string) : option (list string) :=
  match match_here s with
  | Some m => Some m
  | None =>
      match s with
      | EmptyString => None
      | String _ s' => FindStringSubmatch s'
      end
  end.

End Regexp.

(** ** Values shared with the Go standard library *)

(** Go's [error]: [None] is [nil], [Some msg] an error whose [Error()] is
    [msg]. *)
Definition error : Type := option string.

(** A Go result pair [(v, err)] in which [v] is meaningful only when
    [err == nil]. *)
Inductive result (A : Type) : Type :=
| Ok (a : A)
| Err (msg : string).
Arguments Ok {A} a.
Arguments Err {A} msg.

(** [time.Duration] and [time.Time], both counted in nanoseconds. *)
Definition Duration : Type := Z.
Definition Time : Type := Z.

Module time.
Definition Second : Duration := 1000000000.
Definition Minute : Duration := 60 * Second.
End time.

Module http.

Definition StatusOK : Z := 200.
Definition StatusBadRequest : Z := 400.
Definition StatusGone : Z := 410.
Definition StatusTooManyRequests : Z := 429.
Definition StatusInternalServerError : Z := 500.
Definition MethodConnect : string := "CONNECT".

(** The part of an incoming [*http.Request] the package reads. *)
Record Request : Type := mkRequest {
  Method : string;
  URL_Path : string;
  RemoteAddr : string
}.

(** An outgoing request as built by [http.NewRequest] and [Header.Set]
    (header keys are kept as written). *)
Record ClientRequest : Type := mkClientRequest {
  CMethod : string;
  CURL : string;
  CHeader : list (string * string)
}.

(** A remote answer: its status code and the body the remote wrote. *)
Record Response : Type := mkResponse {
  StatusCode : Z;
  Body : string
}.

(** [req.Header.Set(key, value)] *)
Definition Header_Set (req : ClientRequest) (key value : string) : ClientRequest :=
  {| CMethod := CMethod req;
     CURL := CURL req;
     CHeader := (key, value) :: List.filter (fun kv => negb (String.eqb (fst kv) key)) (CHeader req) |}.

End http.

(** ** Interfaces of the libraries outside the repository *)

(** [golang.org/x/time/rate]: the limiter object is opaque to the package;
    [Allow] reads the clock and returns the updated limiter. *)
Module rate.
Inductive Limit : Type :=
| Every (interval : Duration).
End rate.

Class RateLib : Type := {
  Limiter : Type;
  NewLimiter : rate.Limit -> Z -> Limiter;
  Allow : Time -> Limiter -> bool * Limiter
}.

(** [github.com/ipfs/go-cid]: [cid_Parse] is [None] when [cid.Parse]
    returns an error. *)
Class CidLib : Type := {
  Cid : Type;
  cid_Parse : string -> option Cid;
  cid_String : Cid -> string;
  cid_Hash_HexString : Cid -> string
}.

(** [net/url]: [url_Parse_error u] is the error of [url.Parse(u)], if any;
    it is the only way [http.NewRequest("GET", u, body)] fails. *)
Class UrlLib : Type := {
  url_Parse_error : string -> option string
}.

(** What the outside world answers while one request is handled: the
    clock at each reading, and the outcome of [client.Do] ([None] when no
    response was obtained, a timeout included). *)
Record Env : Type := mkEnv {
  Now : nat -> Time;
  Do : Duration -> http.ClientRequest -> option http.Response
}.

(** ** State of the package and the trace of calls *)

(** A pointer to a [rate.Limiter] (index in the store of limiters) and a
    pointer to an [http.ServeMux]. *)
Definition loc : Type := nat.
Definition muxptr : Type := nat.

(** A reference to one of the two package-level maps
    [var ipLimiters = make(map[string]*rate.Limiter)] and
    [var cidLimiters = make(map[string]*rate.Limiter)]; Go passes maps by
    reference, so [getLimiter] mutates the map it is given. *)
Inductive LimitMap : Type :=
| IpLimiters
| CidLimiters.

#[global] Instance LimitMap_eq_dec : EqDecision LimitMap.
Proof. solve_decision. Defined.

(** The calls a handler makes, with their arguments, in the order they
    are made. *)
Inductive Event : Type :=
| EvGetLimiter (limit : string) (limitMap : LimitMap) (rps : Z)
| EvAllow (limiter : loc) (ok : bool)
| EvFindStringSubmatch (path : string)
| EvCidParse (token : string)
| EvCheckDmca (hash : string)
| EvGetDedicatedGatewayAccess (hash : string)
| EvClientDo (timeout : Duration) (req : http.ClientRequest)
| EvBodyClose
| EvHttpError (msg : string) (code : Z)
| EvWriteHeader (code : Z)
| EvMuxHandle (mux : muxptr) (pattern : string)
| EvMuxServeHTTP (mux : muxptr) (r : http.Request)
| EvShutdown (timeout : Duration)
| EvLog (msg : string)
| EvListenerClose.

Section Corehttp.

Context {RL : RateLib} {CL : CidLib} {UL : UrlLib}.
Variable env : Env.

Record World : Type := mkWorld {
  ipLimiters : gmap string loc;
  cidLimiters : gmap string loc;
  heap : list Limiter;
  nmux : nat;
  ticks : nat;
  trace : list Event
}.

(** The state in which the package starts: both maps empty. *)
Definition init_world : World :=
  {| ipLimiters := ∅; cidLimiters := ∅; heap := []; nmux := O; ticks := O; trace := [] |}.

Definition load_map (m : LimitMap) (w : World) : gmap string loc :=
  match m with
  | IpLimiters => ipLimiters w
  | CidLimiters => cidLimiters w
  end.

Definition store_map (m : LimitMap) (v : gmap string loc) (w : World) : World :=
  match m with
  | IpLimiters =>
      {| ipLimiters := v; cidLimiters := cidLimiters w; heap := heap w;
         nmux := nmux w; ticks := ticks w; trace := trace w |}
  | CidLimiters =>
      {| ipLimiters := ipLimiters w; cidLimiters := v; heap := heap w;
         nmux := nmux w; ticks := ticks w; trace := trace w |}
  end.

Definition set_heap (h : list Limiter) (w : World) : World :=
  {| ipLimiters := ipLimiters w; cidLimiters := cidLimiters w; heap := h;
     nmux := nmux w; ticks := ticks w; trace := trace w |}.

Definition set_nmux (n : nat) (w : World) : World :=
  {| ipLimiters := ipLimiters w; cidLimiters := cidLimiters w; heap := heap w;
     nmux := n; ticks := ticks w; trace := trace w |}.

Definition set_ticks (n : nat) (w : World) : World :=
  {| ipLimiters := ipLimiters w; cidLimiters := cidLimiters w; heap := heap w;
     nmux := nmux w; ticks := n; trace := trace w |}.

Definition log_event (e : Event) (w : World) : World :=
  {| ipLimiters := ipLimiters w; cidLimiters := cidLimiters w; heap := heap w;
     nmux := nmux w; ticks := ticks w; trace := trace w ++ [e] |}.

(** *** The state monad of the package *)

Definition M (A : Type) : Type := World -> A * World.

Definition ret {A : Type} (a : A) : M A := fun w => (a, w).

Definition bind {A B : Type} (m : M A) (k : A -> M B) : M B :=
  fun w => let (a, w') := m w in k a w'.

Notation "'let*' x ':=' m 'in' k" := (bind m (fun x => k))
  (at level 10, x name, m at level 100, k at level 200, only parsing).

Definition emit (e : Event) : M unit := fun w => (tt, log_event e w).

(** [time.Now()] *)
Definition time_Now : M Time :=
  fun w => (Now env (ticks w), set_ticks (S (ticks w)) w).

(** An [http.Handler], applied to a request (its writes to the
    [ResponseWriter] go to the trace). *)
Definition Handler : Type := http.Request -> M unit.

(** [http.Error(w, msg, code)] and [w.WriteHeader(code)] *)
Definition http_Error (msg : string) (code : Z) : M unit := emit (EvHttpError msg code).
Definition WriteHeader (code : Z) : M unit := emit (EvWriteHeader code).

(** [http.NewServeMux()]: a fresh multiplexer. *)
Definition http_NewServeMux : M muxptr :=
  fun w => (nmux w, set_nmux (S (nmux w)) w).

(** [mux.Handle(pattern, handler)], as the options call it. *)
Definition ServeMux_Handle (mux : muxptr) (pattern : string) : M unit :=
  emit (EvMuxHandle mux pattern).

(** [mux.ServeHTTP(w, r)]: what the multiplexer does with the request is
    decided by the handlers registered on it, outside this package. *)
Definition ServeMux_ServeHTTP (mux : muxptr) (r : http.Request) : M unit :=
  emit (EvMuxServeHTTP mux r).

(** [http.NewRequest(method, url, bytes.NewBuffer(nil))] *)
Definition http_NewRequest (method url : string) : result http.ClientRequest :=
  match url_Parse_error url with
  | Some e => Err e
  | None => Ok {| http.CMethod := method; http.CURL := url; http.CHeader := [] |}
  end.

(** [(&http.Client{Timeout: timeout}).Do(req)] *)
Definition client_Do (timeout : Duration) (req : http.ClientRequest) : M (option http.Response) :=
  let* _ := emit (EvClientDo timeout req) in
  ret (Do env timeout req).

(** [lim.Allow()] on the limiter behind pointer [limiter].  The pointers
    [getLimiter] hands out are allocated, so the last case is not reached
    from a well-formed state. *)
Definition Limiter_Allow (limiter : loc) : M bool :=
  let* now := time_Now in
  fun w =>
    match heap w !! limiter with
    | Some lim =>
        let (ok, lim') := Allow now lim in
        (ok, log_event (EvAllow limiter ok) (set_heap (<[limiter := lim']> (heap w)) w))
    | None => (false, w)
    end.

(** *** The limiter registry *)

(** [rate.NewLimiter(...)] placed behind a fresh pointer. *)
Definition new_limiter (lim : Limiter) : M loc :=
  fun w => (length (heap w), set_heap (heap w ++ [lim]) w).

(** [getLimiter(limit, limitMap, rps)].  [rps] is a [float64] in the
    source and is only used through [int(rps)]; both call sites pass an
    integer constant, so it is an integer here.  The function body runs
    under [mtx], and a handler is run atomically in this model. *)
Definition getLimiter (limit : string) (limitMap : LimitMap) (rps : Z) : M loc :=
  let* _ := emit (EvGetLimiter limit limitMap rps) in
  fun w =>
    match load_map limitMap w !! limit with
    | Some limiter => (limiter, w)
    | None =>
        let (limiter, w1) := new_limiter (NewLimiter (rate.Every time.Minute) rps) w in
        (limiter, store_map limitMap (<[limit := limiter]> (load_map limitMap w1)) w1)
    end.

(** *** The policy gate *)

Record ConfigPinningService_t : Type := mkConfigPinningService {
  Uploader : string;
  PinningService : string;
  BlockserviceApiKey : string;
  DedicatedGateway : bool;
  RedisConn : string;
  AmqpConnect : string;
  BlockEncryptionKey : string;
  EncryptedBlockPrefix : string;
  IpfsDomain : string;
  SslCertPath : string;
  SslKeyPath : string
}.

Record Config : Type := mkConfig {
  ConfigPinningService : ConfigPinningService_t
}.

Definition access_denied_msg : string := "No users have subscribed to this hash yet.".
Definition access_call_failed_msg : string := "Error while calling dedicated gateway API".
Definition dmca_call_failed_msg : string := "Error while calling DMCA API".
Definition dmca_gone_msg : string :=
  "The content that you requested has been blocked because of legal, abuse, malware or security reasons. Please contact support@w3ipfs.storage for more information".
Definition dmca_denied_msg : string := "Something went wrong".

Definition getDedicatedGatewayAccess (hash : string) (cfg : Config) : M (Z * error) :=
  let* _ := emit (EvGetDedicatedGatewayAccess hash) in
  let apiUrl := PinningService (ConfigPinningService cfg) ++ "/api/dedicatedGateways/" ++ hash in
  match http_NewRequest "GET" apiUrl with
  | Err err => ret (http.StatusInternalServerError, Some ("failed to create request: " ++ err))
  | Ok req =>
      let req := http.Header_Set req "blockservice-API-Key" (BlockserviceApiKey (ConfigPinningService cfg)) in
      let req := http.Header_Set req "Content-Type" "application/json" in
      let* resp := client_Do (15 * time.Second) req in
      match resp with
      | None => ret (http.StatusInternalServerError, Some access_call_failed_msg)
      | Some resp =>
          let* status :=
            if negb (http.StatusCode resp =? 200) then
              ret (http.StatusCode resp, Some access_denied_msg)
            else ret (http.StatusOK, None) in
          let* _ := emit EvBodyClose in
          ret status
      end
  end.

Definition checkDmca (hash : string) (cfg : Config) : M (Z * error) :=
  let* _ := emit (EvCheckDmca hash) in
  let apiUrl := PinningService (ConfigPinningService cfg) ++ "/api/dmca/" ++ hash in
  match http_NewRequest "GET" apiUrl with
  | Err err => ret (http.StatusInternalServerError, Some ("failed to create request: " ++ err))
  | Ok req =>
      let req := http.Header_Set req "blockservice-API-Key" (BlockserviceApiKey (ConfigPinningService cfg)) in
      let req := http.Header_Set req "Content-Type" "application/json" in
      let* resp := client_Do (15 * time.Second) req in
      match resp with
      | None => ret (http.StatusInternalServerError, Some dmca_call_failed_msg)
      | Some resp =>
          let* status :=
            if http.StatusCode resp =? http.StatusGone then
              ret (http.StatusGone, Some dmca_gone_msg)
            else if negb (http.StatusCode resp =? 200) then
              ret (http.StatusCode resp, Some dmca_denied_msg)
            else ret (http.StatusOK, None) in
          let* _ := emit EvBodyClose in
          ret status
      end
  end.

(** *** The admission middleware *)

(** [pathPattern.FindStringSubmatch(r.URL.Path)] followed by [cid.Parse(matches[1])];
    [Err] carries the message handed to [http.Error] with status 400. *)
Definition parse_resource (path : string) : M (result Cid) :=
  let* _ := emit (EvFindStringSubmatch path) in
  match Regexp.FindStringSubmatch path with
  | None => ret (Err "Invalid path")
  | Some matches =>
      if (length matches <? 2)%nat then ret (Err "Invalid path")
      else
        let token := default "" (matches !! 1%nat) in
        let* _ := emit (EvCidParse token) in
        match cid_Parse token with
        | None => ret (Err "Invalid hash")
        | Some cid => ret (Ok cid)
        end
  end.

Definition DedicatedGatewayMiddleware (next : Handler) (cfg : Config) : Handler :=
  fun r =>
    if DedicatedGateway (ConfigPinningService cfg) && GoStrings.HasPrefix (http.URL_Path r) "/ipfs/" then
      let* parsed := parse_resource (http.URL_Path r) in
      match parsed with
      | Err msg => http_Error msg http.StatusBadRequest
      | Ok cid =>
          let* dmca := checkDmca (cid_String cid) cfg in
          match dmca with
          | (status, Some err) => http_Error err status
          | (_, None) =>
              let* access := getDedicatedGatewayAccess (cid_Hash_HexString cid) cfg in
              match access with
              | (status, Some err) => http_Error err status
              | (_, None) => next r
              end
          end
      end
    else if negb (DedicatedGateway (ConfigPinningService cfg)) && GoStrings.HasPrefix (http.URL_Path r) "/ipfs/" then
      let* ipLimiter := getLimiter (http.RemoteAddr r) IpLimiters 100 in
      let* ip_ok := Limiter_Allow ipLimiter in
      if negb ip_ok then http_Error "Too many requests from this IP" http.StatusTooManyRequests
      else
        let* parsed := parse_resource (http.URL_Path r) in
        match parsed with
        | Err msg => http_Error msg http.StatusBadRequest
        | Ok cid =>
            let* cidLimiter := getLimiter (cid_String cid) CidLimiters 15 in
            let* cid_ok := Limiter_Allow cidLimiter in
            if negb cid_ok then http_Error "Too many requests for this CID" http.StatusTooManyRequests
            else
              let* dmca := checkDmca (cid_String cid) cfg in
              match dmca with
              | (status, Some err) => http_Error err status
              | (_, None) => next r
              end
        end
    else next r.

(** *** Handler composition *)

(** What [Serve] reads of the node and of the listener: the outcome of
    [node.Repo.Config()], and of [manet.FromNetAddr(lis.Addr())] (the
    multiaddr in text form). *)
Record IpfsNode : Type := mkIpfsNode {
  Repo_Config : result Config
}.

Record Listener : Type := mkListener {
  FromNetAddr : result string
}.

(** [type ServeOption]: a function of the node, the listener and a
    multiplexer that returns a multiplexer and an error; it may register
    handlers on the multiplexer it is given and may allocate new ones. *)
Definition ServeOption : Type := IpfsNode -> Listener -> muxptr -> M (result muxptr).

(** The loop [for _, option := range options] of [MakeHandler]. *)
Fixpoint MakeHandler_loop (n : IpfsNode) (l : Listener) (options : list ServeOption)
    (mux : muxptr) : M (result muxptr) :=
  match options with
  | [] => ret (Ok mux)
  | option :: rest =>
      let* r := option n l mux in
      match r with
      | Err err => ret (Err err)
      | Ok mux' => MakeHandler_loop n l rest mux'
      end
  end.

Definition MakeHandler (n : IpfsNode) (l : Listener) (options : list ServeOption)
    : M (result Handler) :=
  let* topMux := http_NewServeMux in
  let* r := MakeHandler_loop n l options topMux in
  match r with
  | Err err => ret (Err err)
  | Ok _ =>
      ret (Ok (fun r : http.Request =>
                 if String.eqb (http.Method r) http.MethodConnect
                 then WriteHeader http.StatusOK
                 else ServeMux_ServeHTTP topMux r))
  end.

(** The fold of the option list as the specification words it: each option
    consumes the multiplexer accumulated so far and produces the next one,
    and the first failure is the result. *)
Definition fold_options_spec (n : IpfsNode) (l : Listener) (options : list ServeOption)
    (mux0 : muxptr) : M (result muxptr) :=
  fold_left
    (fun (acc : M (result muxptr)) (option : ServeOption) =>
       let* r := acc in
       match r with
       | Ok mux => option n l mux
       | Err err => ret (Err err)
       end)
    options (ret (Ok mux0)).

(** *** The listener lifecycle *)

Definition shutdownTimeout : Duration := 30 * time.Second.

(** Which case of the [select] that waits for the server fires first. *)
Inductive Signal : Type :=
| ServerProcClosed
| ProcessClosing.

(** The course of one run of [Serve], as decided outside the function:
    whether the node is already closing when the server is about to start,
    the requests the serve loop handles (in the order they are handled),
    the error [server.Serve(lis)] returns, the case of the [select] that
    fires, the number of progress messages of the 5-second ticker, and
    the error of [server.Shutdown(ctx)] for the timeout of [ctx]. *)
Record Schedule : Type := mkSchedule {
  closing_at_start : bool;
  requests : list http.Request;
  serve_loop_error : error;
  first_signal : Signal;
  warn_ticks : nat;
  shutdown_error : Duration -> error
}.

(** The serve loop: every request goes through the server's handler. *)
Fixpoint serve_requests (h : Handler) (rs : list http.Request) : M unit :=
  match rs with
  | [] => ret tt
  | r :: rs' => let* _ := h r in serve_requests h rs'
  end.

Fixpoint emit_n (n : nat) (e : Event) : M unit :=
  match n with
  | O => ret tt
  | S n' => let* _ := emit e in emit_n n' e
  end.

(** The body of [Serve] after [defer lis.Close()]. *)
Definition Serve_body (sched : Schedule) (node : IpfsNode) (lis : Listener)
    (options : list ServeOption) : M error :=
  let* made := MakeHandler node lis options in
  match made with
  | Err err => ret (Some err)
  | Ok handler =>
      match Repo_Config node with
      | Err err => ret (Some err)
      | Ok cfg =>
          let middlewareHandler := DedicatedGatewayMiddleware handler cfg in
          match FromNetAddr lis with
          | Err err => ret (Some err)
          | Ok addr =>
              if closing_at_start sched then
                ret (Some "failed to start server, process closing")
              else
                let* _ := serve_requests middlewareHandler (requests sched) in
                let serverError := serve_loop_error sched in
                let* serverError :=
                  match first_signal sched with
                  | ServerProcClosed => ret serverError
                  | ProcessClosing =>
                      let* _ := emit (EvLog ("server at " ++ addr ++ " terminating...")) in
                      let* _ := emit (EvShutdown shutdownTimeout) in
                      let err := shutdown_error sched shutdownTimeout in
                      let* _ := emit_n (warn_ticks sched)
                                  (EvLog ("waiting for server at " ++ addr ++ " to terminate...")) in
                      ret err
                  end in
                let* _ := emit (EvLog ("server at " ++ addr ++ " terminated")) in
                ret serverError
          end
      end
  end.

Definition Serve (sched : Schedule) (node : IpfsNode) (lis : Listener)
    (options : list ServeOption) : M error :=
  let* err := Serve_body sched node lis options in
  let* _ := emit EvListenerClose in
  ret err.

(** *** Vocabulary of the statements *)

(** The request both checks send: a GET of [url] with the API key and the
    content type set. *)
Definition api_request (cfg : Config) (url : string) : http.ClientRequest :=
  {| http.CMethod := "GET";
     http.CURL := url;
     http.CHeader := [("Content-Type", "application/json");
                      ("blockservice-API-Key", BlockserviceApiKey (ConfigPinningService cfg))] |}.

Definition dmca_url (cfg : Config) (hash : string) : string :=
  PinningService (ConfigPinningService cfg) ++ "/api/dmca/" ++ hash.

Definition access_url (cfg : Config) (hash : string) : string :=
  PinningService (ConfigPinningService cfg) ++ "/api/dedicatedGateways/" ++ hash.

(** The answer of a handler that rejects: [http.Error] and nothing else. *)
Definition reject (msg : string) (code : Z) (w : World) : unit * World :=
  (tt, log_event (EvHttpError msg code) w).

(** How the middleware ends: it rejects, or hands the request over. *)
Inductive Outcome : Type :=
| Reject (msg : string) (code : Z)
| Forward.

Definition finish (next : Handler) (r : http.Request) (o : Outcome) : M unit :=
  match o with
  | Reject msg code => http_Error msg code
  | Forward => next r
  end.

(** States the package can be in: every pointer stored in a map is
    allocated, and no pointer is stored twice (in one map or across the
    two). *)
Definition wf (w : World) : Prop :=
  (forall m k l, load_map m w !! k = Some l -> (l < length (heap w))%nat) /\
  (forall m1 m2 k1 k2 l,
      load_map m1 w !! k1 = Some l -> load_map m2 w !! k2 = Some l ->
      m1 = m2 /\ k1 = k2).

(** The burst of each pool, as the specification gives it. *)
Definition pool_burst (m : LimitMap) : Z :=
  match m with
  | IpLimiters => 100
  | CidLimiters => 15
  end.

(** Events of the limiter registry. *)
Definition is_limiter_event (e : Event) : bool :=
  match e with
  | EvGetLimiter _ _ _ | EvAllow _ _ => true
  | _ => false
  end.

(** [n] consecutive calls of [Allow] on one limiter. *)
Fixpoint Allow_times (n : nat) (limiter : loc) : M unit :=
  match n with
  | O => ret tt
  | S n' => let* _ := Limiter_Allow limiter in Allow_times n' limiter
  end.

(** The run of the middleware on [r] from [w] arrives at the moderation
    check with identifier [cid], in state [w1]: in dedicated mode after
    the identifier parsed, in open mode after both limiters allowed. *)
Definition reaches_moderation (cfg : Config) (r : http.Request) (w : World)
    (cid : Cid) (w1 : World) : Prop :=
  if DedicatedGateway (ConfigPinningService cfg) then
    parse_resource (http.URL_Path r) w = (Ok cid, w1)
  else
    exists ipL wa wb wc cidL wd,
      getLimiter (http.RemoteAddr r) IpLimiters 100 w = (ipL, wa) /\
      Limiter_Allow ipL wa = (true, wb) /\
      parse_resource (http.URL_Path r) wb = (Ok cid, wc) /\
      getLimiter (cid_String cid) CidLimiters 15 wc = (cidL, wd) /\
      Limiter_Allow cidL wd = (true, w1).

(** The state [w] after the calls [es] were made, when these calls change
    nothing but the trace. *)
Definition log_events (es : list Event) (w : World) : World :=
  {| ipLimiters := ipLimiters w; cidLimiters := cidLimiters w; heap := heap w;
     nmux := nmux w; ticks := ticks w; trace := trace w ++ es |}.

(** The calls made between state [w] and a later state [w']. *)
Definition events_since (w w' : World) : list Event :=
  drop (length (trace w)) (trace w').

(** Events of the identifier parsing, of the access check's entry, and of
    an outbound call. *)
Definition is_parse_event (e : Event) : bool :=
  match e with
  | EvFindStringSubmatch _ | EvCidParse _ => true
  | _ => false
  end.

Definition is_access_call (e : Event) : bool :=
  match e with
  | EvGetDedicatedGatewayAccess _ => true
  | _ => false
  end.

Definition is_client_event (e : Event) : bool :=
  match e with
  | EvClientDo _ _ | EvBodyClose => true
  | _ => false
  end.

Definition is_policy_call (e : Event) : bool :=
  match e with
  | EvCheckDmca _ | EvGetDedicatedGatewayAccess _ | EvClientDo _ _ | EvBodyClose => true
  | _ => false
  end.

(** A call of [getLimiter] that passes the burst of the pool it names. *)
Definition passes_pool_burst (e : Event) : Prop :=
  forall limit limitMap rps, e = EvGetLimiter limit limitMap rps -> rps = pool_burst limitMap.

(** The run of the middleware on [r] from [w] arrives at the extraction of
    the resource token in state [w0]: at once in dedicated mode, after the
    limiter of the client address allowed in open mode. *)
Definition reaches_extraction (cfg : Config) (r : http.Request) (w w0 : World) : Prop :=
  if DedicatedGateway (ConfigPinningService cfg) then w0 = w
  else
    exists ipL wa,
      getLimiter (http.RemoteAddr r) IpLimiters 100 w = (ipL, wa) /\
      Limiter_Allow ipL wa = (true, w0).

(** A handler that does nothing to the state of the package but add its
    calls to the trace, as the handler built by [MakeHandler] does. *)
Definition only_logs (h : Handler) : Prop :=
  forall r w, exists d, h r w = (tt, log_events d w).

(** *** Vocabulary of the further statements *)

(** The identifier the middleware works on for a path, if there is one:
    the parse of the group of the leftmost match. *)
Definition resource_of (path : string) : option Cid :=
  match Regexp.FindStringSubmatch path with
  | None => None
  | Some matches => cid_Parse (default "" (matches !! 1%nat))
  end.

(** The calls of one run of [checkDmca] and of [getDedicatedGatewayAccess]. *)
Definition dmca_events (cfg : Config) (hash : string) : list Event :=
  EvCheckDmca hash ::
  match url_Parse_error (dmca_url cfg hash) with
  | Some _ => []
  | None =>
      EvClientDo (15 * time.Second) (api_request cfg (dmca_url cfg hash)) ::
      match Do env (15 * time.Second) (api_request cfg (dmca_url cfg hash)) with
      | None => []
      | Some _ => [EvBodyClose]
      end
  end.

Definition access_events (cfg : Config) (hash : string) : list Event :=
  EvGetDedicatedGatewayAccess hash ::
  match url_Parse_error (access_url cfg hash) with
  | Some _ => []
  | None =>
      EvClientDo (15 * time.Second) (api_request cfg (access_url cfg hash)) ::
      match Do env (15 * time.Second) (api_request cfg (access_url cfg hash)) with
      | None => []
      | Some _ => [EvBodyClose]
      end
  end.

(** The calls of the policy gate in one run of the middleware: none, the
    moderation check, or (in dedicated-gateway mode) the moderation check
    followed by the access check. *)
Definition policy_shape (cfg : Config) (pol : list Event) : Prop :=
  pol = [] \/
  exists cid,
    pol = dmca_events cfg (cid_String cid) \/
    (DedicatedGateway (ConfigPinningService cfg) = true /\
     pol = (dmca_events cfg (cid_String cid)
              ++ access_events cfg (cid_Hash_HexString cid))%list).

(** Events of the limiter registry and of the identifier parsing. *)
Definition is_admission_event (e : Event) : bool :=
  is_limiter_event e || is_parse_event e.

(** An outbound call, and a write to the response or a dispatch. *)
Definition is_client_do (e : Event) : bool :=
  match e with
  | EvClientDo _ _ => true
  | _ => false
  end.

Definition is_response_event (e : Event) : bool :=
  match e with
  | EvHttpError _ _ | EvWriteHeader _ | EvMuxServeHTTP _ _ => true
  | _ => false
  end.

(** An outbound call of the policy gate: a GET with the API key, bounded
    by 15 seconds, to one of the two endpoints of the pinning service. *)
Definition is_policy_request (cfg : Config) (e : Event) : Prop :=
  exists hash,
    e = EvClientDo (15 * time.Second) (api_request cfg (dmca_url cfg hash)) \/
    e = EvClientDo (15 * time.Second) (api_request cfg (access_url cfg hash)).

(** The registry only grew between [w] and [w']: every entry is still
    there and points where it pointed, and no limiter object was dropped. *)
Definition registry_grew (w w' : World) : Prop :=
  (forall m k l, load_map m w !! k = Some l -> load_map m w' !! k = Some l) /\
  (length (heap w) <= length (heap w'))%nat.

(** The keys a request can add to the registry: its remote address to the
    map of addresses, the canonical string of its identifier to the map of
    identifiers. *)
Definition adds_only_keys_of (r : http.Request) (w w' : World) : Prop :=
  (forall k, is_Some (ipLimiters w' !! k) ->
             is_Some (ipLimiters w !! k) \/ k = http.RemoteAddr r) /\
  (forall k, is_Some (cidLimiters w' !! k) ->
             is_Some (cidLimiters w !! k) \/
             exists cid, resource_of (http.URL_Path r) = Some cid /\ k = cid_String cid).

End Corehttp.

(** ** A concrete instance of the library interfaces

    Used only to evaluate the package on closed inputs. *)

Module Sample.

(** A token bucket in exact arithmetic: [tokens] counts nanoseconds of
    refill, so that one request costs [interval] of them and the bucket
    holds at most [burst * interval].  A new bucket is full. *)
Record bucket : Type := mkBucket {
  interval : Duration;
  burst : Z;
  tokens : Z;
  last : Time
}.

Definition new_bucket (r : rate.Limit) (b : Z) : bucket :=
  match r with
  | rate.Every d => {| interval := d; burst := b; tokens := b * d; last := 0 |}
  end.

Definition bucket_allow (now : Time) (lim : bucket) : bool * bucket :=
  let last' := Z.min (last lim) now in
  let tokens' := Z.min (burst lim * interval lim) (tokens lim + (now - last')) in
  if (interval lim <=? tokens') && (1 <=? burst lim) then
    (true, {| interval := interval lim; burst := burst lim;
              tokens := tokens' - interval lim; last := now |})
  else (false, lim).

Definition rate_lib : RateLib :=
  {| Limiter := bucket; NewLimiter := new_bucket; Allow := bucket_allow |}.

(** Identifiers: the strings that start with [Qm]; the canonical form is
    the string itself. *)
Definition cid_lib : CidLib :=
  {| Cid := string;
     cid_Parse := fun s => if String.prefix "Qm" s then Some s else None;
     cid_String := fun c => c;
     cid_Hash_HexString := fun c => "1220" ++ c |}.

Fixpoint has_control_byte (s : string) : bool :=
  match s with
  | EmptyString => false
  | String c s' =>
      (Nat.ltb (nat_of_ascii c) 32 || Nat.eqb (nat_of_ascii c) 127) || has_control_byte s'
  end.

(** URLs: rejected when they hold an ASCII control byte. *)
Definition url_lib : UrlLib :=
  {| url_Parse_error := fun u =>
       if has_control_byte u then Some "net/url: invalid control character in URL"
       else None |}.

Definition cfg (dedicated : bool) : Config :=
  {| ConfigPinningService :=
       {| Uploader := ""; PinningService := "http://pin"; BlockserviceApiKey := "k";
          DedicatedGateway := dedicated; RedisConn := ""; AmqpConnect := "";
          BlockEncryptionKey := ""; EncryptedBlockPrefix := ""; IpfsDomain := "";
          SslCertPath := ""; SslKeyPath := "" |} |}.

(** A remote that answers every call with the given status and body, and
    a clock that stands still. *)
Definition env_answering (status : Z) (body : string) : Env :=
  {| Now := fun _ => 0;
     Do := fun _ _ => Some {| http.StatusCode := status; http.Body := body |} |}.

(** A remote that cannot be reached. *)
Definition env_unreachable : Env :=
  {| Now := fun _ => 0; Do := fun _ _ => None |}.

Definition get (path : string) : http.Request :=
  {| http.Method := "GET"; http.URL_Path := path; http.RemoteAddr := "10.0.0.1:4000" |}.

(** A wrapped handler that answers 200 itself. *)
Definition next_ok : @Handler rate_lib := fun _ => @WriteHeader rate_lib 200.

(** The state after one hundred requests from one address at one instant:
    the budget of that address is used up. *)
Definition exhausted : @World rate_lib :=
  snd (@serve_requests rate_lib
         (@DedicatedGatewayMiddleware rate_lib cid_lib url_lib (env_answering 200 "")
            next_ok (cfg false))
         (replicate 100 (get "/ipfs/")) (@init_world rate_lib)).

(** Three options: one registers a handler on the multiplexer it is given,
    one interposes a multiplexer of its own and hands that one on, one
    fails. *)
Definition option_handle (pattern : string) : @ServeOption rate_lib :=
  fun _ _ mux w =>
    let (_, w1) := @ServeMux_Handle rate_lib mux pattern w in (Ok mux, w1).

Definition option_interpose : @ServeOption rate_lib :=
  fun _ _ mux w =>
    let (child, w1) := @http_NewServeMux rate_lib w in
    let (_, w2) := @ServeMux_Handle rate_lib mux "/" w1 in (Ok child, w2).

Definition option_fail : @ServeOption rate_lib :=
  fun _ _ _ w => (Err "option failed", w).

Definition node : IpfsNode := {| Repo_Config := Ok (cfg false) |}.
Definition listener : Listener := {| FromNetAddr := Ok "/ip4/127.0.0.1/tcp/5001" |}.

(** A run in which the shutdown signal comes while two requests have been
    served, and the drain is clean. *)
Definition schedule_shutdown : Schedule :=
  {| closing_at_start := false;
     requests := [get "/ipfs/QmA"; get "/version"];
     serve_loop_error := Some "http: Server closed";
     first_signal := ProcessClosing;
     warn_ticks := 1;
     shutdown_error := fun _ => None |}.

End Sample.

(** * Calls into libraries, recorded in order

    The remaining packages are sequences of calls into libraries whose
    answers the package cannot know.  A run is a function of the history
    of calls made so far: each call is appended to the history and its
    answer is read from an oracle that sees the history before the call. *)

Module Calls.

Section Monad.

Context {C : Type}.

Definition M (A : Type) : Type := list C -> A * list C.

Definition ret {A : Type} (a : A) : M A := fun h => (a, h).

Definition bind {A B : Type} (m : M A) (k : A -> M B) : M B :=
  fun h => let (a, h') := m h in k a h'.

Definition call {A : Type} (c : C) (answer : list C -> A) : M A :=
  fun h => (answer h, (h ++ [c])%list).

(** The calls a run added to the history [h]. *)
Definition since (h h' : list C) : list C := drop (length h) h'.

End Monad.

End Calls.

(** * Values of interface type

    A Go [interface{}] holds a value of any dynamic type.  [any] lists the
    dynamic types the packages below test for, the nil interface, and one
    case for everything else (named by its type).  The type assertions are
    in their two-result form, [v, ok := x.(T)]: the zero value and [false]
    when the dynamic type differs.  Reading a missing key of a
    [map[string]interface{}] gives the nil interface. *)

Inductive any : Type :=
| AString (s : string)
| ABool (b : bool)
| AInt (n : Z)
| ANil
| AOther (dynamic_type : string).

Definition assert_string (v : option any) : string * bool :=
  match v with
  | Some (AString s) => (s, true)
  | _ => (EmptyString, false)
  end.

Definition assert_bool (v : option any) : bool * bool :=
  match v with
  | Some (ABool b) => (b, true)
  | _ => (false, false)
  end.

Definition assert_int (v : option any) : Z * bool :=
  match v with
  | Some (AInt n) => (n, true)
  | _ => (0, false)
  end.

(** * The TiKV helpers (package [tikv])

    [Puts], [Get], [Dels] and [Scan] over a transactional client.  A
    [[]byte] is a list of bytes; a nil slice and an empty one are both
    [[]].  The package-level [client] is taken to be initialised
    ([InitStore] panics otherwise). *)

Module tikv.

Import Calls.

#[local] Notation "'let*' x ':=' m 'in' k" := (bind m (fun x => k))
  (at level 10, x name, m at level 100, k at level 200, only parsing).

Definition bytes : Type := list Byte.byte.

Record KV : Type := mkKV {
  K : bytes;
  V : bytes
}.

(** The methods of [txnkv.Client], [*transaction.KVTxn] and the iterator
    that the package calls. *)
Inductive Call : Type :=
| CallBegin
| CallSet (key val : bytes)
| CallGet (k : bytes)
| CallDelete (key : bytes)
| CallIter (k : bytes) (upperBound : option bytes)
| CallCommit
| CallClose.

(** The answers of the client library.  An iterator is given by the
    entries it yields before [Valid()] turns false. *)
Record Cluster : Type := mkCluster {
  Begin_answer : list Call -> error;
  Set_answer : list Call -> bytes -> bytes -> error;
  Get_answer : list Call -> bytes -> result bytes;
  Delete_answer : list Call -> bytes -> error;
  Iter_answer : list Call -> bytes -> option bytes -> result (list KV);
  Commit_answer : list Call -> error
}.

(** What a call of a Go function ends in: a return or a run-time panic. *)
Inductive outcome (A : Type) : Type :=
| Returns (a : A)
| Panics.
Arguments Returns {A} a.
Arguments Panics {A}.

Section Package.

Variable cluster : Cluster.

Definition client_Begin : M error := call CallBegin (Begin_answer cluster).

Definition tx_Set (key val : bytes) : M error :=
  call (CallSet key val) (fun h => Set_answer cluster h key val).

Definition tx_Get (k : bytes) : M (result bytes) :=
  call (CallGet k) (fun h => Get_answer cluster h k).

Definition tx_Delete (key : bytes) : M error :=
  call (CallDelete key) (fun h => Delete_answer cluster h key).

Definition tx_Iter (k : bytes) (upperBound : option bytes) : M (result (list KV)) :=
  call (CallIter k upperBound) (fun h => Iter_answer cluster h k upperBound).

Definition tx_Commit : M error := call CallCommit (Commit_answer cluster).

Definition it_Close : M unit := call CallClose (fun _ => tt).

(** The loop of [Puts] over the arguments from index [i] on:
    [for i := 0; i < len(args); i += 2 { key, val := args[i], args[i+1]; ... }].
    [None] means the loop ran to its end; reading [args[i+1]] past the end
    of the slice panics. *)
Fixpoint Puts_loop (args : list bytes) : M (option (outcome error)) :=
  match args with
  | [] => ret None
  | [_] => ret (Some Panics)
  | key :: val :: rest =>
      let* err := tx_Set key val in
      match err with
      | Some e => ret (Some (Returns (Some e)))
      | None => Puts_loop rest
      end
  end.

Definition Puts (args : list bytes) : M (outcome error) :=
  let* err := client_Begin in
  match err with
  | Some e => ret (Returns (Some e))
  | None =>
      let* stop := Puts_loop args in
      match stop with
      | Some o => ret o
      | None => let* err := tx_Commit in ret (Returns err)
      end
  end.

Definition Get (k : bytes) : M (KV * error) :=
  let* err := client_Begin in
  match err with
  | Some e => ret (mkKV [] [], Some e)
  | None =>
      let* r := tx_Get k in
      match r with
      | Err e => ret (mkKV [] [], Some e)
      | Ok v => ret (mkKV k v, None)
      end
  end.

(** The loop of [Dels]; [None] means it ran to its end. *)
Fixpoint Dels_loop (keys : list bytes) : M (option error) :=
  match keys with
  | [] => ret None
  | key :: rest =>
      let* err := tx_Delete key in
      match err with
      | Some e => ret (Some (Some e))
      | None => Dels_loop rest
      end
  end.

Definition Dels (keys : list bytes) : M error :=
  let* err := client_Begin in
  match err with
  | Some e => ret (Some e)
  | None =>
      let* stop := Dels_loop keys in
      match stop with
      | Some err => ret err
      | None => tx_Commit
      end
  end.

(** The loop of [Scan]: [for it.Valid() && limit > 0 { ret = append(ret, ...);
    limit--; it.Next() }]. *)
Fixpoint Scan_loop (it : list KV) (limit : Z) (ret : list KV) : list KV :=
  match it with
  | [] => ret
  | kv :: it' =>
      if (0 <? limit)%Z
      then Scan_loop it' (limit - 1) (ret ++ [mkKV (K kv) (V kv)])%list
      else ret
  end.

Definition Scan (keyPrefix : bytes) (limit : Z) : M (list KV * error) :=
  let* err := client_Begin in
  match err with
  | Some e => ret ([], Some e)
  | None =>
      let* r := tx_Iter keyPrefix None in
      match r with
      | Err e => ret ([], Some e)
      | Ok it =>
          let found := Scan_loop it limit [] in
          let* _ := it_Close in
          ret (found, None)
      end
  end.

(** *** Vocabulary of the statements *)

(** The [Set] calls one pass over all complete pairs of [args] makes. *)
Fixpoint sets_of (args : list bytes) : list Call :=
  match args with
  | key :: val :: rest => CallSet key val :: sets_of rest
  | _ => []
  end.

(** Every [Set] of a pass over [args] that starts at history [h] is
    accepted. *)
Fixpoint sets_accepted (h : list Call) (args : list bytes) : Prop :=
  match args with
  | key :: val :: rest =>
      Set_answer cluster h key val = None /\
      sets_accepted (h ++ [CallSet key val])%list rest
  | _ => True
  end.

(** Every [Delete] of a pass over [keys] that starts at history [h] is
    accepted. *)
Fixpoint deletes_accepted (h : list Call) (keys : list bytes) : Prop :=
  match keys with
  | key :: rest =>
      Delete_answer cluster h key = None /\
      deletes_accepted (h ++ [CallDelete key])%list rest
  | [] => True
  end.

Definition is_write (c : Call) : bool :=
  match c with
  | CallSet _ _ | CallDelete _ | CallCommit => true
  | _ => false
  end.

End Package.

End tikv.

(** * The aiozfs datastore plugin (package [aiozfs])

    The plugin's configuration parser and disk specification.  A
    [map[string]interface{}] is a [gmap string any]. *)

Module aiozfs.

(** The shard functions of the datastore library: [aiozfs.ParseShardFunc]
    and the [String] method of a shard function. *)
Class ShardLib : Type := {
  ShardIdV1 : Type;
  ParseShardFunc : string -> result ShardIdV1;
  ShardIdV1_String : ShardIdV1 -> string
}.

Section Plugin.

Context {SL : ShardLib}.

Definition Name : string := "ds-aiozfs".
Definition Version : string := "0.1.0".
Definition DatastoreTypeName : string := "aiozfs".

Record datastoreConfig : Type := mkDatastoreConfig {
  path : string;
  shardFun : ShardIdV1;
  syncField : bool
}.

(** The function [DatastoreConfigParser] returns. *)
Definition DatastoreConfigParser (params : gmap string any) : result datastoreConfig :=
  let '(c_path, ok) := assert_string (params !! "path") in
  if negb ok then Err "'path' field is missing or not boolean" else
  let '(sshardFun, ok) := assert_string (params !! "shardFunc") in
  if negb ok then Err "'shardFunc' field is missing or not a string" else
  match ParseShardFunc sshardFun with
  | Err e => Err e
  | Ok c_shardFun =>
      let '(c_syncField, ok) := assert_bool (params !! "sync") in
      if negb ok then Err "'sync' field is missing or not boolean" else
      Ok (mkDatastoreConfig c_path c_shardFun c_syncField)
  end.

Definition DiskSpec (c : datastoreConfig) : gmap string any :=
  <["type" := AString "aiozfs"]>
    (<["path" := AString (path c)]>
       (<["shardFunc" := AString (ShardIdV1_String (shardFun c))]> ∅)).

End Plugin.

End aiozfs.

(** * The init command (package [main], [cmd/ipfs/init.go])

    The [Run] function of [initCmd], [applyProfiles], [checkWritable],
    [doInit], [addDefaultAssets] and [initializeIpnsKeyspace].  The
    [*config.Config] that [doInit] is given is mutated in place by the
    profiles; the model passes it along and returns it beside the
    error. *)

Module initcmd.

Import Calls.

#[local] Notation "'let*' x ':=' m 'in' k" := (bind m (fun x => k))
  (at level 10, x name, m at level 100, k at level 200, only parsing).

Definition nl : string := String "010"%char EmptyString.
Definition tab : string := String "009"%char EmptyString.
Definition comma : ascii := ","%char.

(** [strings.Split(s, sep)] for a separator [sep] of one byte. *)
Fixpoint Split (s : string) (sep : ascii) : list string :=
  match s with
  | EmptyString => [EmptyString]
  | String a s' =>
      if Ascii.eqb a sep then EmptyString :: Split s' sep
      else match Split s' sep with
           | piece :: rest => String a piece :: rest
           | [] => [String a EmptyString]
           end
  end.

(** A Go error of the [os] package: its text and what [os.IsPermission]
    and [os.IsNotExist] say of it. *)
Inductive errkind : Type :=
| ErrPermission
| ErrNotExist
| ErrOther.

Record goerror : Type := mkError {
  Error : string;
  kind : errkind
}.

Definition os_IsPermission (err : goerror) : bool :=
  match kind err with ErrPermission => true | _ => false end.

Definition os_IsNotExist (err : goerror) : bool :=
  match kind err with ErrNotExist => true | _ => false end.

(** [errors.New(msg)], and [fmt.Errorf] without [%w], once formatted. *)
Definition errors_New (msg : string) : goerror := mkError msg ErrOther.

Definition algorithmOptionName : string := "algorithm".
Definition bitsOptionName : string := "bits".
Definition emptyRepoOptionName : string := "empty-repo".
Definition dedicatedGateway : string := "dedicated-gateway".
Definition profileOptionName : string := "profile".
Definition psEp : string := "pinning-service".
Definition apiKey : string := "api-key".
Definition uploaderEndpoint : string := "uploader-endpoint".
Definition redisConn : string := "redis-conn".
Definition amqpConnect : string := "amqp-connect".
Definition encryptBlockKey : string := "encrypt-block-key".
Definition encryptedBlockPrefix : string := "encrypted-block-prefix".

(** [options.KeyGenerateOption] *)
Inductive KeyGenerateOption : Type :=
| Key_Size (bits : Z)
| Key_Type (algorithm : string).

(** [config.Identity] *)
Record Identity : Type := mkIdentity {
  PeerID : string;
  PrivKey : string
}.

(** [config.ConfigPinningService], as [Run] fills it. *)
Record ConfigPinningService : Type := mkConfigPinningService {
  Uploader : string;
  PinningService : string;
  BlockserviceApiKey : string;
  DedicatedGateway : bool;
  RedisConn : string;
  AmqpConnect : string;
  BlockEncryptionKey : string;
  EncryptedBlockPrefix : string
}.

(** The file argument of the request: [req.Files] is nil, or its first
    entry is missing (with the error of the iterator, if any), or it is
    there and is a regular file with some content or is not one. *)
Inductive FileArg : Type :=
| NoFiles
| NoEntry (err : option goerror)
| Entry (file : option string).

Definition errRepoExists : goerror :=
  errors_New ("ipfs configuration file already exists!" ++ nl ++
              "Reinitializing would overwrite your keys" ++ nl).

Section Command.

(** [config.Config] *)
Variable Config : Type.

Inductive Call : Type :=
| Fprintf (text : string)
| Stat (name : string)
| Create (name : string)
| FileClose (name : string)
| Remove (name : string)
| Mkdir (name : string) (perm : Z)
| IsInitialized (repoRoot : string)
| FsrepoInit (repoRoot : string) (conf : Config)
| FsrepoOpen (repoRoot : string)
| NewNode
| NodeClose
| SeedInitDocs
| Debugf (msg : string)
| Pin (recursive : bool)
| Flush
| Publish
| CreateIdentity (opts : list KeyGenerateOption)
| Println (text : string)
| Printf (text : string)
| InitBlockService (uploaderEndpoint pinningServiceEndpoint : string) (dGw : bool)
    (redisConn amqpConnect encryptKey blockPrefix : string)
| InitWithIdentity (identity : Identity) (configPinningService : ConfigPinningService).

(** The answers of the operating system and of the packages [fsrepo],
    [core], [assets] and [config]. *)
Record System : Type := mkSystem {
  Fprintf_answer : list Call -> string -> option goerror;
  Stat_answer : list Call -> string -> option goerror;
  Create_answer : list Call -> string -> option goerror;
  Remove_answer : list Call -> string -> option goerror;
  Mkdir_answer : list Call -> string -> Z -> option goerror;
  IsInitialized_answer : list Call -> string -> bool;
  Init_answer : list Call -> string -> Config -> option goerror;
  Open_answer : list Call -> string -> option goerror;
  NewNode_answer : list Call -> option goerror;
  SeedInitDocs_answer : list Call -> string + goerror;
  Pin_answer : list Call -> option goerror;
  Flush_answer : list Call -> option goerror;
  Publish_answer : list Call -> option goerror;
  CreateIdentity_answer : list Call -> list KeyGenerateOption -> Identity + goerror;
  InitBlockService_answer :
    list Call -> string -> string -> bool -> string -> string -> string -> string ->
    option goerror;
  InitWithIdentity_answer :
    list Call -> Identity -> ConfigPinningService -> Config + goerror;
  json_Decode : string -> Config + goerror;
  filepath_Join : string -> string -> string;
  Profiles : gmap string (Config -> option goerror * Config)
}.

Variable sys : System.

Definition fmt_Fprintf (text : string) : M (option goerror) :=
  call (Fprintf text) (fun h => Fprintf_answer sys h text).

Definition os_Stat (name : string) : M (option goerror) :=
  call (Stat name) (fun h => Stat_answer sys h name).

Definition os_Create (name : string) : M (option goerror) :=
  call (Create name) (fun h => Create_answer sys h name).

Definition File_Close (name : string) : M unit :=
  call (FileClose name) (fun _ => tt).

Definition os_Remove (name : string) : M (option goerror) :=
  call (Remove name) (fun h => Remove_answer sys h name).

Definition os_Mkdir (name : string) (perm : Z) : M (option goerror) :=
  call (Mkdir name perm) (fun h => Mkdir_answer sys h name perm).

Definition fsrepo_IsInitialized (repoRoot : string) : M bool :=
  call (IsInitialized repoRoot) (fun h => IsInitialized_answer sys h repoRoot).

Definition fsrepo_Init (repoRoot : string) (conf : Config) : M (option goerror) :=
  call (FsrepoInit repoRoot conf) (fun h => Init_answer sys h repoRoot conf).

Definition fsrepo_Open (repoRoot : string) : M (option goerror) :=
  call (FsrepoOpen repoRoot) (fun h => Open_answer sys h repoRoot).

Definition core_NewNode : M (option goerror) :=
  call NewNode (NewNode_answer sys).

Definition nd_Close : M unit := call NodeClose (fun _ => tt).

Definition assets_SeedInitDocs : M (string + goerror) :=
  call SeedInitDocs (SeedInitDocs_answer sys).

Definition log_Debugf (msg : string) : M unit := call (Debugf msg) (fun _ => tt).

Definition Pinning_Pin (recursive : bool) : M (option goerror) :=
  call (Pin recursive) (Pin_answer sys).

Definition Pinning_Flush : M (option goerror) := call Flush (Flush_answer sys).

Definition Namesys_Publish : M (option goerror) := call Publish (Publish_answer sys).

(** The loop of [applyProfiles] over the names [strings.Split] returned. *)
Fixpoint applyProfiles_loop (names : list string) (conf : Config)
  : option goerror * Config :=
  match names with
  | [] => (None, conf)
  | profile :: rest =>
      match Profiles sys !! profile with
      | None => (Some (errors_New ("invalid configuration profile: " ++ profile)), conf)
      | Some transformer =>
          match transformer conf with
          | (Some err, conf') => (Some err, conf')
          | (None, conf') => applyProfiles_loop rest conf'
          end
      end
  end.

Definition applyProfiles (conf : Config) (profiles : string) : option goerror * Config :=
  if String.eqb profiles EmptyString then (None, conf)
  else applyProfiles_loop (Split profiles comma) conf.

Definition checkWritable (dir : string) : M (option goerror) :=
  let* err := os_Stat dir in
  match err with
  | None =>
      let testfile := filepath_Join sys dir "test" in
      let* err := os_Create testfile in
      match err with
      | Some err =>
          if os_IsPermission err
          then ret (Some (errors_New (dir ++ " is not writeable by the current user")))
          else ret (Some (errors_New
                 ("unexpected error while checking writeablility of repo root: "
                  ++ Error err)))
      | None =>
          let* _ := File_Close testfile in
          os_Remove testfile
      end
  | Some err =>
      if os_IsNotExist err then os_Mkdir dir 509
      else if os_IsPermission err
      then ret (Some (errors_New
             ("cannot write to " ++ Error err ++ ", incorrect permissions")))
      else ret (Some err)
  end.

(** [defer nd.Close()]: the node is closed when the rest of the function
    returns. *)
Definition deferred_Close {A : Type} (rest : M A) : M A :=
  let* a := rest in
  let* _ := nd_Close in
  ret a.

Definition addDefaultAssets (repoRoot : string) : M (option goerror) :=
  let* err := fsrepo_Open repoRoot in
  match err with
  | Some err => ret (Some err)
  | None =>
      let* err := core_NewNode in
      match err with
      | Some err => ret (Some err)
      | None =>
          deferred_Close (
            let* seeded := assets_SeedInitDocs in
            match seeded with
            | inr err =>
                ret (Some (errors_New
                  ("init: seeding init docs failed: " ++ Error err)))
            | inl dkey =>
                let* _ := log_Debugf ("init: seeded init docs " ++ dkey) in
                let* err := fmt_Fprintf ("to get started, enter:" ++ nl) in
                match err with
                | Some err => ret (Some err)
                | None =>
                    fmt_Fprintf (nl ++ tab ++ "ipfs cat /ipfs/" ++ dkey
                                 ++ "/readme" ++ nl ++ nl)
                end
            end)
      end
  end.

Definition initializeIpnsKeyspace (repoRoot : string) : M (option goerror) :=
  let* err := fsrepo_Open repoRoot in
  match err with
  | Some err => ret (Some err)
  | None =>
      let* err := core_NewNode in
      match err with
      | Some err => ret (Some err)
      | None =>
          deferred_Close (
            let* err := Pinning_Pin true in
            match err with
            | Some err => ret (Some err)
            | None =>
                let* err := Pinning_Flush in
                match err with
                | Some err => ret (Some err)
                | None => Namesys_Publish
                end
            end)
      end
  end.

(** [doInit(out, repoRoot, empty, confProfiles, conf)]; [out] is the
    writer of the [Fprintf] calls. *)
Definition doInit (repoRoot : string) (empty : bool) (confProfiles : string)
    (conf : Config) : M (option goerror * Config) :=
  let* err := fmt_Fprintf ("initializing IPFS node at " ++ repoRoot ++ nl) in
  match err with
  | Some err => ret (Some err, conf)
  | None =>
      let* err := checkWritable repoRoot in
      match err with
      | Some err => ret (Some err, conf)
      | None =>
          let* initialized := fsrepo_IsInitialized repoRoot in
          if initialized then ret (Some errRepoExists, conf)
          else
            let '(err, conf) := applyProfiles conf confProfiles in
            match err with
            | Some err => ret (Some err, conf)
            | None =>
                let* err := fsrepo_Init repoRoot conf in
                match err with
                | Some err => ret (Some err, conf)
                | None =>
                    let* err := (if negb empty then addDefaultAssets repoRoot
                                 else ret None) in
                    match err with
                    | Some err => ret (Some err, conf)
                    | None =>
                        let* err := initializeIpnsKeyspace repoRoot in
                        ret (err, conf)
                    end
                end
            end
      end
  end.

Definition config_CreateIdentity (opts : list KeyGenerateOption)
  : M (Identity + goerror) :=
  call (CreateIdentity opts) (fun h => CreateIdentity_answer sys h opts).

Definition fmt_Println (text : string) : M unit := call (Println text) (fun _ => tt).

Definition fmt_Printf (text : string) : M unit := call (Printf text) (fun _ => tt).

Definition blockservice_InitBlockService (uploaderEndpoint pinningServiceEndpoint : string)
    (dGw : bool) (redisConn amqpConnect encryptKey blockPrefix : string)
  : M (option goerror) :=
  call (InitBlockService uploaderEndpoint pinningServiceEndpoint dGw redisConn
          amqpConnect encryptKey blockPrefix)
       (fun h => InitBlockService_answer sys h uploaderEndpoint pinningServiceEndpoint
                   dGw redisConn amqpConnect encryptKey blockPrefix).

Definition config_InitWithIdentity (identity : Identity)
    (configPinningService : ConfigPinningService) : M (Config + goerror) :=
  call (InitWithIdentity identity configPinningService)
       (fun h => InitWithIdentity_answer sys h identity configPinningService).

(** The block [if f != nil { ... }] of [Run]: the configuration decoded
    from the file argument, none when there is no file argument, or the
    error [Run] returns. *)
Definition read_config_file (files : FileArg) : option Config + goerror :=
  match files with
  | NoFiles => inl None
  | NoEntry (Some err) => inr err
  | NoEntry None => inr (errors_New "file argument was nil")
  | Entry None => inr (errors_New "expected a regular file")
  | Entry (Some file) =>
      match json_Decode sys file with
      | inl conf => inl (Some conf)
      | inr err => inr err
      end
  end.

(** The block [if conf == nil { ... }] of [Run]. *)
Definition new_config (options : gmap string any) (algorithm : string)
    (nBitsForKeypair : Z) (nBitsGiven : bool) : M (Config + goerror) :=
  let* created :=
    (if nBitsGiven
     then config_CreateIdentity [Key_Size nBitsForKeypair; Key_Type algorithm]
     else config_CreateIdentity [Key_Type algorithm]) in
  match created with
  | inr err => ret (inr err)
  | inl identity =>
      let uploaderEndpoint := fst (assert_string (options !! uploaderEndpoint)) in
      let pinningServiceEndpoint := fst (assert_string (options !! psEp)) in
      let blockserviceApiKey := fst (assert_string (options !! apiKey)) in
      let dGw := fst (assert_bool (options !! dedicatedGateway)) in
      let '(redisConn, ok) := assert_string (options !! redisConn) in
      let* _ := (if negb ok then fmt_Println "redisConn is not ok" else ret tt) in
      let amqpConnect := fst (assert_string (options !! amqpConnect)) in
      let encryptKey := fst (assert_string (options !! encryptBlockKey)) in
      let blockPrefix := fst (assert_string (options !! encryptedBlockPrefix)) in
      let configPinningService :=
        mkConfigPinningService uploaderEndpoint pinningServiceEndpoint
          blockserviceApiKey dGw redisConn amqpConnect encryptKey blockPrefix in
      let* err := blockservice_InitBlockService uploaderEndpoint pinningServiceEndpoint
                    dGw redisConn amqpConnect encryptKey blockPrefix in
      match err with
      | Some err =>
          let* _ := fmt_Printf ("InitBlockService  " ++ Error err ++ nl) in
          ret (inr (errors_New "InitBlockService"))
      | None => config_InitWithIdentity identity configPinningService
      end
  end.

(** [initCmd.Run]; [ConfigRoot] is [cctx.ConfigRoot]. *)
Definition Run (options : gmap string any) (files : FileArg) (ConfigRoot : string)
  : M (option goerror) :=
  let empty := fst (assert_bool (options !! emptyRepoOptionName)) in
  let algorithm := fst (assert_string (options !! algorithmOptionName)) in
  let '(nBitsForKeypair, nBitsGiven) := assert_int (options !! bitsOptionName) in
  match read_config_file files with
  | inr err => ret (Some err)
  | inl conf =>
      let* built :=
        match conf with
        | Some conf => ret (inl conf)
        | None => new_config options algorithm nBitsForKeypair nBitsGiven
        end in
      match built with
      | inr err => ret (Some err)
      | inl conf =>
          let profiles := fst (assert_string (options !! profileOptionName)) in
          let* done_ := doInit ConfigRoot empty profiles conf in
          ret (fst done_)
      end
  end.

(** *** Vocabulary of the statements *)

(** The calls that make a new configuration. *)
Definition makes_config (c : Call) : bool :=
  match c with
  | CreateIdentity _ | Println _ | Printf _ | InitBlockService _ _ _ _ _ _ _
  | InitWithIdentity _ _ => true
  | _ => false
  end.

(** [strings.Join(elems, sep)] for a separator of one byte. *)
Fixpoint Join (elems : list string) (sep : ascii) : string :=
  match elems with
  | [] => EmptyString
  | [e] => e
  | e :: rest => e ++ String sep (Join rest sep)
  end.

(** The byte [c] does not occur in [s]. *)
Fixpoint free_of (c : ascii) (s : string) : bool :=
  match s with
  | EmptyString => true
  | String a s' => negb (Ascii.eqb a c) && free_of c s'
  end.

Definition is_FsrepoInit (c : Call) : bool :=
  match c with FsrepoInit _ _ => true | _ => false end.

(** The calls made before the repository is looked at: the first line of
    output and the probing of the directory. *)
Definition prepares (c : Call) : bool :=
  match c with
  | Fprintf _ | Stat _ | Create _ | FileClose _ | Remove _ | Mkdir _ _ => true
  | _ => false
  end.

(** The calls made on the repository once it is written. *)
Definition is_node_call (c : Call) : bool :=
  match c with
  | FsrepoOpen _ | NewNode | NodeClose | SeedInitDocs | Debugf _ | Fprintf _
  | Pin _ | Flush | Publish => true
  | _ => false
  end.

(** Calls that change the repository or the file system. *)
Definition touches_repo (c : Call) : bool :=
  match c with
  | FsrepoInit _ _ | FsrepoOpen _ | NewNode | SeedInitDocs | Pin _ | Flush | Publish =>
      true
  | _ => false
  end.

End Command.

Arguments Fprintf {Config} text.
Arguments Stat {Config} name.
Arguments Create {Config} name.
Arguments FileClose {Config} name.
Arguments Remove {Config} name.
Arguments Mkdir {Config} name perm.
Arguments IsInitialized {Config} repoRoot.
Arguments FsrepoInit {Config} repoRoot conf.
Arguments FsrepoOpen {Config} repoRoot.
Arguments NewNode {Config}.
Arguments NodeClose {Config}.
Arguments SeedInitDocs {Config}.
Arguments Debugf {Config} msg.
Arguments Pin {Config} recursive.
Arguments Flush {Config}.
Arguments Publish {Config}.
Arguments CreateIdentity {Config} opts.
Arguments Println {Config} text.
Arguments Printf {Config} text.
Arguments InitBlockService {Config} uploaderEndpoint pinningServiceEndpoint dGw
  redisConn amqpConnect encryptKey blockPrefix.
Arguments InitWithIdentity {Config} identity configPinningService.
Arguments read_config_file {Config} sys files.
Arguments new_config {Config} sys options algorithm nBitsForKeypair nBitsGiven.
Arguments Run {Config} sys options files ConfigRoot.
Arguments makes_config {Config} c.
Arguments applyProfiles {Config} sys conf profiles.
Arguments applyProfiles_loop {Config} sys names conf.
Arguments checkWritable {Config} sys dir.
Arguments addDefaultAssets {Config} sys repoRoot.
Arguments initializeIpnsKeyspace {Config} sys repoRoot.
Arguments doInit {Config} sys repoRoot empty confProfiles conf.
Arguments is_FsrepoInit {Config} c.
Arguments prepares {Config} c.
Arguments is_node_call {Config} c.
Arguments touches_repo {Config} c.

End initcmd.

(** ** Concrete instances of the further interfaces

    Used only to evaluate the packages on closed inputs. *)

Module SampleGateway.

(** A dedicated-gateway configuration whose pinning-service endpoint
    holds a tab, so that no URL can be made from it. *)
Definition cfg_unbuildable : Config :=
  {| ConfigPinningService :=
       {| Uploader := ""; PinningService := String "009"%char "pin";
          BlockserviceApiKey := "k"; DedicatedGateway := true; RedisConn := "";
          AmqpConnect := ""; BlockEncryptionKey := ""; EncryptedBlockPrefix := "";
          IpfsDomain := ""; SslCertPath := ""; SslKeyPath := "" |} |}.

(** A node that is closing when the server starts. *)
Definition schedule_closing : Schedule :=
  {| closing_at_start := true;
     requests := [Sample.get "/ipfs/QmA"];
     serve_loop_error := None;
     first_signal := ProcessClosing;
     warn_ticks := 0;
     shutdown_error := fun _ => None |}.

End SampleGateway.

Module SampleStore.

Import tikv.

Definition k1 : bytes := [Byte.x6b; Byte.x31].
Definition v1 : bytes := [Byte.x76; Byte.x31].
Definition k2 : bytes := [Byte.x6b; Byte.x32].
Definition v2 : bytes := [Byte.x76; Byte.x32].
Definition other : bytes := [Byte.x7a].

(** A cluster that accepts every call; its iterators yield three entries,
    the last of them under a key that does not start with [k]. *)
Definition accepting : Cluster :=
  {| Begin_answer := fun _ => None;
     Set_answer := fun _ _ _ => None;
     Get_answer := fun _ _ => Ok v1;
     Delete_answer := fun _ _ => None;
     Iter_answer := fun _ _ _ => Ok [mkKV k1 v1; mkKV k2 v2; mkKV other v1];
     Commit_answer := fun _ => None |}.

(** A cluster that refuses the second write of a transaction and has no
    iterator to give. *)
Definition conflicting : Cluster :=
  {| Begin_answer := fun _ => None;
     Set_answer := fun h _ _ => if (length h =? 2)%nat then Some "write conflict" else None;
     Get_answer := fun _ _ => Err "not exist";
     Delete_answer := fun h _ => if (length h =? 2)%nat then Some "write conflict" else None;
     Iter_answer := fun _ _ _ => Err "region unavailable";
     Commit_answer := fun _ => None |}.

End SampleStore.

Module SamplePlugin.

Import aiozfs.

Definition next_to_last_2 : string := "/repo/flatfs/shard/v1/next-to-last/2".

(** A library with one shard function. *)
Definition shard_lib : ShardLib :=
  {| ShardIdV1 := unit;
     ParseShardFunc := fun s =>
       if String.eqb s next_to_last_2 then Ok tt else Err "invalid shard identifier";
     ShardIdV1_String := fun _ => next_to_last_2 |}.

Definition params : gmap string any :=
  <["type" := AString "aiozfs"]>
    (<["path" := AString "blocks"]>
       (<["shardFunc" := AString next_to_last_2]>
          (<["sync" := ABool true]> ∅))).

End SamplePlugin.

Module SampleInit.

Import initcmd.

(** A configuration that records the profiles applied to it. *)
Definition Config : Type := list string.

Definition profiles : gmap string (Config -> option goerror * Config) :=
  <["server" := fun conf => (None, (conf ++ ["server"])%list)]>
    (<["test" := fun conf => (None, (conf ++ ["test"])%list)]> ∅).

(** A system in which every call succeeds, but for the answers of
    [os.Stat], of [fsrepo.IsInitialized] and of the block service, which
    are given. *)
Definition system (stat : option goerror) (initialized : bool)
    (block : option goerror) : System Config :=
  {| Fprintf_answer := fun _ _ => None;
     Stat_answer := fun _ _ => stat;
     Create_answer := fun _ _ => None;
     Remove_answer := fun _ _ => None;
     Mkdir_answer := fun _ _ _ => None;
     IsInitialized_answer := fun _ _ => initialized;
     Init_answer := fun _ _ _ => None;
     Open_answer := fun _ _ => None;
     NewNode_answer := fun _ => None;
     SeedInitDocs_answer := fun _ => inl "QmDocs";
     Pin_answer := fun _ => None;
     Flush_answer := fun _ => None;
     Publish_answer := fun _ => None;
     CreateIdentity_answer := fun _ _ => inl (mkIdentity "12D3KooW" "CAESQ");
     InitBlockService_answer := fun _ _ _ _ _ _ _ _ => block;
     InitWithIdentity_answer := fun _ _ _ => inl [];
     json_Decode := fun file =>
       if String.eqb file "{}" then inl []
       else inr (errors_New "unexpected end of JSON input");
     filepath_Join := fun dir name => dir ++ "/" ++ name;
     Profiles := profiles |}.

Definition options : gmap string any :=
  <["empty-repo" := ABool true]> (<["bits" := AInt 2048]> ∅).

End SampleInit.


(** * Properties of the path pattern *)

Section PathPattern.

Import GoStrings Regexp.

Lemma append_String (c : ascii) (s t : string) : String c s ++ t = String c (s ++ t).
Proof. reflexivity. Qed.

Lemma HasPrefix_inv (p s : string) :
  HasPrefix s p = true -> s = p ++ drop_bytes (String.length p) s.
Proof.
  unfold HasPrefix. revert s.
  induction p as [|c p IH]; intros s H.
  - by destruct s.
  - destruct s as [|d s]; simpl in H; [done|].
    destruct (ascii_dec c d) as [->|]; [|done].
    simpl. rewrite append_String. by rewrite <- (IH s H).
Qed.

Lemma HasPrefix_app (p rest : string) : HasPrefix (p ++ rest) p = true.
Proof.
  unfold HasPrefix. induction p as [|c p IH].
  - by destruct rest.
  - rewrite append_String. simpl. by destruct (ascii_dec c c).
Qed.

Lemma drop_bytes_app (p rest : string) : drop_bytes (String.length p) (p ++ rest) = rest.
Proof. induction p as [|c p IH]; [done | by rewrite append_String]. Qed.

(** The run taken by the group holds no '/'. *)
Lemma span_not_slash_no_slash (s : string) (c : ascii) :
  In c (list_ascii_of_string (span_not_slash s)) -> c <> slash.
Proof.
  induction s as [|d s IH]; simpl; [done|].
  destruct (Ascii.eqb d slash) eqn:E; simpl; [done|].
  intros [<-|H]; [|by apply IH].
  intros ->. by rewrite Ascii.eqb_refl in E.
Qed.

(** The run is maximal: what follows it is the end of the string or a '/'. *)
Lemma span_not_slash_maximal (s : string) :
  exists rest, s = span_not_slash s ++ rest /\
    (rest = EmptyString \/ exists rest', rest = String slash rest').
Proof.
  induction s as [|d s (rest & E & Hrest)]; simpl.
  - exists EmptyString. by split; [|left].
  - destruct (Ascii.eqb_spec d slash) as [->|Hd].
    + exists (String slash s). split; [done|]. right. by exists s.
    + exists rest. split; [|done]. rewrite append_String. by rewrite <- E.
Qed.

(** When a non-empty segment follows the prefix, the leftmost match starts
    at the head of the path and the group is that segment. *)
Lemma FindStringSubmatch_first_segment (rest : string) :
  span_not_slash rest <> EmptyString ->
  FindStringSubmatch ("/ipfs/" ++ rest)
  = Some ["/ipfs/" ++ span_not_slash rest; span_not_slash rest].
Proof.
  intros Hne.
  assert (Hm : match_here ("/ipfs/" ++ rest)
               = Some ["/ipfs/" ++ span_not_slash rest; span_not_slash rest]).
  { unfold match_here. rewrite HasPrefix_app.
    change 6%nat with (String.length "/ipfs/"). rewrite drop_bytes_app.
    by destruct (span_not_slash rest). }
  change ("/ipfs/" ++ rest) with (String "/" ("ipfs/" ++ rest)) in *.
  cbn [FindStringSubmatch]. by rewrite Hm.
Qed.

(** When no segment follows the prefix, the search moves on into the rest
    of the path. *)
Lemma FindStringSubmatch_empty_segment (rest : string) :
  span_not_slash rest = EmptyString ->
  FindStringSubmatch ("/ipfs/" ++ rest) = FindStringSubmatch rest.
Proof.
  intros Hseg.
  change ("/ipfs/" ++ rest)
    with (String "/" (String "i" (String "p" (String "f" (String "s" (String "/" rest)))))).
  assert (H0 : match_here (String "/" (String "i" (String "p" (String "f"
                 (String "s" (String "/" rest)))))) = None).
  { unfold match_here, HasPrefix. simpl. rewrite Hseg. by destruct (String.prefix _ _). }
  assert (H5 : match_here (String "/" rest) = None).
  { unfold match_here, HasPrefix. destruct rest as [|c rest']; simpl; [done|].
    simpl in Hseg. destruct (Ascii.eqb_spec c slash) as [->|]; [|done].
    by vm_compute. }
  cbn [FindStringSubmatch]. rewrite H0.
  change (match_here (String "i" (String "p" (String "f" (String "s" (String "/" rest))))))
    with (@None (list string)).
  change (match_here (String "p" (String "f" (String "s" (String "/" rest)))))
    with (@None (list string)).
  change (match_here (String "f" (String "s" (String "/" rest)))) with (@None (list string)).
  change (match_here (String "s" (String "/" rest))) with (@None (list string)).
  cbv iota. rewrite H5. by destruct rest.
Qed.

End PathPattern.

(** * Properties of the policy gate *)

Section PolicyGate.

Context {RL : RateLib} {CL : CidLib} {UL : UrlLib}.
Variable env : Env.

(** The moderation check, case by case. *)
Lemma checkDmca_run (hash : string) (cfg : Config) (w : World) :
  checkDmca env hash cfg w =
  let w0 := log_event (EvCheckDmca hash) w in
  match url_Parse_error (dmca_url cfg hash) with
  | Some e => ((http.StatusInternalServerError, Some ("failed to create request: " ++ e)), w0)
  | None =>
      let req := api_request cfg (dmca_url cfg hash) in
      let w1 := log_event (EvClientDo (15 * time.Second) req) w0 in
      match Do env (15 * time.Second) req with
      | None => ((http.StatusInternalServerError, Some dmca_call_failed_msg), w1)
      | Some resp =>
          (if http.StatusCode resp =? 410 then (410, Some dmca_gone_msg)
           else if http.StatusCode resp =? 200 then (200, None)
           else (http.StatusCode resp, Some dmca_denied_msg),
           log_event EvBodyClose w1)
      end
  end.
Proof.
  unfold checkDmca, http_NewRequest, client_Do, bind, ret, emit, dmca_url.
  simpl. destruct (url_Parse_error _) as [e|]; [done|].
  unfold api_request, http.Header_Set; simpl.
  destruct (Do env _ _) as [resp|]; [|done].
  unfold http.StatusGone, http.StatusOK.
  destruct (http.StatusCode resp =? 410); [done|].
  by destruct (http.StatusCode resp =? 200).
Qed.

(** The access check, case by case. *)
Lemma getDedicatedGatewayAccess_run (hash : string) (cfg : Config) (w : World) :
  getDedicatedGatewayAccess env hash cfg w =
  let w0 := log_event (EvGetDedicatedGatewayAccess hash) w in
  match url_Parse_error (access_url cfg hash) with
  | Some e => ((http.StatusInternalServerError, Some ("failed to create request: " ++ e)), w0)
  | None =>
      let req := api_request cfg (access_url cfg hash) in
      let w1 := log_event (EvClientDo (15 * time.Second) req) w0 in
      match Do env (15 * time.Second) req with
      | None => ((http.StatusInternalServerError, Some access_call_failed_msg), w1)
      | Some resp =>
          (if http.StatusCode resp =? 200 then (200, None)
           else (http.StatusCode resp, Some access_denied_msg),
           log_event EvBodyClose w1)
      end
  end.
Proof.
  unfold getDedicatedGatewayAccess, http_NewRequest, client_Do, bind, ret, emit, access_url.
  simpl. destruct (url_Parse_error _) as [e|]; [done|].
  unfold api_request, http.Header_Set; simpl.
  destruct (Do env _ _) as [resp|]; [|done].
  unfold http.StatusOK.
  by destruct (http.StatusCode resp =? 200).
Qed.

End PolicyGate.

(** * Properties of the limiter registry *)

Section Registry.

Context {RL : RateLib} {CL : CidLib} {UL : UrlLib}.
Variable env : Env.

Lemma load_store_eq (m : LimitMap) (v : gmap string loc) (w : World) :
  load_map m (store_map m v w) = v.
Proof. by destruct m. Qed.

Lemma load_store_ne (m m' : LimitMap) (v : gmap string loc) (w : World) :
  m <> m' -> load_map m' (store_map m v w) = load_map m' w.
Proof. by destruct m, m'. Qed.

Lemma load_log_event (m : LimitMap) (e : Event) (w : World) :
  load_map m (log_event e w) = load_map m w.
Proof. by destruct m. Qed.

Lemma load_set_heap (m : LimitMap) (h : list Limiter) (w : World) :
  load_map m (set_heap h w) = load_map m w.
Proof. by destruct m. Qed.

Lemma heap_store_map (m : LimitMap) (v : gmap string loc) (w : World) :
  heap (store_map m v w) = heap w.
Proof. by destruct m. Qed.

Lemma trace_store_map (m : LimitMap) (v : gmap string loc) (w : World) :
  trace (store_map m v w) = trace w.
Proof. by destruct m. Qed.

(** [getLimiter], case by case. *)
Lemma getLimiter_run (limit : string) (limitMap : LimitMap) (rps : Z) (w : World) :
  getLimiter limit limitMap rps w =
  let w0 := log_event (EvGetLimiter limit limitMap rps) w in
  match load_map limitMap w !! limit with
  | Some limiter => (limiter, w0)
  | None =>
      (length (heap w),
       store_map limitMap (<[limit := length (heap w)]> (load_map limitMap w))
         (set_heap (heap w ++ [NewLimiter (rate.Every time.Minute) rps]) w0))
  end.
Proof.
  unfold getLimiter, bind, emit, new_limiter. simpl.
  rewrite load_log_event.
  destruct (load_map limitMap w !! limit) as [l|]; [done|].
  simpl. by rewrite load_set_heap, load_log_event.
Qed.

(** [Allow] on an allocated limiter, spelled out. *)
Lemma Limiter_Allow_run (limiter : loc) (lim : Limiter) (w : World) :
  heap w !! limiter = Some lim ->
  Limiter_Allow env limiter w =
  (fst (Allow (Now env (ticks w)) lim),
   log_event (EvAllow limiter (fst (Allow (Now env (ticks w)) lim)))
     (set_heap (<[limiter := snd (Allow (Now env (ticks w)) lim)]> (heap w))
        (set_ticks (S (ticks w)) w))).
Proof.
  intros H. unfold Limiter_Allow, bind, time_Now. simpl. rewrite H.
  by destruct (Allow _ lim).
Qed.

Lemma wf_init_world : wf init_world.
Proof.
  split.
  - intros [] k l H; simpl in H; by rewrite lookup_empty in H.
  - intros [] m2 k1 k2 l H; simpl in H; by rewrite lookup_empty in H.
Qed.

Lemma wf_log_event (e : Event) (w : World) : wf w -> wf (log_event e w).
Proof.
  intros [H1 H2]. split.
  - intros m k l. rewrite load_log_event. apply H1.
  - intros m1 m2 k1 k2 l. rewrite !load_log_event. apply H2.
Qed.

Lemma wf_getLimiter (limit : string) (limitMap : LimitMap) (rps : Z) (w : World) :
  wf w -> wf (snd (getLimiter limit limitMap rps w)).
Proof.
  intros Hwf. rewrite getLimiter_run. simpl.
  destruct (load_map limitMap w !! limit) as [l0|] eqn:E; simpl.
  { by apply wf_log_event. }
  destruct Hwf as [H1 H2]. split.
  - intros m k l. rewrite heap_store_map. simpl. rewrite length_app. simpl.
    destruct (decide (m = limitMap)) as [->|Hm].
    + rewrite load_store_eq. destruct (decide (k = limit)) as [->|Hk].
      * rewrite lookup_insert_eq. intros [= <-]. lia.
      * rewrite lookup_insert_ne by done. intros H. apply H1 in H. lia.
    + rewrite load_store_ne by done. rewrite load_set_heap, load_log_event.
      intros H. apply H1 in H. lia.
  - assert (Hfresh : forall m k, load_map m w !! k <> Some (length (heap w))).
    { intros m k H. apply H1 in H. lia. }
    intros m1 m2 k1 k2 l.
    destruct (decide (m1 = limitMap)) as [->|Hm1];
      destruct (decide (m2 = limitMap)) as [->|Hm2];
      rewrite ?load_store_eq, ?load_store_ne, ?load_set_heap, ?load_log_event by done.
    + destruct (decide (k1 = limit)) as [->|Hk1];
        destruct (decide (k2 = limit)) as [->|Hk2];
        rewrite ?lookup_insert_eq, ?lookup_insert_ne by done.
      * done.
      * intros [= <-] H. by apply Hfresh in H.
      * intros H [= <-]. by apply Hfresh in H.
      * apply H2.
    + destruct (decide (k1 = limit)) as [->|Hk1];
        rewrite ?lookup_insert_eq, ?lookup_insert_ne by done.
      * intros [= <-] H. by apply Hfresh in H.
      * apply H2.
    + destruct (decide (k2 = limit)) as [->|Hk2];
        rewrite ?lookup_insert_eq, ?lookup_insert_ne by done.
      * intros H [= <-]. by apply Hfresh in H.
      * apply H2.
    + apply H2.
Qed.

Lemma getLimiter_allocated (limit : string) (limitMap : LimitMap) (rps : Z) (w : World) :
  wf w ->
  (fst (getLimiter limit limitMap rps w) < length (heap (snd (getLimiter limit limitMap rps w))))%nat.
Proof.
  intros [H1 _]. rewrite getLimiter_run. simpl.
  destruct (load_map limitMap w !! limit) as [l0|] eqn:E; simpl.
  - by apply H1 in E.
  - rewrite heap_store_map. simpl. rewrite length_app. simpl. lia.
Qed.

(** [Allow] changes one limiter object and the clock reading, nothing else. *)
Lemma Limiter_Allow_frame (limiter : loc) (w : World) :
  let w' := snd (Limiter_Allow env limiter w) in
  (forall m, load_map m w' = load_map m w) /\
  length (heap w') = length (heap w) /\
  (forall l, l <> limiter -> heap w' !! l = heap w !! l) /\
  nmux w' = nmux w.
Proof.
  unfold Limiter_Allow, bind, time_Now. simpl.
  destruct (heap w !! limiter) as [lim|] eqn:E; simpl.
  - destruct (Allow _ lim) as [ok lim']. simpl. split; [by intros []|].
    split; [by rewrite length_insert|]. split; [|done].
    intros l Hl. by rewrite list_lookup_insert_ne.
  - split; [by intros []|]. done.
Qed.

Lemma wf_Limiter_Allow (limiter : loc) (w : World) :
  wf w -> wf (snd (Limiter_Allow env limiter w)).
Proof.
  intros [H1 H2]. destruct (Limiter_Allow_frame limiter w) as (Hm & Hl & _).
  split.
  - intros m k l. rewrite Hm, Hl. apply H1.
  - intros m1 m2 k1 k2 l. rewrite !Hm. apply H2.
Qed.

Lemma Allow_times_frame (n : nat) (limiter : loc) (w : World) :
  let w' := snd (Allow_times env n limiter w) in
  (forall m, load_map m w' = load_map m w) /\
  (forall l, l <> limiter -> heap w' !! l = heap w !! l).
Proof.
  revert w. induction n as [|n IH]; intros w; simpl; [done|].
  unfold bind. destruct (Limiter_Allow env limiter w) as [ok w1] eqn:E.
  destruct (Limiter_Allow_frame limiter w) as (Hm & _ & Hh & _).
  rewrite E in Hm, Hh. simpl in Hm, Hh.
  destruct (IH w1) as [IHm IHh]. split.
  - intros m. by rewrite IHm, Hm.
  - intros l Hl. by rewrite IHh, Hh.
Qed.

End Registry.

(** * Properties of the admission middleware *)

Section Middleware.

Context {RL : RateLib} {CL : CidLib} {UL : UrlLib}.
Variable env : Env.

Import GoStrings Regexp.

Lemma log_events_nil (w : World) : log_events [] w = w.
Proof. destruct w. unfold log_events. simpl. by rewrite app_nil_r. Qed.

Lemma log_events_log_events (es1 es2 : list Event) (w : World) :
  log_events es2 (log_events es1 w) = log_events (es1 ++ es2)%list w.
Proof. unfold log_events. simpl. by rewrite app_assoc. Qed.

Lemma log_event_as_events (e : Event) (w : World) : log_event e w = log_events [e] w.
Proof. done. Qed.

Ltac log_norm :=
  rewrite ?log_event_as_events, ?log_events_log_events; simpl.

Lemma events_since_app (w w' : World) (d : list Event) :
  trace w' = (trace w ++ d)%list -> events_since w w' = d.
Proof. intros H. unfold events_since. rewrite H. by rewrite drop_app_length. Qed.

Lemma events_since_log_events (es : list Event) (w : World) :
  events_since w (log_events es w) = es.
Proof. by apply events_since_app. Qed.

(** Every match of the pattern is the whole match followed by a non-empty
    group. *)
Lemma FindStringSubmatch_shape (s : string) (ms : list string) :
  FindStringSubmatch s = Some ms ->
  exists g, g <> EmptyString /\ ms = ["/ipfs/" ++ g; g].
Proof.
  induction s as [|c s IH]; cbn [FindStringSubmatch].
  - by vm_compute.
  - destruct (match_here (String c s)) as [m|] eqn:E; [|by apply IH].
    intros [= <-]. unfold match_here in E.
    destruct (HasPrefix _ _); [|done].
    destruct (span_not_slash _) as [|d g]; [done|].
    injection E as <-. by exists (String d g).
Qed.

(** The token handed to [cid.Parse]: the group of the leftmost match. *)
Lemma parse_resource_run (path : string) (w : World) :
  parse_resource path w =
  match FindStringSubmatch path with
  | None => (Err "Invalid path", log_events [EvFindStringSubmatch path] w)
  | Some ms =>
      let token := default "" (ms !! 1%nat) in
      (match cid_Parse token with
       | None => Err "Invalid hash"
       | Some cid => Ok cid
       end,
       log_events [EvFindStringSubmatch path; EvCidParse token] w)
  end.
Proof.
  unfold parse_resource, bind, emit, ret. simpl.
  destruct (FindStringSubmatch path) as [ms|] eqn:E; [|done].
  destruct (FindStringSubmatch_shape _ _ E) as (g & _ & ->). simpl.
  destruct (cid_Parse g); by log_norm.
Qed.

Lemma parse_resource_events (path : string) (w : World) :
  exists d, snd (parse_resource path w) = log_events d w /\
            Forall (fun e => is_parse_event e = true) d.
Proof.
  rewrite parse_resource_run.
  destruct (FindStringSubmatch path); simpl; eexists; split; try done;
    repeat constructor.
Qed.

Lemma checkDmca_events (hash : string) (cfg : Config) (w : World) :
  exists d, snd (checkDmca env hash cfg w) = log_events (EvCheckDmca hash :: d) w /\
            Forall (fun e => is_client_event e = true) d.
Proof.
  rewrite checkDmca_run. simpl.
  destruct (url_Parse_error _); simpl; [by exists []|].
  destruct (Do env _ _); simpl; log_norm; eexists; (split; [done|]); repeat constructor.
Qed.

Lemma getDedicatedGatewayAccess_events (hash : string) (cfg : Config) (w : World) :
  exists d, snd (getDedicatedGatewayAccess env hash cfg w)
            = log_events (EvGetDedicatedGatewayAccess hash :: d) w /\
            Forall (fun e => is_client_event e = true) d.
Proof.
  rewrite getDedicatedGatewayAccess_run. simpl.
  destruct (url_Parse_error _); simpl; [by exists []|].
  destruct (Do env _ _); simpl; log_norm; eexists; (split; [done|]); repeat constructor.
Qed.

(** From the moderation check on, the two modes differ only in the access
    check. *)
Lemma middleware_from_moderation (next : Handler) (cfg : Config) (r : http.Request)
    (w : World) (cid : Cid) (w1 : World) :
  HasPrefix (http.URL_Path r) "/ipfs/" = true ->
  reaches_moderation env cfg r w cid w1 ->
  DedicatedGatewayMiddleware env next cfg r w =
  match checkDmca env (cid_String cid) cfg w1 with
  | ((status, Some err), w2) => reject err status w2
  | ((_, None), w2) =>
      if DedicatedGateway (ConfigPinningService cfg) then
        match getDedicatedGatewayAccess env (cid_Hash_HexString cid) cfg w2 with
        | ((status, Some err), w3) => reject err status w3
        | ((_, None), w3) => next r w3
        end
      else next r w2
  end.
Proof.
  intros Hp. unfold reaches_moderation, DedicatedGatewayMiddleware.
  rewrite Hp. destruct (DedicatedGateway _); simpl; unfold bind.
  - intros ->. destruct (checkDmca _ _ _ _) as [[status [err|]] w2]; [done|].
    by destruct (getDedicatedGatewayAccess _ _ _ _) as [[status' [err'|]] w3].
  - intros (ipL & wa & wb & wc & cidL & wd & E1 & E2 & E3 & E4 & E5).
    rewrite E1, E2. simpl. rewrite E3, E4, E5. simpl.
    by destruct (checkDmca _ _ _ _) as [[status [err|]] w2].
Qed.

(** C2. In dedicated-gateway mode, once the identifier of a request under
    [/ipfs/] has parsed, the moderation check is the first policy call.
    If it fails the request is rejected with its status and message and
    the access check is not called at all; if it allows, the access check
    is called next, and the request reaches the wrapped handler exactly
    when the access check allows as well. *)
Theorem dedicated_moderation_before_access (next : Handler) (cfg : Config)
    (r : http.Request) (w : World) (cid : Cid) (w1 : World) :
  DedicatedGateway (ConfigPinningService cfg) = true ->
  HasPrefix (http.URL_Path r) "/ipfs/" = true ->
  parse_resource (http.URL_Path r) w = (Ok cid, w1) ->
  Forall (fun e => is_policy_call e = false) (events_since w w1) /\
  match checkDmca env (cid_String cid) cfg w1 with
  | ((status, Some err), w2) =>
      DedicatedGatewayMiddleware env next cfg r w = reject err status w2 /\
      head (events_since w1 w2) = Some (EvCheckDmca (cid_String cid)) /\
      Forall (fun e => is_access_call e = false)
             (events_since w (snd (DedicatedGatewayMiddleware env next cfg r w)))
  | ((_, None), w2) =>
      head (events_since w1 w2) = Some (EvCheckDmca (cid_String cid)) /\
      Forall (fun e => is_access_call e = false) (events_since w w2) /\
      head (events_since w2 (snd (getDedicatedGatewayAccess env (cid_Hash_HexString cid) cfg w2)))
      = Some (EvGetDedicatedGatewayAccess (cid_Hash_HexString cid)) /\
      match getDedicatedGatewayAccess env (cid_Hash_HexString cid) cfg w2 with
      | ((status, Some err), w3) =>
          DedicatedGatewayMiddleware env next cfg r w = reject err status w3
      | ((_, None), w3) =>
          DedicatedGatewayMiddleware env next cfg r w = next r w3
      end
  end.
Proof.
  intros Hd Hp Hparse.
  assert (Hreach : reaches_moderation env cfg r w cid w1).
  { unfold reaches_moderation. by rewrite Hd. }
  rewrite (middleware_from_moderation next cfg r w cid w1 Hp Hreach), Hd.
  destruct (parse_resource_events (http.URL_Path r) w) as (d0 & Ew1 & Hd0).
  rewrite Hparse in Ew1. simpl in Ew1. subst w1.
  rewrite events_since_log_events.
  split.
  { eapply Forall_impl; [exact Hd0|]. by intros []. }
  destruct (checkDmca_events (cid_String cid) cfg (log_events d0 w)) as (d1 & Ew2 & Hd1).
  destruct (checkDmca env _ _ _) as [[status err] w2]. simpl in Ew2. subst w2.
  assert (Hnoacc : Forall (fun e => is_access_call e = false)
                     (d0 ++ EvCheckDmca (cid_String cid) :: d1)%list).
  { apply Forall_app. split.
    - eapply Forall_impl; [exact Hd0|]. by intros [].
    - constructor; [done|]. eapply Forall_impl; [exact Hd1|]. by intros []. }
  rewrite events_since_log_events.
  destruct err as [err|].
  - split; [done|]. split; [done|].
    unfold reject. simpl. log_norm. rewrite events_since_log_events.
    rewrite app_comm_cons, app_assoc.
    apply Forall_app. split; [done|]. by repeat constructor.
  - split; [done|]. log_norm. rewrite events_since_log_events.
    split; [done|].
    destruct (getDedicatedGatewayAccess_events (cid_Hash_HexString cid) cfg
                (log_events (d0 ++ EvCheckDmca (cid_String cid) :: d1) w))
      as (d2 & Ew3 & Hd2).
    destruct (getDedicatedGatewayAccess env _ _ _) as [[status' err'] w3]. simpl in *.
    subst w3. rewrite events_since_log_events. split; [done|].
    by destruct err'.
Qed.

Lemma getLimiter_trace (limit : string) (limitMap : LimitMap) (rps : Z) (w : World) :
  trace (snd (getLimiter limit limitMap rps w))
  = (trace w ++ [EvGetLimiter limit limitMap rps])%list.
Proof.
  rewrite getLimiter_run. simpl.
  destruct (load_map limitMap w !! limit); simpl; [done|].
  by rewrite trace_store_map.
Qed.

Lemma Limiter_Allow_trace (limiter : loc) (w : World) :
  (limiter < length (heap w))%nat ->
  trace (snd (Limiter_Allow env limiter w))
  = (trace w ++ [EvAllow limiter (fst (Limiter_Allow env limiter w))])%list.
Proof.
  intros Hl. destruct (lookup_lt_is_Some_2 _ _ Hl) as [lim Hlim].
  by rewrite (Limiter_Allow_run env limiter lim w Hlim).
Qed.

Lemma wf_log_events (es : list Event) (w : World) : wf w -> wf (log_events es w).
Proof.
  intros [H1 H2]. split.
  - intros m k l H. apply (H1 m k l). by destruct m.
  - intros m1 m2 k1 k2 l Ha Hb. apply (H2 m1 m2 k1 k2 l); [by destruct m1 | by destruct m2].
Qed.

(** One lookup in a pool followed by [Allow]: the two calls it makes, and
    the state it leaves. *)
Lemma limiter_stage (limit : string) (limitMap : LimitMap) (rps : Z) (w : World) :
  wf w ->
  match getLimiter limit limitMap rps w with
  | (l, wa) =>
      match Limiter_Allow env l wa with
      | (ok, wb) =>
          wf wb /\
          trace wb = (trace w ++ [EvGetLimiter limit limitMap rps; EvAllow l ok])%list
      end
  end.
Proof.
  intros Hwf.
  pose proof (wf_getLimiter limit limitMap rps w Hwf) as Hwa.
  pose proof (getLimiter_allocated limit limitMap rps w Hwf) as Hl.
  pose proof (getLimiter_trace limit limitMap rps w) as Ht.
  destruct (getLimiter limit limitMap rps w) as [l wa]. simpl in *.
  pose proof (wf_Limiter_Allow env l wa Hwa) as Hwb.
  pose proof (Limiter_Allow_trace l wa Hl) as Ht2.
  destruct (Limiter_Allow env l wa) as [ok wb]. simpl in *.
  split; [done|]. rewrite Ht2, Ht. by rewrite <- app_assoc.
Qed.

(** C1. In open mode, a request under [/ipfs/] goes through four checks in
    a fixed order and stops at the first that fails: the limiter of the
    client address (429, and then the only calls made are the lookup, the
    [Allow] and the [http.Error]), the extraction and parsing of the
    identifier (400), the limiter of the canonical identifier (429), the
    moderation check (its status and message); the wrapped handler runs
    only when all four pass.  The access check is not called on any of
    these paths. *)
Theorem open_mode_check_order (next : Handler) (cfg : Config) (r : http.Request)
    (w : World) :
  wf w ->
  DedicatedGateway (ConfigPinningService cfg) = false ->
  HasPrefix (http.URL_Path r) "/ipfs/" = true ->
  let run := DedicatedGatewayMiddleware env next cfg r w in
  match getLimiter (http.RemoteAddr r) IpLimiters 100 w with
  | (ipL, wa) =>
  match Limiter_Allow env ipL wa with
  | (false, wb) =>
      run = reject "Too many requests from this IP" http.StatusTooManyRequests wb /\
      events_since w (snd run)
      = [EvGetLimiter (http.RemoteAddr r) IpLimiters 100; EvAllow ipL false;
         EvHttpError "Too many requests from this IP" 429]
  | (true, wb) =>
      events_since w wb = [EvGetLimiter (http.RemoteAddr r) IpLimiters 100; EvAllow ipL true] /\
      match parse_resource (http.URL_Path r) wb with
      | (Err msg, wc) =>
          run = reject msg http.StatusBadRequest wc /\
          Forall (fun e => is_parse_event e = true) (events_since wb wc)
      | (Ok cid, wc) =>
          Forall (fun e => is_parse_event e = true) (events_since wb wc) /\
          match getLimiter (cid_String cid) CidLimiters 15 wc with
          | (cidL, wd) =>
          match Limiter_Allow env cidL wd with
          | (false, we) =>
              run = reject "Too many requests for this CID" http.StatusTooManyRequests we /\
              events_since wc we
              = [EvGetLimiter (cid_String cid) CidLimiters 15; EvAllow cidL false]
          | (true, we) =>
              events_since wc we
              = [EvGetLimiter (cid_String cid) CidLimiters 15; EvAllow cidL true] /\
              match checkDmca env (cid_String cid) cfg we with
              | ((status, Some err), wm) =>
                  run = reject err status wm /\
                  head (events_since we wm) = Some (EvCheckDmca (cid_String cid)) /\
                  Forall (fun e => is_access_call e = false) (events_since w (snd run))
              | ((_, None), wm) =>
                  run = next r wm /\
                  head (events_since we wm) = Some (EvCheckDmca (cid_String cid)) /\
                  Forall (fun e => is_access_call e = false) (events_since w wm)
              end
          end
          end
      end
  end
  end.
Proof.
  intros Hwf Hd Hp run. subst run.
  unfold DedicatedGatewayMiddleware. rewrite Hd, Hp. simpl. unfold bind.
  pose proof (limiter_stage (http.RemoteAddr r) IpLimiters 100 w Hwf) as H1.
  destruct (getLimiter (http.RemoteAddr r) IpLimiters 100 w) as [ipL wa].
  destruct (Limiter_Allow env ipL wa) as [[|] wb]; destruct H1 as [Hwb Tb]; simpl.
  2:{ split; [done|]. apply events_since_app. simpl. rewrite Tb.
      by rewrite <- app_assoc. }
  split; [by apply events_since_app|].
  destruct (parse_resource_events (http.URL_Path r) wb) as (d & Ewc & Hd0).
  destruct (parse_resource (http.URL_Path r) wb) as [[cid|msg] wc];
    simpl in Ewc; subst wc; rewrite events_since_log_events.
  2:{ by split. }
  split; [done|].
  pose proof (limiter_stage (cid_String cid) CidLimiters 15 (log_events d wb)
                (wf_log_events d wb Hwb)) as H2.
  destruct (getLimiter (cid_String cid) CidLimiters 15 (log_events d wb)) as [cidL wd].
  destruct (Limiter_Allow env cidL wd) as [[|] we]; destruct H2 as [Hwe Te]; simpl.
  2:{ split; [done|]. by apply events_since_app. }
  split; [by apply events_since_app|].
  destruct (checkDmca_events (cid_String cid) cfg we) as (d1 & Ewm & Hd1).
  assert (Tm : trace (log_events (EvCheckDmca (cid_String cid) :: d1) we)
               = (trace w ++ ([EvGetLimiter (http.RemoteAddr r) IpLimiters 100; EvAllow ipL true]
                     ++ d ++ [EvGetLimiter (cid_String cid) CidLimiters 15; EvAllow cidL true]
                     ++ EvCheckDmca (cid_String cid) :: d1))%list).
  { simpl. rewrite Te. simpl. rewrite Tb. by rewrite <- !app_assoc. }
  assert (Hnoacc : Forall (fun e => is_access_call e = false)
            ([EvGetLimiter (http.RemoteAddr r) IpLimiters 100; EvAllow ipL true]
               ++ d ++ [EvGetLimiter (cid_String cid) CidLimiters 15; EvAllow cidL true]
               ++ EvCheckDmca (cid_String cid) :: d1)%list).
  { repeat (constructor; [done|]). apply Forall_app. split.
    - eapply Forall_impl; [exact Hd0|]. by intros [].
    - repeat (constructor; [done|]). eapply Forall_impl; [exact Hd1|]. by intros []. }
  destruct (checkDmca env (cid_String cid) cfg we) as [[status [err|]] wm];
    simpl in Ewm; subst wm; rewrite events_since_log_events.
  - split; [done|]. split; [done|].
    rewrite (events_since_app w _
               (([EvGetLimiter (http.RemoteAddr r) IpLimiters 100; EvAllow ipL true]
                   ++ d ++ [EvGetLimiter (cid_String cid) CidLimiters 15; EvAllow cidL true]
                   ++ EvCheckDmca (cid_String cid) :: d1) ++ [EvHttpError err status])%list).
    + apply Forall_app. split; [done|]. by repeat constructor.
    + unfold http_Error, emit. cbn [snd log_event trace]. rewrite Tm.
      by rewrite <- app_assoc.
  - split; [done|]. split; [done|]. by rewrite (events_since_app _ _ _ Tm).
Qed.

(** C4. Whenever the outbound call of the moderation check is answered
    with status 410, the check returns 410 with the takedown message and
    the middleware rejects the request with exactly that status and
    message, in dedicated-gateway mode and in open mode alike. *)
Theorem moderation_gone_rejects_410 (next : Handler) (cfg : Config) (r : http.Request)
    (w : World) (cid : Cid) (w1 : World) (resp : http.Response) :
  HasPrefix (http.URL_Path r) "/ipfs/" = true ->
  reaches_moderation env cfg r w cid w1 ->
  url_Parse_error (dmca_url cfg (cid_String cid)) = None ->
  Do env (15 * time.Second) (api_request cfg (dmca_url cfg (cid_String cid))) = Some resp ->
  http.StatusCode resp = 410 ->
  fst (checkDmca env (cid_String cid) cfg w1) = (http.StatusGone, Some dmca_gone_msg) /\
  DedicatedGatewayMiddleware env next cfg r w
  = reject dmca_gone_msg http.StatusGone (snd (checkDmca env (cid_String cid) cfg w1)).
Proof.
  intros Hp Hreach Hurl Hdo Hst.
  rewrite (middleware_from_moderation next cfg r w cid w1 Hp Hreach).
  rewrite checkDmca_run. simpl. rewrite Hurl, Hdo, Hst. by simpl.
Qed.

(** C5. Both checks fail closed.  When the outbound call of a check
    obtains no response, the check returns 500 with its call-failure
    message after that single call, and the middleware rejects the request
    with them instead of handing it over; and a check returns no error
    only when the remote answered 200. *)
Theorem policy_checks_fail_closed (next : Handler) (cfg : Config) (r : http.Request)
    (w : World) (cid : Cid) (w1 : World) :
  HasPrefix (http.URL_Path r) "/ipfs/" = true ->
  reaches_moderation env cfg r w cid w1 ->
  (url_Parse_error (dmca_url cfg (cid_String cid)) = None ->
   Do env (15 * time.Second) (api_request cfg (dmca_url cfg (cid_String cid))) = None ->
   let w2 := log_events [EvCheckDmca (cid_String cid);
                         EvClientDo (15 * time.Second)
                           (api_request cfg (dmca_url cfg (cid_String cid)))] w1 in
   checkDmca env (cid_String cid) cfg w1
   = ((http.StatusInternalServerError, Some dmca_call_failed_msg), w2) /\
   DedicatedGatewayMiddleware env next cfg r w
   = reject dmca_call_failed_msg http.StatusInternalServerError w2) /\
  (forall status w2,
   DedicatedGateway (ConfigPinningService cfg) = true ->
   checkDmca env (cid_String cid) cfg w1 = ((status, None), w2) ->
   url_Parse_error (access_url cfg (cid_Hash_HexString cid)) = None ->
   Do env (15 * time.Second) (api_request cfg (access_url cfg (cid_Hash_HexString cid))) = None ->
   let w3 := log_events [EvGetDedicatedGatewayAccess (cid_Hash_HexString cid);
                         EvClientDo (15 * time.Second)
                           (api_request cfg (access_url cfg (cid_Hash_HexString cid)))] w2 in
   getDedicatedGatewayAccess env (cid_Hash_HexString cid) cfg w2
   = ((http.StatusInternalServerError, Some access_call_failed_msg), w3) /\
   DedicatedGatewayMiddleware env next cfg r w
   = reject access_call_failed_msg http.StatusInternalServerError w3) /\
  (forall hash w0,
   snd (fst (checkDmca env hash cfg w0)) = None <->
   exists resp,
     url_Parse_error (dmca_url cfg hash) = None /\
     Do env (15 * time.Second) (api_request cfg (dmca_url cfg hash)) = Some resp /\
     http.StatusCode resp = 200) /\
  (forall hash w0,
   snd (fst (getDedicatedGatewayAccess env hash cfg w0)) = None <->
   exists resp,
     url_Parse_error (access_url cfg hash) = None /\
     Do env (15 * time.Second) (api_request cfg (access_url cfg hash)) = Some resp /\
     http.StatusCode resp = 200).
Proof.
  intros Hp Hreach.
  rewrite (middleware_from_moderation next cfg r w cid w1 Hp Hreach).
  split; [|split; [|split; split]].
  - intros Hu Hdo w2. subst w2. rewrite checkDmca_run. simpl. rewrite Hu, Hdo.
    log_norm. by split.
  - intros status w2 Hd Hm Hu Hdo w3. subst w3. rewrite Hm, Hd.
    rewrite getDedicatedGatewayAccess_run. simpl. rewrite Hu, Hdo.
    log_norm. by split.
  - rewrite checkDmca_run. simpl.
    destruct (url_Parse_error _); [done|].
    destruct (Do env _ _) as [resp|]; [|done]. simpl.
    destruct (http.StatusCode resp =? 410) eqn:E1; [done|].
    destruct (http.StatusCode resp =? 200) eqn:E2; [|done].
    intros _. exists resp. repeat split. by apply Z.eqb_eq.
  - intros (resp & Hu & Hdo & Hst). rewrite checkDmca_run. simpl.
    rewrite Hu, Hdo, Hst. by simpl.
  - rewrite getDedicatedGatewayAccess_run. simpl.
    destruct (url_Parse_error _); [done|].
    destruct (Do env _ _) as [resp|]; [|done]. simpl.
    destruct (http.StatusCode resp =? 200) eqn:E2; [|done].
    intros _. exists resp. repeat split. by apply Z.eqb_eq.
  - intros (resp & Hu & Hdo & Hst). rewrite getDedicatedGatewayAccess_run. simpl.
    rewrite Hu, Hdo, Hst. by simpl.
Qed.

(** C3, as the code has it.  When the remote answers the moderation check
    with a status that is neither 200 nor 410, the check denies with the
    remote's status and the fixed message [Something went wrong]; when the
    remote answers the access check with a status other than 200, the
    check denies with the remote's status and the fixed message
    [No users have subscribed to this hash yet.].  Neither reads the body
    of the answer. *)
Theorem not_ok_status_fixed_messages (hash : string) (cfg : Config) (w : World) :
  (forall resp,
     url_Parse_error (dmca_url cfg hash) = None ->
     Do env (15 * time.Second) (api_request cfg (dmca_url cfg hash)) = Some resp ->
     http.StatusCode resp <> 200 -> http.StatusCode resp <> 410 ->
     fst (checkDmca env hash cfg w) = (http.StatusCode resp, Some "Something went wrong")) /\
  (forall resp,
     url_Parse_error (access_url cfg hash) = None ->
     Do env (15 * time.Second) (api_request cfg (access_url cfg hash)) = Some resp ->
     http.StatusCode resp <> 200 ->
     fst (getDedicatedGatewayAccess env hash cfg w)
     = (http.StatusCode resp, Some "No users have subscribed to this hash yet.")).
Proof.
  split.
  - intros resp Hu Hdo H200 H410. rewrite checkDmca_run. simpl. rewrite Hu, Hdo. simpl.
    destruct (Z.eqb_spec (http.StatusCode resp) 410); [done|].
    by destruct (Z.eqb_spec (http.StatusCode resp) 200).
  - intros resp Hu Hdo H200. rewrite getDedicatedGatewayAccess_run. simpl.
    rewrite Hu, Hdo. simpl.
    by destruct (Z.eqb_spec (http.StatusCode resp) 200).
Qed.

Lemma parse_resource_messages (path : string) (w : World) (msg : string) (w1 : World) :
  parse_resource path w = (Err msg, w1) -> msg = "Invalid path" \/ msg = "Invalid hash".
Proof.
  rewrite parse_resource_run.
  destruct (FindStringSubmatch path) as [ms|]; simpl.
  - destruct (cid_Parse _); [done|]. intros [= <- _]. by right.
  - intros [= <- _]. by left.
Qed.

(** What a failing moderation check returns: 500 with one of its two own
    messages, or the status of the remote answer to the call it made. *)
Lemma checkDmca_denials (hash : string) (cfg : Config) (w : World)
    (status : Z) (err : string) (w2 : World) :
  checkDmca env hash cfg w = ((status, Some err), w2) ->
  (status = 500 /\
   (err = dmca_call_failed_msg \/ exists e, err = "failed to create request: " ++ e)) \/
  (exists resp,
     Do env (15 * time.Second) (api_request cfg (dmca_url cfg hash)) = Some resp /\
     http.StatusCode resp = status /\
     (err = dmca_gone_msg \/ err = dmca_denied_msg) /\
     In (EvClientDo (15 * time.Second) (api_request cfg (dmca_url cfg hash)))
        (events_since w w2)).
Proof.
  rewrite checkDmca_run. simpl.
  destruct (url_Parse_error _) as [e|].
  { intros [= <- <- _]. left. split; [done|]. right. by exists e. }
  destruct (Do env _ _) as [resp|]; simpl.
  2:{ intros [= <- <- _]. left. split; [done|]. by left. }
  assert (In (EvClientDo (15 * time.Second) (api_request cfg (dmca_url cfg hash)))
             (events_since w
                (log_event EvBodyClose
                   (log_event (EvClientDo (15 * time.Second)
                                 (api_request cfg (dmca_url cfg hash)))
                      (log_event (EvCheckDmca hash) w))))) as Hin.
  { log_norm. rewrite events_since_log_events. right. by left. }
  destruct (Z.eqb_spec (http.StatusCode resp) 410) as [E|_].
  { intros [= <- <- <-]. right. exists resp. split; [done|]. split; [done|].
    split; [by left | done]. }
  destruct (Z.eqb_spec (http.StatusCode resp) 200); [done|].
  intros [= <- <- <-]. right. exists resp. split; [done|]. split; [done|].
  split; [by right | done].
Qed.

Lemma getDedicatedGatewayAccess_denials (hash : string) (cfg : Config) (w : World)
    (status : Z) (err : string) (w2 : World) :
  getDedicatedGatewayAccess env hash cfg w = ((status, Some err), w2) ->
  (status = 500 /\
   (err = access_call_failed_msg \/ exists e, err = "failed to create request: " ++ e)) \/
  (exists resp,
     Do env (15 * time.Second) (api_request cfg (access_url cfg hash)) = Some resp /\
     http.StatusCode resp = status /\ err = access_denied_msg /\
     In (EvClientDo (15 * time.Second) (api_request cfg (access_url cfg hash)))
        (events_since w w2)).
Proof.
  rewrite getDedicatedGatewayAccess_run. simpl.
  destruct (url_Parse_error _) as [e|].
  { intros [= <- <- _]. left. split; [done|]. right. by exists e. }
  destruct (Do env _ _) as [resp|]; simpl.
  2:{ intros [= <- <- _]. left. split; [done|]. by left. }
  destruct (Z.eqb_spec (http.StatusCode resp) 200); [done|].
  intros [= <- <- <-]. right. exists resp. split; [done|]. split; [done|].
  split; [done|]. log_norm. rewrite events_since_log_events. right. by left.
Qed.

Lemma not_limiter_of_parse (d : list Event) :
  Forall (fun e => is_parse_event e = true) d ->
  Forall (fun e => is_limiter_event e = false) d.
Proof. intros H. eapply Forall_impl; [exact H|]. by intros []. Qed.

Lemma not_limiter_of_client (d : list Event) :
  Forall (fun e => is_client_event e = true) d ->
  Forall (fun e => is_limiter_event e = false) d.
Proof. intros H. eapply Forall_impl; [exact H|]. by intros []. Qed.

(** The run of the middleware in dedicated-gateway mode: it only appends
    calls to the trace, none of them to the limiter registry. *)
Lemma dedicated_outcome (next : Handler) (cfg : Config) (r : http.Request) (w : World) :
  DedicatedGateway (ConfigPinningService cfg) = true ->
  exists o d,
    DedicatedGatewayMiddleware env next cfg r w = finish next r o (log_events d w) /\
    Forall (fun e => is_limiter_event e = false) d /\
    forall msg code, o = Reject msg code ->
      msg <> "Too many requests from this IP" /\
      msg <> "Too many requests for this CID" /\
      (code = 429 ->
       exists cid req resp,
         fst (parse_resource (http.URL_Path r) w) = Ok cid /\
         (req = api_request cfg (dmca_url cfg (cid_String cid)) \/
          req = api_request cfg (access_url cfg (cid_Hash_HexString cid))) /\
         In (EvClientDo (15 * time.Second) req) d /\
         Do env (15 * time.Second) req = Some resp /\ http.StatusCode resp = 429).
Proof.
  intros Hd.
  pose proof (fun (P : Prop) (H : http.StatusBadRequest = 429) =>
                ltac:(discriminate H) : P) as H400.
  pose proof (fun (P : Prop) (H : 500 = 429) => ltac:(discriminate H) : P) as H500.
  assert (Hmsg : forall e : string,
             "failed to create request: " ++ e <> "Too many requests from this IP" /\
             "failed to create request: " ++ e <> "Too many requests for this CID").
  { intros e. rewrite append_String. split; intros H; discriminate H. }
  destruct (HasPrefix (http.URL_Path r) "/ipfs/") eqn:Hp.
  2:{ exists Forward, []. rewrite log_events_nil.
      unfold DedicatedGatewayMiddleware. rewrite Hd, Hp. by simpl. }
  destruct (parse_resource_events (http.URL_Path r) w) as (d0 & Ew1 & Hd0).
  destruct (parse_resource (http.URL_Path r) w) as [[cid|msg] w1] eqn:Eparse;
    simpl in Ew1; subst w1.
  2:{ exists (Reject msg http.StatusBadRequest), d0.
      split; [|split; [by apply not_limiter_of_parse|]].
      - unfold DedicatedGatewayMiddleware. rewrite Hd, Hp. simpl. unfold bind.
        by rewrite Eparse.
      - intros ? ? [= <- <-].
        destruct (parse_resource_messages _ _ _ _ Eparse) as [-> | ->];
          (split; [|split]); (intros H; discriminate H) || apply H400. }
  assert (Hreach : reaches_moderation env cfg r w cid (log_events d0 w)).
  { unfold reaches_moderation. by rewrite Hd. }
  rewrite (middleware_from_moderation next cfg r w cid _ Hp Hreach), Hd.
  destruct (checkDmca_events (cid_String cid) cfg (log_events d0 w)) as (d1 & Ew2 & Hd1).
  destruct (checkDmca env (cid_String cid) cfg (log_events d0 w))
    as [[status [err|]] w2] eqn:Edmca; simpl in Ew2; subst w2;
    rewrite log_events_log_events.
  { exists (Reject err status), (d0 ++ EvCheckDmca (cid_String cid) :: d1)%list.
    split; [done|]. split.
    { apply Forall_app. split; [by apply not_limiter_of_parse|].
      constructor; [done|]. by apply not_limiter_of_client. }
    intros ? ? [= <- <-].
    destruct (checkDmca_denials _ _ _ _ _ _ Edmca)
      as [[-> [-> | [e ->]]] | (resp & Hdo & Hst & Herr & Hin)].
    - (split; [|split]); (intros H; discriminate H) || apply H500.
    - destruct (Hmsg e). (split; [|split]); done || apply H500.
    - rewrite events_since_log_events in Hin.
      split; [by destruct Herr as [-> | ->]; intros H; discriminate H|].
      split; [by destruct Herr as [-> | ->]; intros H; discriminate H|].
      intros ->. exists cid, (api_request cfg (dmca_url cfg (cid_String cid))), resp.
      split; [done|]. split; [by left|].
      split; [apply in_or_app; by right | done]. }
  destruct (getDedicatedGatewayAccess_events (cid_Hash_HexString cid) cfg
              (log_events (d0 ++ EvCheckDmca (cid_String cid) :: d1) w))
    as (d2 & Ew3 & Hd2).
  destruct (getDedicatedGatewayAccess env (cid_Hash_HexString cid) cfg _)
    as [[status' [err'|]] w3] eqn:Eacc; simpl in Ew3; subst w3;
    rewrite log_events_log_events.
  - exists (Reject err' status'). eexists. split; [done|]. split.
    { apply Forall_app. split.
      - apply Forall_app. split; [by apply not_limiter_of_parse|].
        constructor; [done|]. by apply not_limiter_of_client.
      - constructor; [done|]. by apply not_limiter_of_client. }
    intros ? ? [= <- <-].
    destruct (getDedicatedGatewayAccess_denials _ _ _ _ _ _ Eacc)
      as [[-> [-> | [e ->]]] | (resp & Hdo & Hst & -> & Hin)].
    + (split; [|split]); (intros H; discriminate H) || apply H500.
    + destruct (Hmsg e). (split; [|split]); done || apply H500.
    + rewrite events_since_log_events in Hin.
      (split; [|split]); try (intros H; discriminate H).
      intros ->. exists cid, (api_request cfg (access_url cfg (cid_Hash_HexString cid))), resp.
      split; [done|]. split; [by right|].
      split; [apply in_or_app; by right | done].
  - exists Forward. eexists. split; [done|]. split; [|done].
    apply Forall_app. split.
    + apply Forall_app. split; [by apply not_limiter_of_parse|].
      constructor; [done|]. by apply not_limiter_of_client.
    + constructor; [done|]. by apply not_limiter_of_client.
Qed.

(** C10, as the code has it.  In dedicated-gateway mode the middleware
    never touches the limiter registry: up to the point where it rejects or
    hands the request over, both maps and the store of limiters are what
    they were and no lookup and no [Allow] was made.  A rejection never
    carries one of the two rate-limit messages, and its status is 429 only
    when the moderation or the access service itself answered 429: the
    run made the call of that check for the identifier parsed from the
    path, and the answer to that call has status 429. *)
Theorem dedicated_mode_leaves_limiters_alone (next : Handler) (cfg : Config)
    (r : http.Request) (w : World) :
  DedicatedGateway (ConfigPinningService cfg) = true ->
  exists o w',
    DedicatedGatewayMiddleware env next cfg r w = finish next r o w' /\
    ipLimiters w' = ipLimiters w /\ cidLimiters w' = cidLimiters w /\ heap w' = heap w /\
    Forall (fun e => is_limiter_event e = false) (events_since w w') /\
    forall msg code, o = Reject msg code ->
      msg <> "Too many requests from this IP" /\
      msg <> "Too many requests for this CID" /\
      (code = 429 ->
       exists cid req resp,
         fst (parse_resource (http.URL_Path r) w) = Ok cid /\
         (req = api_request cfg (dmca_url cfg (cid_String cid)) \/
          req = api_request cfg (access_url cfg (cid_Hash_HexString cid))) /\
         In (EvClientDo (15 * time.Second) req) (events_since w w') /\
         Do env (15 * time.Second) req = Some resp /\ http.StatusCode resp = 429).
Proof.
  intros Hd.
  destruct (dedicated_outcome next cfg r w Hd) as (o & d & Hrun & Hd0 & Hrej).
  exists o, (log_events d w). rewrite events_since_log_events.
  do 5 (split; [done|]). exact Hrej.
Qed.

Lemma passes_pool_burst_other (d : list Event) :
  Forall (fun e => is_limiter_event e = false) d -> Forall passes_pool_burst d.
Proof.
  intros H. eapply Forall_impl; [exact H|].
  intros e He limit limitMap rps ->. done.
Qed.

(** Every run of the middleware, in either mode, keeps the registry well
    formed and looks limiters up with the burst of their pool. *)
Lemma middleware_outcome (next : Handler) (cfg : Config) (r : http.Request) (w : World) :
  wf w ->
  exists o w',
    DedicatedGatewayMiddleware env next cfg r w = finish next r o w' /\
    wf w' /\
    Forall passes_pool_burst (events_since w w').
Proof.
  intros Hwf.
  destruct (DedicatedGateway (ConfigPinningService cfg)) eqn:Hd.
  { destruct (dedicated_outcome next cfg r w Hd) as (o & d & Hrun & Hd0 & _).
    exists o, (log_events d w). rewrite events_since_log_events.
    split; [done|]. split; [by apply wf_log_events|].
    by apply passes_pool_burst_other. }
  destruct (HasPrefix (http.URL_Path r) "/ipfs/") eqn:Hp.
  2:{ exists Forward, w. split.
      - unfold DedicatedGatewayMiddleware. rewrite Hd, Hp. by simpl.
      - split; [done|]. unfold events_since. by rewrite drop_all. }
  unfold DedicatedGatewayMiddleware. rewrite Hd, Hp. simpl. unfold bind.
  pose proof (limiter_stage (http.RemoteAddr r) IpLimiters 100 w Hwf) as H1.
  destruct (getLimiter (http.RemoteAddr r) IpLimiters 100 w) as [ipL wa].
  destruct (Limiter_Allow env ipL wa) as [ip_ok wb]; destruct H1 as [Hwb Tb].
  assert (Hip : Forall passes_pool_burst
                  [EvGetLimiter (http.RemoteAddr r) IpLimiters 100; EvAllow ipL ip_ok]).
  { repeat constructor; by intros ? ? ? [= <- <- <-]. }
  destruct ip_ok; simpl.
  2:{ exists (Reject "Too many requests from this IP" http.StatusTooManyRequests), wb.
      split; [done|]. split; [done|]. by rewrite (events_since_app _ _ _ Tb). }
  destruct (parse_resource_events (http.URL_Path r) wb) as (d & Ewc & Hd0).
  assert (Hparse : Forall passes_pool_burst
            ([EvGetLimiter (http.RemoteAddr r) IpLimiters 100; EvAllow ipL true] ++ d)%list).
  { apply Forall_app. split; [done|].
    by apply passes_pool_burst_other, not_limiter_of_parse. }
  assert (Tc : trace (log_events d wb)
               = (trace w ++ [EvGetLimiter (http.RemoteAddr r) IpLimiters 100;
                              EvAllow ipL true] ++ d)%list).
  { simpl. rewrite Tb. by rewrite <- app_assoc. }
  destruct (parse_resource (http.URL_Path r) wb) as [[cid|msg] wc];
    simpl in Ewc; subst wc.
  2:{ exists (Reject msg http.StatusBadRequest), (log_events d wb).
      split; [done|]. split; [by apply wf_log_events|].
      by rewrite (events_since_app _ _ _ Tc). }
  pose proof (limiter_stage (cid_String cid) CidLimiters 15 (log_events d wb)
                (wf_log_events d wb Hwb)) as H2.
  destruct (getLimiter (cid_String cid) CidLimiters 15 (log_events d wb)) as [cidL wd].
  destruct (Limiter_Allow env cidL wd) as [cid_ok we]; destruct H2 as [Hwe Te].
  rewrite Tc in Te. rewrite <- app_assoc in Te.
  assert (Hcid : Forall passes_pool_burst
            (([EvGetLimiter (http.RemoteAddr r) IpLimiters 100; EvAllow ipL true] ++ d)
               ++ [EvGetLimiter (cid_String cid) CidLimiters 15; EvAllow cidL cid_ok])%list).
  { apply Forall_app. split; [done|].
    repeat constructor; by intros ? ? ? [= <- <- <-]. }
  destruct cid_ok; simpl.
  2:{ exists (Reject "Too many requests for this CID" http.StatusTooManyRequests), we.
      split; [done|]. split; [done|]. by rewrite (events_since_app _ _ _ Te). }
  destruct (checkDmca_events (cid_String cid) cfg we) as (d1 & Ewm & Hd1).
  assert (Tm : trace (log_events (EvCheckDmca (cid_String cid) :: d1) we)
               = (trace w ++ ((([EvGetLimiter (http.RemoteAddr r) IpLimiters 100;
                                 EvAllow ipL true] ++ d)
                     ++ [EvGetLimiter (cid_String cid) CidLimiters 15; EvAllow cidL true])
                     ++ EvCheckDmca (cid_String cid) :: d1))%list).
  { simpl. rewrite Te. by rewrite <- app_assoc. }
  assert (Hm : Forall passes_pool_burst
            ((([EvGetLimiter (http.RemoteAddr r) IpLimiters 100; EvAllow ipL true] ++ d)
                ++ [EvGetLimiter (cid_String cid) CidLimiters 15; EvAllow cidL true])
               ++ EvCheckDmca (cid_String cid) :: d1)%list).
  { apply Forall_app. split; [done|]. apply passes_pool_burst_other.
    constructor; [done|]. by apply not_limiter_of_client. }
  destruct (checkDmca env (cid_String cid) cfg we) as [[status [err|]] wm];
    simpl in Ewm; subst wm.
  - exists (Reject err status), (log_events (EvCheckDmca (cid_String cid) :: d1) we).
    split; [done|]. split; [by apply wf_log_events|].
    by rewrite (events_since_app _ _ _ Tm).
  - exists Forward, (log_events (EvCheckDmca (cid_String cid) :: d1) we).
    split; [done|]. split; [by apply wf_log_events|].
    by rewrite (events_since_app _ _ _ Tm).
Qed.

(** C6. [getLimiter] returns the limiter its map stores for the key.  It
    creates one, a new limiter refilled once per minute with the burst it
    was given, and inserts it exactly when the key is absent; otherwise
    map and limiters stay as they are, and the other map is never touched.
    Limiters of two distinct keys are distinct objects, so any number of
    [Allow] on one leaves the other as it was.  The middleware looks
    limiters up with burst 100 in the map of client addresses and burst 15
    in the map of identifiers, whatever the request. *)
Theorem getLimiter_registry (limit : string) (limitMap : LimitMap) (rps : Z) (w : World) :
  wf w ->
  let l := fst (getLimiter limit limitMap rps w) in
  let w' := snd (getLimiter limit limitMap rps w) in
  load_map limitMap w' !! limit = Some l /\
  match load_map limitMap w !! limit with
  | Some l0 =>
      l = l0 /\ load_map limitMap w' = load_map limitMap w /\ heap w' = heap w
  | None =>
      l = length (heap w) /\
      load_map limitMap w' = <[limit := l]> (load_map limitMap w) /\
      heap w' = (heap w ++ [NewLimiter (rate.Every time.Minute) rps])%list
  end /\
  (forall m, m <> limitMap -> load_map m w' = load_map m w) /\
  wf w' /\
  (forall other l2,
     other <> limit -> load_map limitMap w' !! other = Some l2 ->
     l2 <> l /\
     forall n, heap (snd (Allow_times env n l w')) !! l2 = heap w' !! l2) /\
  (forall next cfg r,
     exists o w'',
       DedicatedGatewayMiddleware env next cfg r w = finish next r o w'' /\
       wf w'' /\
       Forall passes_pool_burst (events_since w w'')) /\
  pool_burst IpLimiters = 100 /\ pool_burst CidLimiters = 15.
Proof.
  intros Hwf l w'.
  pose proof (wf_getLimiter limit limitMap rps w Hwf) as Hwf'.
  assert (Hstored : load_map limitMap w' !! limit = Some l).
  { subst l w'. rewrite getLimiter_run. simpl.
    destruct (load_map limitMap w !! limit) as [l0|] eqn:E; simpl.
    - by rewrite load_log_event.
    - by rewrite load_store_eq, lookup_insert_eq. }
  split; [done|]. split.
  { subst l w'. rewrite getLimiter_run. simpl.
    destruct (load_map limitMap w !! limit) as [l0|] eqn:E; simpl.
    - by rewrite load_log_event.
    - by rewrite load_store_eq, heap_store_map. }
  split.
  { intros m Hm. subst w'. rewrite getLimiter_run. simpl.
    destruct (load_map limitMap w !! limit) as [l0|] eqn:E; simpl.
    - by rewrite load_log_event.
    - rewrite load_store_ne by done. by rewrite load_set_heap, load_log_event. }
  split; [done|]. split.
  { intros other l2 Hne Hl2.
    assert (Hdiff : l2 <> l).
    { intros ->. destruct Hwf' as [_ H2].
      destruct (H2 limitMap limitMap other limit l Hl2 Hstored) as [_ ?]. done. }
    split; [done|]. intros n.
    by apply (Allow_times_frame env n l w'). }
  split; [|done].
  intros next cfg r. by apply middleware_outcome.
Qed.

(** From the extraction on, a token that cannot be extracted or parsed is
    answered with 400 in both modes. *)
Lemma middleware_parse_error (next : Handler) (cfg : Config) (r : http.Request)
    (w w0 : World) (msg : string) (w1 : World) :
  HasPrefix (http.URL_Path r) "/ipfs/" = true ->
  reaches_extraction env cfg r w w0 ->
  parse_resource (http.URL_Path r) w0 = (Err msg, w1) ->
  DedicatedGatewayMiddleware env next cfg r w = reject msg http.StatusBadRequest w1.
Proof.
  intros Hp. unfold reaches_extraction, DedicatedGatewayMiddleware.
  rewrite Hp. destruct (DedicatedGateway _); simpl; unfold bind.
  - intros -> E. by rewrite E.
  - intros (ipL & wa & E1 & E2) E. rewrite E1, E2. simpl. by rewrite E.
Qed.

(** C7, as the code has it.  Take a request whose path is [/ipfs/]
    followed by [rest], at the point where the middleware extracts the
    resource token (in open mode, once the limiter of the client address
    has allowed).  When a non-empty segment follows the prefix, the token
    handed to [cid.Parse] is that segment: the bytes of [rest] up to the
    next '/' or the end; and when it does not parse, the request is
    rejected with 400 [Invalid hash].  When no segment follows and the
    pattern matches nowhere in [rest] (as for the path [/ipfs/]), the
    request is rejected with 400 [Invalid path]. *)
Theorem resource_token_extraction (next : Handler) (cfg : Config) (r : http.Request)
    (w w0 : World) (rest : string) :
  http.URL_Path r = "/ipfs/" ++ rest ->
  reaches_extraction env cfg r w w0 ->
  let seg := span_not_slash rest in
  (exists tail, rest = seg ++ tail /\
                (tail = EmptyString \/ exists tail', tail = String slash tail') /\
                forall c, In c (list_ascii_of_string seg) -> c <> slash) /\
  (seg <> EmptyString ->
   FindStringSubmatch (http.URL_Path r) = Some ["/ipfs/" ++ seg; seg] /\
   parse_resource (http.URL_Path r) w0
   = (match cid_Parse seg with
      | Some cid => Ok cid
      | None => Err "Invalid hash"
      end,
      log_events [EvFindStringSubmatch (http.URL_Path r); EvCidParse seg] w0) /\
   (cid_Parse seg = None ->
    DedicatedGatewayMiddleware env next cfg r w
    = reject "Invalid hash" http.StatusBadRequest
        (log_events [EvFindStringSubmatch (http.URL_Path r); EvCidParse seg] w0))) /\
  (seg = EmptyString -> FindStringSubmatch rest = None ->
   DedicatedGatewayMiddleware env next cfg r w
   = reject "Invalid path" http.StatusBadRequest
       (log_events [EvFindStringSubmatch (http.URL_Path r)] w0)).
Proof.
  intros Hpath Hreach seg.
  assert (Hp : HasPrefix (http.URL_Path r) "/ipfs/" = true).
  { rewrite Hpath. apply HasPrefix_app. }
  split; [|split].
  - destruct (span_not_slash_maximal rest) as (tail & E & Htail).
    exists tail. split; [done|]. split; [done|].
    intros c. apply span_not_slash_no_slash.
  - intros Hseg.
    assert (Hfind : FindStringSubmatch (http.URL_Path r) = Some ["/ipfs/" ++ seg; seg]).
    { rewrite Hpath. by apply FindStringSubmatch_first_segment. }
    assert (Hrun : parse_resource (http.URL_Path r) w0
                   = (match cid_Parse seg with
                      | Some cid => Ok cid
                      | None => Err "Invalid hash"
                      end,
                      log_events [EvFindStringSubmatch (http.URL_Path r); EvCidParse seg] w0)).
    { rewrite parse_resource_run, Hfind. done. }
    split; [done|]. split; [done|].
    intros Hnone. rewrite Hnone in Hrun.
    by apply (middleware_parse_error next cfg r w w0 _ _ Hp Hreach Hrun).
  - intros Hseg Hrest.
    apply (middleware_parse_error next cfg r w w0 _ _ Hp Hreach).
    rewrite parse_resource_run, Hpath.
    rewrite (FindStringSubmatch_empty_segment rest Hseg), Hrest. done.
Qed.

(** A request outside [/ipfs/] goes straight to the wrapped handler, in
    both modes. *)
Lemma middleware_bypass (next : Handler) (cfg : Config) (r : http.Request) (w : World) :
  HasPrefix (http.URL_Path r) "/ipfs/" = false ->
  DedicatedGatewayMiddleware env next cfg r w = next r w.
Proof.
  intros Hp. unfold DedicatedGatewayMiddleware. rewrite Hp.
  by rewrite !andb_false_r.
Qed.

(** Well-formedness is an invariant of the server: the middleware keeps it
    around a handler that only logs, request after request. *)
Lemma wf_middleware (next : Handler) (cfg : Config) (r : http.Request) (w : World) :
  only_logs next -> wf w -> wf (snd (DedicatedGatewayMiddleware env next cfg r w)).
Proof.
  intros Hnext Hwf.
  destruct (middleware_outcome next cfg r w Hwf) as (o & w' & -> & Hwf' & _).
  destruct o as [msg code|]; simpl.
  - by apply wf_log_event.
  - destruct (Hnext r w') as [d ->]. by apply wf_log_events.
Qed.

Lemma wf_serve_requests (next : Handler) (cfg : Config) (rs : list http.Request)
    (w : World) :
  only_logs next -> wf w ->
  wf (snd (serve_requests (DedicatedGatewayMiddleware env next cfg) rs w)).
Proof.
  intros Hnext. revert w. induction rs as [|r rs IH]; intros w Hwf; simpl; [done|].
  unfold bind.
  pose proof (wf_middleware next cfg r w Hnext Hwf) as Hwf'.
  destruct (DedicatedGatewayMiddleware env next cfg r w) as [[] w']. by apply IH.
Qed.

End Middleware.

(** * Properties of handler composition and of the listener lifecycle *)

Section Lifecycle.

Context {RL : RateLib} {CL : CidLib} {UL : UrlLib}.
Variable env : Env.

(** The loop of [MakeHandler] is the left-to-right fold of the options. *)
Lemma fold_options_loop (n : IpfsNode) (l : Listener) (options : list ServeOption)
    (acc : M (result muxptr)) (w : World) :
  fold_left
    (fun (acc : M (result muxptr)) (option : ServeOption) =>
       bind acc (fun r => match r with
                          | Ok mux => option n l mux
                          | Err err => ret (Err err)
                          end))
    options acc w
  = match acc w with
    | (Ok mux, w1) => MakeHandler_loop n l options mux w1
    | (Err err, w1) => (Err err, w1)
    end.
Proof.
  revert acc w. induction options as [|option rest IH]; intros acc w; simpl.
  - by destruct (acc w) as [[mux|err] w1].
  - rewrite IH. unfold bind at 1.
    destruct (acc w) as [[mux|err] w1]; [|done].
    unfold bind. by destruct (option n l mux w1) as [[mux'|err] w2].
Qed.

Lemma MakeHandler_loop_fold (n : IpfsNode) (l : Listener) (options : list ServeOption)
    (mux : muxptr) (w : World) :
  MakeHandler_loop n l options mux w = fold_options_spec n l options mux w.
Proof. unfold fold_options_spec. by rewrite fold_options_loop. Qed.

(** C8. The handler [MakeHandler] returns answers a request whose method
    is CONNECT with a bare 200 and does not dispatch it; it dispatches
    every other request to the top-level multiplexer, the fresh one the
    options were folded over from left to right. *)
Theorem MakeHandler_dispatch (n : IpfsNode) (l : Listener) (options : list ServeOption)
    (w : World) (handler : Handler) (w' : World) :
  MakeHandler n l options w = (Ok handler, w') ->
  let topMux := nmux w in
  (exists mux,
     fold_options_spec n l options topMux (set_nmux (S (nmux w)) w) = (Ok mux, w')) /\
  forall (r : http.Request) (w0 : World),
    handler r w0 =
    if String.eqb (http.Method r) "CONNECT"
    then (tt, log_event (EvWriteHeader 200) w0)
    else (tt, log_event (EvMuxServeHTTP topMux r) w0).
Proof.
  unfold MakeHandler, bind, http_NewServeMux. simpl.
  rewrite MakeHandler_loop_fold.
  destruct (fold_options_spec n l options (nmux w) (set_nmux (S (nmux w)) w))
    as [[mux|err] w1]; simpl; [|done].
  intros [= <- <-]. split; [by exists mux|].
  intros r w0. unfold http.MethodConnect.
  by destruct (String.eqb (http.Method r) "CONNECT").
Qed.

Lemma emit_n_run (n : nat) (e : Event) (w : World) :
  emit_n n e w = (tt, log_events (replicate n e) w).
Proof.
  revert w. induction n as [|n IH]; intros w; simpl.
  - unfold ret. by rewrite log_events_nil.
  - unfold bind, emit. rewrite IH.
    by rewrite log_event_as_events, log_events_log_events.
Qed.

(** C9. Once the server has started, the error [Serve] returns is the
    error of the serve loop when the serve loop is the first to end, and
    the error of [Shutdown], called with a timeout of 30 seconds, when the
    shutdown signal comes first: that error replaces the one of the serve
    loop, and it is [nil] when the drain was clean. *)
Theorem Serve_returned_error (sched : Schedule) (node : IpfsNode) (lis : Listener)
    (options : list ServeOption) (w : World)
    (handler : Handler) (w1 : World) (cfg : Config) (addr : string) :
  MakeHandler node lis options w = (Ok handler, w1) ->
  Repo_Config node = Ok cfg ->
  FromNetAddr lis = Ok addr ->
  closing_at_start sched = false ->
  let w2 := snd (serve_requests (DedicatedGatewayMiddleware env handler cfg)
                   (requests sched) w1) in
  match first_signal sched with
  | ServerProcClosed =>
      Serve env sched node lis options w
      = (serve_loop_error sched,
         log_events [EvLog ("server at " ++ addr ++ " terminated"); EvListenerClose] w2)
  | ProcessClosing =>
      Serve env sched node lis options w
      = (shutdown_error sched (30 * time.Second),
         log_events ([EvLog ("server at " ++ addr ++ " terminating...");
                      EvShutdown (30 * time.Second)]
                       ++ replicate (warn_ticks sched)
                            (EvLog ("waiting for server at " ++ addr ++ " to terminate..."))
                       ++ [EvLog ("server at " ++ addr ++ " terminated"); EvListenerClose])
           w2) /\
      (shutdown_error sched (30 * time.Second) = None ->
       fst (Serve env sched node lis options w) = None)
  end.
Proof.
  intros Hmake Hcfg Haddr Hstart w2. subst w2.
  unfold Serve, Serve_body, bind. rewrite Hmake, Hcfg, Haddr, Hstart.
  destruct (serve_requests _ _ w1) as [[] w2]. simpl.
  destruct (first_signal sched); simpl.
  - unfold emit, ret. simpl.
    by rewrite !log_event_as_events, !log_events_log_events.
  - unfold emit, ret. simpl. rewrite emit_n_run. simpl.
    assert (E : log_event EvListenerClose
                  (log_event (EvLog ("server at " ++ addr ++ " terminated"))
                     (log_events
                        (replicate (warn_ticks sched)
                           (EvLog ("waiting for server at " ++ addr ++ " to terminate...")))
                        (log_event (EvShutdown shutdownTimeout)
                           (log_event (EvLog ("server at " ++ addr ++ " terminating...")) w2))))
                = log_events
                    ([EvLog ("server at " ++ addr ++ " terminating...");
                      EvShutdown (30 * time.Second)]
                       ++ replicate (warn_ticks sched)
                            (EvLog ("waiting for server at " ++ addr ++ " to terminate..."))
                       ++ [EvLog ("server at " ++ addr ++ " terminated"); EvListenerClose])
                    w2).
    { rewrite !log_event_as_events, !log_events_log_events.
      f_equal; by rewrite <- ?app_assoc. }
    rewrite E. split; [done|]. intros H. exact H.
Qed.

(** The handler [MakeHandler] builds only logs. *)
Lemma MakeHandler_only_logs (n : IpfsNode) (l : Listener) (options : list ServeOption)
    (w : World) (handler : Handler) (w' : World) :
  MakeHandler n l options w = (Ok handler, w') -> only_logs handler.
Proof.
  unfold MakeHandler, bind, http_NewServeMux. simpl.
  destruct (MakeHandler_loop n l options (nmux w) (set_nmux (S (nmux w)) w))
    as [[mux|err] w1]; simpl; [|done].
  intros [= <- <-] r w0.
  destruct (String.eqb (http.Method r) http.MethodConnect); by eexists [_].
Qed.

(** The states the serve loop goes through stay well formed. *)
Lemma served_requests_keep_wf (n : IpfsNode) (l : Listener) (options : list ServeOption)
    (w : World) (handler : Handler) (w1 : World) (cfg : Config) (rs : list http.Request) :
  MakeHandler n l options w = (Ok handler, w1) ->
  wf w1 ->
  wf (snd (serve_requests (DedicatedGatewayMiddleware env handler cfg) rs w1)).
Proof.
  intros Hmake Hwf. apply wf_serve_requests; [|done].
  by apply (MakeHandler_only_logs n l options w handler w1).
Qed.

End Lifecycle.

(** * Further properties of the admission middleware *)

Section Admission.

Context {RL : RateLib} {CL : CidLib} {UL : UrlLib}.
Variable env : Env.

Import GoStrings Regexp.

Lemma checkDmca_as_events (hash : string) (cfg : Config) (w : World) :
  snd (checkDmca env hash cfg w) = log_events (dmca_events env cfg hash) w.
Proof.
  rewrite checkDmca_run. unfold dmca_events. simpl.
  destruct (url_Parse_error _); simpl; [done|].
  destruct (Do env _ _); simpl;
    by rewrite !log_event_as_events, !log_events_log_events.
Qed.

Lemma getDedicatedGatewayAccess_as_events (hash : string) (cfg : Config) (w : World) :
  snd (getDedicatedGatewayAccess env hash cfg w) = log_events (access_events env cfg hash) w.
Proof.
  rewrite getDedicatedGatewayAccess_run. unfold access_events. simpl.
  destruct (url_Parse_error _); simpl; [done|].
  destruct (Do env _ _); simpl;
    by rewrite !log_event_as_events, !log_events_log_events.
Qed.

Lemma parse_resource_of (path : string) (w : World) (cid : Cid) (w1 : World) :
  parse_resource path w = (Ok cid, w1) -> resource_of path = Some cid.
Proof.
  rewrite parse_resource_run. unfold resource_of.
  destruct (FindStringSubmatch path) as [ms|]; [|done]. simpl.
  destruct (cid_Parse _); [|done]. by intros [= -> _].
Qed.

Lemma admission_of_parse (d : list Event) :
  Forall (fun e => is_parse_event e = true) d ->
  Forall (fun e => is_admission_event e = true) d.
Proof.
  intros H. eapply Forall_impl; [exact H|].
  intros e He. unfold is_admission_event. rewrite He. by destruct (is_limiter_event e).
Qed.

Lemma parse_resource_logs (path : string) (w : World) :
  exists d, snd (parse_resource path w) = log_events (EvFindStringSubmatch path :: d) w /\
            Forall (fun e => is_parse_event e = true) d.
Proof.
  rewrite parse_resource_run.
  destruct (FindStringSubmatch path); simpl; eexists; split; try done;
    repeat constructor.
Qed.

(** The calls of every run of the middleware, up to the point where it
    rejects or hands the request over: calls of the limiter registry and of
    the parsing, and then the calls of the policy gate. *)
Lemma middleware_events (next : Handler) (cfg : Config) (r : http.Request) (w : World) :
  wf w ->
  exists o w' pre pol,
    DedicatedGatewayMiddleware env next cfg r w = finish next r o w' /\
    trace w' = (trace w ++ pre ++ pol)%list /\
    Forall (fun e => is_admission_event e = true) pre /\
    policy_shape env cfg pol /\
    (HasPrefix (http.URL_Path r) "/ipfs/" = true -> pre <> []).
Proof.
  intros Hwf.
  destruct (HasPrefix (http.URL_Path r) "/ipfs/") eqn:Hp.
  2:{ exists Forward, w, [], []. rewrite (middleware_bypass env next cfg r w Hp).
      split; [done|]. split; [by rewrite app_nil_r|]. split; [done|].
      split; [by left | done]. }
  destruct (DedicatedGateway (ConfigPinningService cfg)) eqn:Hd.
  - destruct (parse_resource_logs (http.URL_Path r) w) as (d0 & Ew1 & Hd0).
    assert (Hpre : Forall (fun e => is_admission_event e = true)
                     (EvFindStringSubmatch (http.URL_Path r) :: d0)).
    { constructor; [done | by apply admission_of_parse]. }
    destruct (parse_resource (http.URL_Path r) w) as [[cid|msg] w1] eqn:Eparse;
      simpl in Ew1; subst w1.
    2:{ exists (Reject msg http.StatusBadRequest),
          (log_events (EvFindStringSubmatch (http.URL_Path r) :: d0) w),
          (EvFindStringSubmatch (http.URL_Path r) :: d0), [].
        split.
        { apply (middleware_parse_error env next cfg r w w _ _ Hp); [|done].
          unfold reaches_extraction. by rewrite Hd. }
        split; [by rewrite app_nil_r|]. split; [exact Hpre|]. split; [by left | done]. }
    assert (Hreach : reaches_moderation env cfg r w cid
                       (log_events (EvFindStringSubmatch (http.URL_Path r) :: d0) w)).
    { unfold reaches_moderation. by rewrite Hd. }
    rewrite (middleware_from_moderation env next cfg r w cid _ Hp Hreach), Hd.
    pose proof (checkDmca_as_events (cid_String cid) cfg
                  (log_events (EvFindStringSubmatch (http.URL_Path r) :: d0) w)) as Em.
    destruct (checkDmca env (cid_String cid) cfg _) as [[status [err|]] w2];
      simpl in Em; subst w2.
    { exists (Reject err status),
        (log_events (dmca_events env cfg (cid_String cid))
           (log_events (EvFindStringSubmatch (http.URL_Path r) :: d0) w)),
        (EvFindStringSubmatch (http.URL_Path r) :: d0),
        (dmca_events env cfg (cid_String cid)).
      split; [done|]. split; [simpl; by rewrite <- app_assoc|].
      split; [exact Hpre|]. split; [|done]. right. exists cid. by left. }
    pose proof (getDedicatedGatewayAccess_as_events (cid_Hash_HexString cid) cfg
                  (log_events (dmca_events env cfg (cid_String cid))
                     (log_events (EvFindStringSubmatch (http.URL_Path r) :: d0) w))) as Ea.
    destruct (getDedicatedGatewayAccess env (cid_Hash_HexString cid) cfg _)
      as [[status' err'] w3]; simpl in Ea; subst w3.
    exists (match err' with Some e => Reject e status' | None => Forward end),
      (log_events (access_events env cfg (cid_Hash_HexString cid))
         (log_events (dmca_events env cfg (cid_String cid))
            (log_events (EvFindStringSubmatch (http.URL_Path r) :: d0) w))),
      (EvFindStringSubmatch (http.URL_Path r) :: d0),
      (dmca_events env cfg (cid_String cid)
         ++ access_events env cfg (cid_Hash_HexString cid))%list.
    split; [by destruct err'|]. split; [simpl; by rewrite <- !app_assoc|].
    split; [exact Hpre|]. split; [|done]. right. exists cid. by right.
  - unfold DedicatedGatewayMiddleware. rewrite Hd, Hp. simpl. unfold bind.
    pose proof (limiter_stage env (http.RemoteAddr r) IpLimiters 100 w Hwf) as H1.
    destruct (getLimiter (http.RemoteAddr r) IpLimiters 100 w) as [ipL wa].
    destruct (Limiter_Allow env ipL wa) as [ip_ok wb]; destruct H1 as [Hwb Tb].
    destruct ip_ok; simpl.
    2:{ exists (Reject "Too many requests from this IP" http.StatusTooManyRequests), wb,
          [EvGetLimiter (http.RemoteAddr r) IpLimiters 100; EvAllow ipL false], [].
        split; [done|]. split; [by rewrite app_nil_r|]. split; [by repeat constructor|].
        split; [by left | done]. }
    destruct (parse_resource_events (http.URL_Path r) wb) as (d & Ewc & Hd0).
    destruct (parse_resource (http.URL_Path r) wb) as [[cid|msg] wc];
      simpl in Ewc; subst wc.
    2:{ exists (Reject msg http.StatusBadRequest), (log_events d wb),
          ([EvGetLimiter (http.RemoteAddr r) IpLimiters 100; EvAllow ipL true] ++ d)%list, [].
        split; [done|]. split; [simpl; rewrite Tb; by rewrite app_nil_r, <- app_assoc|].
        split; [|split; [by left | done]].
        apply Forall_app. split; [by repeat constructor | by apply admission_of_parse]. }
    pose proof (limiter_stage env (cid_String cid) CidLimiters 15 (log_events d wb)
                  (wf_log_events d wb Hwb)) as H2.
    destruct (getLimiter (cid_String cid) CidLimiters 15 (log_events d wb)) as [cidL wd].
    destruct (Limiter_Allow env cidL wd) as [cid_ok we]; destruct H2 as [Hwe Te].
    assert (Hpre : Forall (fun e => is_admission_event e = true)
              (([EvGetLimiter (http.RemoteAddr r) IpLimiters 100; EvAllow ipL true] ++ d)
                 ++ [EvGetLimiter (cid_String cid) CidLimiters 15; EvAllow cidL cid_ok])%list).
    { apply Forall_app. split; [|by repeat constructor].
      apply Forall_app. split; [by repeat constructor | by apply admission_of_parse]. }
    assert (Te' : trace we
              = (trace w ++ ([EvGetLimiter (http.RemoteAddr r) IpLimiters 100; EvAllow ipL true] ++ d)
                   ++ [EvGetLimiter (cid_String cid) CidLimiters 15; EvAllow cidL cid_ok])%list).
    { rewrite Te. simpl. rewrite Tb. by rewrite <- !app_assoc. }
    destruct cid_ok; simpl.
    2:{ exists (Reject "Too many requests for this CID" http.StatusTooManyRequests), we.
        exists (([EvGetLimiter (http.RemoteAddr r) IpLimiters 100; EvAllow ipL true] ++ d)
             ++ [EvGetLimiter (cid_String cid) CidLimiters 15; EvAllow cidL false])%list, [].
        split; [done|]. split; [rewrite Te'; by rewrite app_nil_r|].
        split; [exact Hpre|]. split; [by left | done]. }
    pose proof (checkDmca_as_events (cid_String cid) cfg we) as Em.
    destruct (checkDmca env (cid_String cid) cfg we) as [[status err] wm];
      simpl in Em; subst wm.
    exists (match err with Some e => Reject e status | None => Forward end),
      (log_events (dmca_events env cfg (cid_String cid)) we).
    exists (([EvGetLimiter (http.RemoteAddr r) IpLimiters 100; EvAllow ipL true] ++ d)
             ++ [EvGetLimiter (cid_String cid) CidLimiters 15; EvAllow cidL true])%list,
      (dmca_events env cfg (cid_String cid)).
    split; [by destruct err|]. split; [simpl; rewrite Te'; by rewrite <- app_assoc|].
    split; [exact Hpre|]. split; [|done]. right. exists cid. by left.
Qed.

Lemma no_call_in_admission (pre : list Event) :
  Forall (fun e => is_admission_event e = true) pre ->
  List.filter is_client_do pre = [] /\
  Forall (fun e => is_response_event e = false) pre.
Proof.
  induction 1 as [|e pre He _ [IH1 IH2]]; [done|].
  split.
  - simpl. rewrite IH1. by destruct e.
  - constructor; [by destruct e | done].
Qed.

Lemma calls_of_dmca_events (cfg : Config) (hash : string) :
  (length (List.filter is_client_do (dmca_events env cfg hash)) <= 1)%nat /\
  Forall (is_policy_request cfg) (List.filter is_client_do (dmca_events env cfg hash)) /\
  Forall (fun e => is_response_event e = false) (dmca_events env cfg hash).
Proof.
  unfold dmca_events. destruct (url_Parse_error _); simpl.
  { split; [lia|]. split; [done | by repeat constructor]. }
  destruct (Do env _ _); simpl.
  - split; [lia|]. split; [|by repeat constructor].
    constructor; [|done]. exists hash. by left.
  - split; [lia|]. split; [|by repeat constructor].
    constructor; [|done]. exists hash. by left.
Qed.

Lemma calls_of_access_events (cfg : Config) (hash : string) :
  (length (List.filter is_client_do (access_events env cfg hash)) <= 1)%nat /\
  Forall (is_policy_request cfg) (List.filter is_client_do (access_events env cfg hash)) /\
  Forall (fun e => is_response_event e = false) (access_events env cfg hash).
Proof.
  unfold access_events. destruct (url_Parse_error _); simpl.
  { split; [lia|]. split; [done | by repeat constructor]. }
  destruct (Do env _ _); simpl.
  - split; [lia|]. split; [|by repeat constructor].
    constructor; [|done]. exists hash. by right.
  - split; [lia|]. split; [|by repeat constructor].
    constructor; [|done]. exists hash. by right.
Qed.

(** X1. Whatever the request, the middleware makes at most two outbound
    calls before it rejects or hands the request over, and at most one in
    open mode; and every one of them is a GET of the moderation or of the
    access endpoint of the configured pinning service, with the API key
    and the content type set and a timeout of 15 seconds. *)
Theorem middleware_outbound_calls (next : Handler) (cfg : Config) (r : http.Request)
    (w : World) :
  wf w ->
  exists o w',
    DedicatedGatewayMiddleware env next cfg r w = finish next r o w' /\
    (length (List.filter is_client_do (events_since w w')) <= 2)%nat /\
    (DedicatedGateway (ConfigPinningService cfg) = false ->
     (length (List.filter is_client_do (events_since w w')) <= 1)%nat) /\
    Forall (is_policy_request cfg) (List.filter is_client_do (events_since w w')).
Proof.
  intros Hwf.
  destruct (middleware_events next cfg r w Hwf) as (o & w' & pre & pol & Hrun & Ht & Hpre & Hpol & _).
  exists o, w'. split; [done|].
  rewrite (events_since_app w w' _ Ht), List.filter_app.
  destruct (no_call_in_admission pre Hpre) as [-> _]. simpl.
  destruct Hpol as [-> | (cid & [-> | [Hd ->]])].
  - simpl. split; [lia|]. split; [lia | done].
  - destruct (calls_of_dmca_events cfg (cid_String cid)) as (Hn & Hs & _).
    split; [lia|]. by split.
  - destruct (calls_of_dmca_events cfg (cid_String cid)) as (Hn & Hs & _).
    destruct (calls_of_access_events cfg (cid_Hash_HexString cid)) as (Hn' & Hs' & _).
    rewrite List.filter_app, length_app. split; [lia|].
    split; [intros Hd'; congruence|]. by apply Forall_app.
Qed.

(** X2. The middleware answers at most once: up to the point where it
    rejects (one [http.Error]) or hands the request to the wrapped handler,
    it has written nothing to the response and dispatched nothing. *)
Theorem middleware_answers_once (next : Handler) (cfg : Config) (r : http.Request)
    (w : World) :
  wf w ->
  exists o w',
    DedicatedGatewayMiddleware env next cfg r w = finish next r o w' /\
    Forall (fun e => is_response_event e = false) (events_since w w') /\
    match o with
    | Reject msg code =>
        events_since w (snd (DedicatedGatewayMiddleware env next cfg r w))
        = (events_since w w' ++ [EvHttpError msg code])%list
    | Forward => DedicatedGatewayMiddleware env next cfg r w = next r w'
    end.
Proof.
  intros Hwf.
  destruct (middleware_events next cfg r w Hwf) as (o & w' & pre & pol & Hrun & Ht & Hpre & Hpol & _).
  exists o, w'. split; [done|]. split.
  - rewrite (events_since_app w w' _ Ht). apply Forall_app. split.
    + by destruct (no_call_in_admission pre Hpre).
    + destruct Hpol as [-> | (cid & [-> | [Hd ->]])]; [done| |].
      * by destruct (calls_of_dmca_events cfg (cid_String cid)) as (_ & _ & ?).
      * apply Forall_app. split.
        -- by destruct (calls_of_dmca_events cfg (cid_String cid)) as (_ & _ & ?).
        -- by destruct (calls_of_access_events cfg (cid_Hash_HexString cid)) as (_ & _ & ?).
  - rewrite Hrun. destruct o as [msg code|]; [|done]. simpl.
    rewrite (events_since_app w w' _ Ht).
    apply events_since_app. simpl. rewrite Ht. by rewrite <- !app_assoc.
Qed.

(** X3. The middleware is transparent exactly on the paths outside
    [/ipfs/]: it behaves as the wrapped handler, for every handler and
    state, if and only if the path does not start with [/ipfs/]. *)
Theorem middleware_transparent_iff (cfg : Config) (r : http.Request) :
  HasPrefix (http.URL_Path r) "/ipfs/" = false <->
  (forall (next : Handler) (w : World),
     DedicatedGatewayMiddleware env next cfg r w = next r w).
Proof.
  split.
  - intros Hp next w. by apply middleware_bypass.
  - intros H. destruct (HasPrefix (http.URL_Path r) "/ipfs/") eqn:Hp; [|done].
    exfalso.
    pose (next := (fun _ w => (tt, w)) : Handler).
    destruct (middleware_events next cfg r init_world wf_init_world)
      as (o & w' & pre & pol & Hrun & Ht & _ & _ & Hne).
    rewrite (H next init_world) in Hrun. destruct o as [msg code|]; simpl in Hrun.
    + apply (f_equal (fun p => trace (snd p))) in Hrun. simpl in Hrun.
      by destruct (trace w').
    + apply (f_equal (fun p => trace (snd p))) in Hrun. simpl in Hrun.
      rewrite <- Hrun in Ht. simpl in Ht. destruct pre; [by apply Hne | done].
Qed.

(** X4. When the URL of a check cannot be made into a request, the check
    fails closed without calling out.  A request that reaches the
    moderation check is then rejected with 500 and the message
    [failed to create request: ] followed by the error, and the only call
    made is the entry of the check, in either mode.  The access check,
    called with any hash in any state, returns the same status and
    message after its entry alone. *)
Theorem unbuildable_request_fails_closed (next : Handler) (cfg : Config)
    (r : http.Request) (w : World) (cid : Cid) (w1 : World)
    (hash : string) (w0 : World) :
  HasPrefix (http.URL_Path r) "/ipfs/" = true ->
  reaches_moderation env cfg r w cid w1 ->
  (forall e,
     url_Parse_error (dmca_url cfg (cid_String cid)) = Some e ->
     DedicatedGatewayMiddleware env next cfg r w
     = reject ("failed to create request: " ++ e) http.StatusInternalServerError
         (log_event (EvCheckDmca (cid_String cid)) w1)) /\
  (forall e,
     url_Parse_error (access_url cfg hash) = Some e ->
     getDedicatedGatewayAccess env hash cfg w0
     = ((http.StatusInternalServerError, Some ("failed to create request: " ++ e)),
        log_event (EvGetDedicatedGatewayAccess hash) w0)).
Proof.
  intros Hp Hreach. split.
  - intros e He.
    rewrite (middleware_from_moderation env next cfg r w cid w1 Hp Hreach).
    rewrite checkDmca_run. simpl. by rewrite He.
  - intros e He. rewrite getDedicatedGatewayAccess_run. simpl. by rewrite He.
Qed.

End Admission.

(** * Further properties of the limiter registry *)

Section RegistryGrowth.

Context {RL : RateLib} {CL : CidLib} {UL : UrlLib}.
Variable env : Env.

Import GoStrings Regexp.

(** A relation between states that every step of the middleware respects
    is respected by every run of the middleware. *)
Lemma middleware_closure (R : World -> World -> Prop) (next : Handler) (cfg : Config)
    (r : http.Request) :
  (forall w, R w w) ->
  (forall a b c, R a b -> R b c -> R a c) ->
  (forall d w, R w (log_events d w)) ->
  (forall w, wf w -> R w (snd (getLimiter (http.RemoteAddr r) IpLimiters 100 w))) ->
  (forall cid w, wf w -> resource_of (http.URL_Path r) = Some cid ->
                 R w (snd (getLimiter (cid_String cid) CidLimiters 15 w))) ->
  (forall l w, R w (snd (Limiter_Allow env l w))) ->
  forall w, wf w ->
    exists o w',
      DedicatedGatewayMiddleware env next cfg r w = finish next r o w' /\ wf w' /\ R w w'.
Proof.
  intros Hrefl Htrans Hlog Hip Hcid Hallow w Hwf.
  destruct (HasPrefix (http.URL_Path r) "/ipfs/") eqn:Hp.
  2:{ exists Forward, w. by rewrite (middleware_bypass env next cfg r w Hp). }
  destruct (DedicatedGateway (ConfigPinningService cfg)) eqn:Hd.
  { destruct (dedicated_outcome env next cfg r w Hd) as (o & d & Hrun & _).
    exists o, (log_events d w). split; [done|]. split; [by apply wf_log_events | done]. }
  unfold DedicatedGatewayMiddleware. rewrite Hd, Hp. simpl. unfold bind.
  pose proof (Hip w Hwf) as Ra.
  pose proof (wf_getLimiter (http.RemoteAddr r) IpLimiters 100 w Hwf) as Hwa.
  destruct (getLimiter (http.RemoteAddr r) IpLimiters 100 w) as [ipL wa]. simpl in Ra, Hwa.
  pose proof (Hallow ipL wa) as Rb.
  pose proof (wf_Limiter_Allow env ipL wa Hwa) as Hwb.
  destruct (Limiter_Allow env ipL wa) as [ip_ok wb]. simpl in Rb, Hwb.
  assert (Rwb : R w wb) by (by eapply Htrans).
  destruct ip_ok; simpl.
  2:{ by exists (Reject "Too many requests from this IP" http.StatusTooManyRequests), wb. }
  destruct (parse_resource_events (http.URL_Path r) wb) as (d & Ewc & _).
  destruct (parse_resource (http.URL_Path r) wb) as [[cid|msg] wc] eqn:Eparse;
    simpl in Ewc; subst wc.
  2:{ exists (Reject msg http.StatusBadRequest), (log_events d wb).
      split; [done|]. split; [by apply wf_log_events|]. by eapply Htrans. }
  pose proof (parse_resource_of _ _ _ _ Eparse) as Hres.
  pose proof (wf_log_events d wb Hwb) as Hwc.
  pose proof (Hcid cid _ Hwc Hres) as Rd.
  pose proof (wf_getLimiter (cid_String cid) CidLimiters 15 _ Hwc) as Hwd.
  destruct (getLimiter (cid_String cid) CidLimiters 15 (log_events d wb)) as [cidL wd].
  simpl in Rd, Hwd.
  pose proof (Hallow cidL wd) as Re.
  pose proof (wf_Limiter_Allow env cidL wd Hwd) as Hwe.
  destruct (Limiter_Allow env cidL wd) as [cid_ok we]. simpl in Re, Hwe.
  assert (Rwe : R w we).
  { eapply Htrans; [exact Rwb|]. eapply Htrans; [apply Hlog|]. by eapply Htrans. }
  destruct cid_ok; simpl.
  2:{ by exists (Reject "Too many requests for this CID" http.StatusTooManyRequests), we. }
  pose proof (checkDmca_as_events env (cid_String cid) cfg we) as Em.
  destruct (checkDmca env (cid_String cid) cfg we) as [[status err] wm];
    simpl in Em; subst wm.
  exists (match err with Some e => Reject e status | None => Forward end),
    (log_events (dmca_events env cfg (cid_String cid)) we).
  split; [by destruct err|]. split; [by apply wf_log_events|]. by eapply Htrans.
Qed.

Lemma registry_grew_refl (w : World) : registry_grew w w.
Proof. by split. Qed.

Lemma registry_grew_trans (a b c : World) :
  registry_grew a b -> registry_grew b c -> registry_grew a c.
Proof.
  intros [H1 L1] [H2 L2]. split; [|lia].
  intros m k l H. by apply H2, H1.
Qed.

Lemma registry_grew_log_events (d : list Event) (w : World) :
  registry_grew w (log_events d w).
Proof. split; [|done]. intros m k l H. by destruct m. Qed.

Lemma registry_grew_getLimiter (limit : string) (limitMap : LimitMap) (rps : Z) (w : World) :
  registry_grew w (snd (getLimiter limit limitMap rps w)).
Proof.
  rewrite getLimiter_run. simpl.
  destruct (load_map limitMap w !! limit) as [l0|] eqn:E; simpl.
  { split; [|done]. intros m k l. by rewrite load_log_event. }
  split.
  - intros m k l H. destruct (decide (limitMap = m)) as [<-|Hm].
    + rewrite load_store_eq. rewrite lookup_insert_ne; [done|]. intros <-. congruence.
    + rewrite load_store_ne by done. by rewrite load_set_heap, load_log_event.
  - rewrite heap_store_map. simpl. rewrite length_app. lia.
Qed.

Lemma registry_grew_Allow (l : loc) (w : World) :
  registry_grew w (snd (Limiter_Allow env l w)).
Proof.
  destruct (Limiter_Allow_frame env l w) as (Hm & Hl & _).
  split; [|lia]. intros m k l0. by rewrite Hm.
Qed.

Lemma adds_only_keys_of_trans (r : http.Request) (a b c : World) :
  adds_only_keys_of r a b -> adds_only_keys_of r b c -> adds_only_keys_of r a c.
Proof.
  intros [I1 C1] [I2 C2]. split.
  - intros k H. destruct (I2 k H) as [H' | ->]; [by apply I1 | by right].
  - intros k H. destruct (C2 k H) as [H'|H']; [by apply C1 | by right].
Qed.

(** One request only adds entries: it drops and re-points none, and the
    keys it can add are its own. *)
Lemma request_grows_registry (next : Handler) (cfg : Config) (r : http.Request) (w : World) :
  wf w ->
  exists o w',
    DedicatedGatewayMiddleware env next cfg r w = finish next r o w' /\
    wf w' /\ registry_grew w w' /\ adds_only_keys_of r w w'.
Proof.
  intros Hwf.
  destruct (middleware_closure (fun a b => registry_grew a b /\ adds_only_keys_of r a b)
              next cfg r) with (w := w) as (o & w' & Hrun & Hwf' & Hg & Hk); try done.
  - intros a. split; [apply registry_grew_refl|]. split; intros k H; by left.
  - intros a b c [G1 K1] [G2 K2]. split;
      [by eapply registry_grew_trans | by eapply adds_only_keys_of_trans].
  - intros d a. split; [apply registry_grew_log_events|]. split; intros k H; by left.
  - intros a _. split; [apply registry_grew_getLimiter|].
    rewrite getLimiter_run. simpl.
    destruct (ipLimiters a !! http.RemoteAddr r) as [l0|] eqn:E; simpl.
    { split; intros k H; by left. }
    split; intros k H; [|by left].
    destruct (decide (k = http.RemoteAddr r)) as [->|Hk]; [by right|].
    left. simpl in H. by rewrite lookup_insert_ne in H.
  - intros cid a _ Hres. split; [apply registry_grew_getLimiter|].
    rewrite getLimiter_run. simpl.
    destruct (cidLimiters a !! cid_String cid) as [l0|] eqn:E; simpl.
    { split; intros k H; by left. }
    split; intros k H; [by left|].
    destruct (decide (k = cid_String cid)) as [->|Hk]; [right; by exists cid|].
    left. simpl in H. by rewrite lookup_insert_ne in H.
  - intros l a. split; [apply registry_grew_Allow|].
    destruct (Limiter_Allow_frame env l a) as (Hm & _).
    pose proof (Hm IpLimiters) as Ei. pose proof (Hm CidLimiters) as Ec.
    simpl in Ei, Ec.
    split; intros k H; left.
    + by rewrite Ei in H.
    + by rewrite Ec in H.
  - by exists o, w'.
Qed.

(** X5. The registry never shrinks: over any sequence of requests served
    around a handler that only logs, every entry of either map stays and
    keeps pointing to the same limiter, no limiter object is dropped, the
    state stays well formed, and the only keys added are remote addresses
    of the requests (map of addresses) and canonical strings of the
    identifiers of the requests (map of identifiers). *)
Theorem registry_never_shrinks (next : Handler) (cfg : Config) (rs : list http.Request)
    (w : World) :
  only_logs next ->
  wf w ->
  let w' := snd (serve_requests (DedicatedGatewayMiddleware env next cfg) rs w) in
  wf w' /\
  registry_grew w w' /\
  (forall k, is_Some (ipLimiters w' !! k) ->
     is_Some (ipLimiters w !! k) \/ exists r, In r rs /\ k = http.RemoteAddr r) /\
  (forall k, is_Some (cidLimiters w' !! k) ->
     is_Some (cidLimiters w !! k) \/
     exists r cid, In r rs /\ resource_of (http.URL_Path r) = Some cid /\ k = cid_String cid).
Proof.
  intros Hnext. revert w. induction rs as [|r rs IH]; intros w Hwf; simpl.
  { split; [done|]. split; [apply registry_grew_refl|]. split; intros k H; by left. }
  unfold bind.
  destruct (request_grows_registry next cfg r w Hwf) as (o & w1 & Hrun & Hwf1 & Hg & Hi & Hc).
  assert (Hstep : exists w2, DedicatedGatewayMiddleware env next cfg r w = (tt, w2) /\
                    wf w2 /\ registry_grew w w2 /\ adds_only_keys_of r w w2).
  { rewrite Hrun. destruct o as [msg code|]; simpl.
    - exists (log_event (EvHttpError msg code) w1).
      split; [done|]. split; [by apply wf_log_event|]. split.
      + eapply registry_grew_trans; [exact Hg|]. apply (registry_grew_log_events [_]).
      + by split.
    - destruct (Hnext r w1) as [d ->]. exists (log_events d w1).
      split; [done|]. split; [by apply wf_log_events|]. split.
      + eapply registry_grew_trans; [exact Hg|]. apply registry_grew_log_events.
      + by split. }
  destruct Hstep as (w2 & -> & Hwf2 & Hg2 & Hi2 & Hc2).
  destruct (IH w2 Hwf2) as (IHwf & IHg & IHi & IHc).
  split; [done|]. split; [by eapply registry_grew_trans|]. split.
  - intros k H. destruct (IHi k H) as [H'|(r' & Hin & ->)].
    + destruct (Hi2 k H') as [Hk | ->]; [by left|]. right. exists r. by split; [left|].
    + right. exists r'. by split; [right|].
  - intros k H. destruct (IHc k H) as [H'|(r' & cid & Hin & Hres & ->)].
    + destruct (Hc2 k H') as [Hk | (cid & Hres & ->)]; [by left|].
      right. exists r, cid. by split; [left|].
    + right. exists r', cid. by split; [right|].
Qed.

End RegistryGrowth.

(** * Further properties of the path pattern *)

Section PatternSearch.

Context {RL : RateLib} {CL : CidLib} {UL : UrlLib}.

Import GoStrings Regexp.

Lemma match_here_Some (s : string) (ms : list string) :
  match_here s = Some ms ->
  exists g post,
    ms = ["/ipfs/" ++ g; g] /\ s = "/ipfs/" ++ g ++ post /\ g <> EmptyString /\
    (forall c, In c (list_ascii_of_string g) -> c <> slash) /\
    (post = EmptyString \/ exists post', post = String slash post').
Proof.
  unfold match_here. destruct (HasPrefix s "/ipfs/") eqn:Hp; [|done].
  apply HasPrefix_inv in Hp. change (String.length "/ipfs/") with 6%nat in Hp.
  destruct (span_not_slash_maximal (drop_bytes 6 s)) as (post & E & Hpost).
  pose proof (span_not_slash_no_slash (drop_bytes 6 s)) as Hno.
  destruct (span_not_slash (drop_bytes 6 s)) as [|d g] eqn:Eg; [done|].
  intros [= <-]. exists (String d g), post.
  split; [done|]. split; [by rewrite <- E|]. split; [done|]. split; [|done].
  intros c. apply Hno.
Qed.

Lemma FindStringSubmatch_Some (s : string) (ms : list string) :
  FindStringSubmatch s = Some ms ->
  exists pre g post,
    ms = ["/ipfs/" ++ g; g] /\ s = pre ++ "/ipfs/" ++ g ++ post /\ g <> EmptyString /\
    (forall c, In c (list_ascii_of_string g) -> c <> slash) /\
    (post = EmptyString \/ exists post', post = String slash post').
Proof.
  induction s as [|a s IH]; cbn [FindStringSubmatch].
  - by vm_compute.
  - destruct (match_here (String a s)) as [m|] eqn:E.
    + intros [= <-]. destruct (match_here_Some _ _ E) as (g & post & H).
      by exists EmptyString, g, post.
    + intros H. destruct (IH H) as (pre & g & post & -> & -> & Hrest).
      by exists (String a pre), g, post.
Qed.

Lemma FindStringSubmatch_None_suffix (pre x : string) :
  FindStringSubmatch (pre ++ x) = None -> FindStringSubmatch x = None.
Proof.
  induction pre as [|a pre IH]; [done|].
  rewrite append_String. cbn [FindStringSubmatch].
  destruct (match_here _); [done|]. apply IH.
Qed.

Lemma FindStringSubmatch_None_iff (s : string) :
  FindStringSubmatch s = None <->
  (forall pre c rest, s = pre ++ "/ipfs/" ++ String c rest -> c = slash).
Proof.
  split.
  - intros H pre c rest ->. apply FindStringSubmatch_None_suffix in H.
    destruct (Ascii.eqb_spec c slash) as [|Hc]; [done|].
    rewrite FindStringSubmatch_first_segment in H; [done|].
    simpl. destruct (Ascii.eqb_spec c slash); done.
  - intros H. destruct (FindStringSubmatch s) as [ms|] eqn:E; [|done].
    destruct (FindStringSubmatch_Some _ _ E) as (pre & g & post & _ & -> & Hg & Hno & _).
    destruct g as [|c g]; [done|].
    specialize (H pre c (g ++ post) eq_refl). subst c.
    exfalso. apply (Hno slash); [by left | done].
Qed.

(** X6. A request under [/ipfs/] is answered [Invalid path] by the parsing
    step exactly when its path holds no occurrence of [/ipfs/] that is
    followed by a byte other than '/'; the guard on the length of the
    match never decides. *)
Theorem invalid_path_iff (path : string) (w : World) :
  fst (parse_resource path w) = Err "Invalid path" <->
  (forall pre c rest, path = pre ++ "/ipfs/" ++ String c rest -> c = slash).
Proof.
  rewrite <- FindStringSubmatch_None_iff, parse_resource_run.
  destruct (FindStringSubmatch path) as [ms|]; simpl; [|done].
  split; [|done]. by destruct (cid_Parse _).
Qed.

(** X7. The token the middleware hands to [cid.Parse] is never empty and
    holds no '/': it is a piece of the path that follows an occurrence of
    [/ipfs/] and runs up to the next '/' or the end of the path. *)
Theorem parsed_token_shape (path : string) (w : World) (token : string) :
  In (EvCidParse token) (events_since w (snd (parse_resource path w))) ->
  exists pre post,
    path = pre ++ "/ipfs/" ++ token ++ post /\
    token <> EmptyString /\
    (forall c, In c (list_ascii_of_string token) -> c <> slash) /\
    (post = EmptyString \/ exists post', post = String slash post').
Proof.
  rewrite parse_resource_run.
  destruct (FindStringSubmatch path) as [ms|] eqn:E; simpl;
    rewrite events_since_log_events.
  - destruct (FindStringSubmatch_Some _ _ E) as (pre & g & post & -> & Hpath & Hrest).
    simpl. intros [H|[H|[]]]; [done|]. injection H as <-. by exists pre, post.
  - by intros [H|[]].
Qed.

End PatternSearch.

(** * Further properties of handler composition and of the lifecycle *)

Section Startup.

Context {RL : RateLib} {CL : CidLib} {UL : UrlLib}.
Variable env : Env.

Lemma MakeHandler_loop_app (n : IpfsNode) (l : Listener) (pre post : list ServeOption)
    (mux : muxptr) (w : World) :
  MakeHandler_loop n l (pre ++ post) mux w =
  match MakeHandler_loop n l pre mux w with
  | (Ok mux', w1) => MakeHandler_loop n l post mux' w1
  | (Err e, w1) => (Err e, w1)
  end.
Proof.
  revert mux w. induction pre as [|option pre IH]; intros mux w; simpl; [done|].
  unfold bind. destruct (option n l mux w) as [[mux'|e] w1]; [apply IH | done].
Qed.

(** X8. [MakeHandler] stops at the first option that fails: it returns
    the error of that option and no handler, in the state that option left,
    and the options after it are not run. *)
Theorem MakeHandler_stops_at_first_failure (n : IpfsNode) (l : Listener)
    (pre post : list ServeOption) (option : ServeOption)
    (w : World) (mux : muxptr) (w1 : World) (e : string) (w2 : World) :
  MakeHandler_loop n l pre (nmux w) (set_nmux (S (nmux w)) w) = (Ok mux, w1) ->
  option n l mux w1 = (Err e, w2) ->
  MakeHandler n l (pre ++ option :: post) w = (Err e, w2).
Proof.
  intros Hpre Hopt. unfold MakeHandler, bind, http_NewServeMux. simpl.
  rewrite MakeHandler_loop_app, Hpre. simpl. unfold bind. by rewrite Hopt.
Qed.

(** X9. A start that fails serves nothing.  When an option fails, when the
    configuration cannot be read, when the address of the listener cannot
    be converted, or when the node is already closing, in this order of
    precedence, [Serve] returns that error; no request is handled, no
    shutdown is started, and the listener is closed. *)
Theorem Serve_start_failures (sched : Schedule) (node : IpfsNode) (lis : Listener)
    (options : list ServeOption) (w : World) :
  (forall e w1,
     MakeHandler node lis options w = (Err e, w1) ->
     Serve env sched node lis options w = (Some e, log_event EvListenerClose w1)) /\
  (forall handler w1 e,
     MakeHandler node lis options w = (Ok handler, w1) ->
     Repo_Config node = Err e ->
     Serve env sched node lis options w = (Some e, log_event EvListenerClose w1)) /\
  (forall handler w1 cfg e,
     MakeHandler node lis options w = (Ok handler, w1) ->
     Repo_Config node = Ok cfg ->
     FromNetAddr lis = Err e ->
     Serve env sched node lis options w = (Some e, log_event EvListenerClose w1)) /\
  (forall handler w1 cfg addr,
     MakeHandler node lis options w = (Ok handler, w1) ->
     Repo_Config node = Ok cfg ->
     FromNetAddr lis = Ok addr ->
     closing_at_start sched = true ->
     Serve env sched node lis options w
     = (Some "failed to start server, process closing", log_event EvListenerClose w1)).
Proof.
  unfold Serve, Serve_body, bind.
  split; [|split; [|split]].
  - intros e w1 ->. done.
  - intros handler w1 e -> ->. done.
  - intros handler w1 cfg e -> -> ->. done.
  - intros handler w1 cfg addr -> -> -> ->. done.
Qed.

End Startup.

(** * Properties of recorded calls *)

Section CallsProperties.

Import Calls.

#[local] Open Scope list_scope.

Context {C : Type}.

Lemma since_app (h evs : list C) : since h (h ++ evs) = evs.
Proof. unfold since. by rewrite drop_app_length. Qed.

End CallsProperties.

(** * Properties of the TiKV helpers *)

Section TikvProperties.

Import Calls tikv.

#[local] Open Scope list_scope.

Variable cluster : Cluster.

Lemma Puts_loop_run (args : list bytes) (h : list Call) :
  exists evs,
    snd (Puts_loop cluster args h) = (h ++ evs)%list /\
    ~ In CallCommit evs /\
    match fst (Puts_loop cluster args h) with
    | None => evs = sets_of args /\ Nat.Even (length args) /\ sets_accepted cluster h args
    | Some Panics => evs = sets_of args /\ Nat.Odd (length args) /\ sets_accepted cluster h args
    | Some (Returns None) => False
    | Some (Returns (Some e)) => ~ sets_accepted cluster h args
    end.
Proof.
  revert h. induction args as [args IH] using (induction_ltof1 _ (@length bytes)).
  unfold ltof in IH. intros h.
  destruct args as [|key [|val rest]].
  - exists []. simpl. rewrite app_nil_r. split; [done|]. split; [by intros []|].
    split; [done|]. split; [by exists 0%nat | done].
  - exists []. simpl. rewrite app_nil_r. split; [done|]. split; [by intros []|].
    split; [done|]. split; [by exists 0%nat | done].
  - cbn [Puts_loop]. unfold bind, tx_Set, call.
    destruct (Set_answer cluster h key val) as [e|] eqn:E.
    + exists [CallSet key val]. simpl. split; [done|]. split.
      * by intros [H|[]].
      * intros [H _]. congruence.
    + destruct (IH rest ltac:(simpl; lia) (h ++ [CallSet key val])%list)
        as (evs & Hh & Hno & Hres).
      exists (CallSet key val :: evs). split.
      { rewrite Hh, <- app_assoc. done. }
      split.
      { intros [H|H]; [done | by apply Hno]. }
      destruct (fst (Puts_loop cluster rest (h ++ [CallSet key val]))) as [[[e|]|]|].
      * intros [_ H]. by apply Hres.
      * done.
      * destruct Hres as (-> & Hodd & Hacc). cbn [sets_of sets_accepted length].
        split; [done|]. split; [|done].
        destruct Hodd as [n Hn]. exists (S n). lia.
      * destruct Hres as (-> & Hev & Hacc). cbn [sets_of sets_accepted length].
        split; [done|]. split; [|done].
        destruct Hev as [n Hn]. exists (S n). lia.
Qed.

(** X10. [Puts] commits only complete writes.  Whenever [Commit] is
    called, the number of arguments is even, every pair was [Set] before
    it in the order given and nothing else was called, and [Puts] returns
    what [Commit] returned; [Puts] returns nil only in this way.  When the
    transaction begins and every [Set] is accepted, an even number of
    arguments does reach [Commit]. *)
Theorem Puts_commits_complete_writes (args : list bytes) (h : list Call) :
  let o := fst (Puts cluster args h) in
  let evs := since h (snd (Puts cluster args h)) in
  snd (Puts cluster args h) = (h ++ evs)%list /\
  (In CallCommit evs \/ o = Returns None ->
   Nat.Even (length args) /\
   evs = (CallBegin :: sets_of args ++ [CallCommit])%list /\
   o = Returns (Commit_answer cluster (h ++ CallBegin :: sets_of args))) /\
  (Nat.Even (length args) -> Begin_answer cluster h = None ->
   sets_accepted cluster (h ++ [CallBegin]) args ->
   In CallCommit evs).
Proof.
  cbn zeta. unfold Puts, bind, client_Begin, call.
  destruct (Begin_answer cluster h) as [e|] eqn:EB.
  - simpl. rewrite since_app. split; [done|]. split; [|done].
    intros [[H|[]]|H]; done.
  - destruct (Puts_loop_run args (h ++ [CallBegin])%list) as (evs & Hh & Hno & Hres).
    destruct (Puts_loop cluster args (h ++ [CallBegin])) as [stop h1] eqn:EL.
    simpl in Hh, Hres. subst h1.
    destruct stop as [[[e|]|]|]; simpl.
    + rewrite <- app_assoc, since_app. split; [done|]. split.
      * intros [[H|H]|H]; [done| by destruct (Hno H) | done].
      * intros _ _ Hacc. by destruct Hres.
    + done.
    + rewrite <- app_assoc, since_app. split; [done|]. split.
      * intros [[H|H]|H]; [done| by destruct (Hno H) | done].
      * intros Hev _ _. destruct Hres as (_ & Hodd & _).
        destruct Hev as [n Hn], Hodd as [m Hm]. lia.
    + unfold tx_Commit, call. simpl. rewrite <- !app_assoc, since_app.
      destruct Hres as (-> & Hev & Hacc). split; [done|]. split.
      * intros _. done.
      * intros _ _ _. rewrite !in_app_iff. right. right. by left.
Qed.

(** X11. [Puts] with an odd number of arguments never commits and never
    returns nil: it returns the error of [Begin] or of a [Set], or, when
    these are all accepted, it panics on the index past the end of the
    arguments after having [Set] every complete pair. *)
Theorem Puts_odd_arguments (args : list bytes) (h : list Call) :
  Nat.Odd (length args) ->
  let o := fst (Puts cluster args h) in
  let evs := since h (snd (Puts cluster args h)) in
  ~ In CallCommit evs /\
  (o = Panics \/ exists e, o = Returns (Some e)) /\
  (o = Panics <->
   Begin_answer cluster h = None /\ sets_accepted cluster (h ++ [CallBegin]) args) /\
  (o = Panics -> evs = CallBegin :: sets_of args).
Proof.
  intros Hodd. cbn zeta. unfold Puts, bind, client_Begin, call.
  destruct (Begin_answer cluster h) as [e|] eqn:EB.
  - simpl. rewrite since_app. split; [by intros [H|[]]|].
    split; [right; by exists e|]. split; [|done]. split; [done | by intros [? _]].
  - destruct (Puts_loop_run args (h ++ [CallBegin])%list) as (evs & Hh & Hno & Hres).
    destruct (Puts_loop cluster args (h ++ [CallBegin])) as [stop h1] eqn:EL.
    simpl in Hh, Hres. subst h1.
    destruct stop as [[[e|]|]|]; simpl.
    + rewrite <- app_assoc, since_app. split.
      { intros [H|H]; [done | by apply Hno]. }
      split; [right; by exists e|]. split; [|done].
      split; [done | by intros [_ ?]].
    + done.
    + rewrite <- app_assoc, since_app. destruct Hres as (-> & _ & Hacc). split.
      { intros [H|H]; [done | by apply Hno]. }
      split; [by left|]. done.
    + destruct Hres as (_ & Hev & _). destruct Hev as [n Hn], Hodd as [m Hm]. lia.
Qed.

Lemma Dels_loop_run (keys : list bytes) (h : list Call) :
  exists done_,
    snd (Dels_loop cluster keys h) = (h ++ map CallDelete done_)%list /\
    match fst (Dels_loop cluster keys h) with
    | None => done_ = keys /\ deletes_accepted cluster h keys
    | Some None => False
    | Some (Some e) =>
        exists pre key post,
          keys = (pre ++ key :: post)%list /\ done_ = (pre ++ [key])%list /\
          deletes_accepted cluster h pre /\
          Delete_answer cluster (h ++ map CallDelete pre) key = Some e
    end.
Proof.
  revert h. induction keys as [|key rest IH]; intros h.
  - exists []. simpl. by rewrite app_nil_r.
  - cbn [Dels_loop]. unfold bind, tx_Delete, call.
    destruct (Delete_answer cluster h key) as [e|] eqn:E.
    + exists [key]. simpl. split; [done|]. exists [], key, rest. simpl.
      by rewrite app_nil_r.
    + destruct (IH (h ++ [CallDelete key])%list) as (done_ & Hh & Hres).
      exists (key :: done_). split; [by rewrite Hh, <- app_assoc|].
      destruct (fst (Dels_loop cluster rest (h ++ [CallDelete key]))) as [[e|]|].
      * destruct Hres as (pre & k & post & -> & -> & Hacc & He).
        exists (key :: pre), k, post. simpl. repeat split; try done.
        by rewrite <- app_assoc in He.
      * done.
      * destruct Hres as [-> Hacc]. done.
Qed.

Lemma Dels_loop_fail (pre : list bytes) (key : bytes) (post : list bytes)
    (e : string) (h : list Call) :
  deletes_accepted cluster h pre ->
  Delete_answer cluster (h ++ map CallDelete pre) key = Some e ->
  Dels_loop cluster (pre ++ key :: post) h
  = (Some (Some e), h ++ map CallDelete (pre ++ [key])).
Proof.
  revert h. induction pre as [|k pre IH]; intros h; simpl.
  - intros _. rewrite app_nil_r. intros E. unfold bind, tx_Delete, call. by rewrite E.
  - intros [Ek Hacc] E. unfold bind, tx_Delete, call. rewrite Ek.
    rewrite (IH (h ++ [CallDelete k])); [by rewrite <- app_assoc | done |].
    by rewrite <- app_assoc.
Qed.

Lemma not_in_deletes (keys : list bytes) : ~ In CallCommit (map CallDelete keys).
Proof. intros H. by apply in_map_iff in H as (x & Hx & _). Qed.

(** X12. [Dels] commits only after every key was deleted: whenever
    [Commit] is called, or nil is returned, the calls were [Begin], one
    [Delete] for each key in the order given, then [Commit], and the
    result is what [Commit] returned.  The first [Delete] that fails ends
    the run with its error: the keys after it are not deleted and nothing
    is committed. *)
Theorem Dels_commits_after_all_deletes (keys : list bytes) (h : list Call) :
  let err := fst (Dels cluster keys h) in
  let evs := since h (snd (Dels cluster keys h)) in
  snd (Dels cluster keys h) = (h ++ evs)%list /\
  (In CallCommit evs \/ err = None ->
   evs = (CallBegin :: map CallDelete keys ++ [CallCommit])%list /\
   err = Commit_answer cluster (h ++ CallBegin :: map CallDelete keys)) /\
  (forall pre key post e,
     keys = (pre ++ key :: post)%list ->
     Begin_answer cluster h = None ->
     deletes_accepted cluster (h ++ [CallBegin]) pre ->
     Delete_answer cluster (h ++ CallBegin :: map CallDelete pre) key = Some e ->
     err = Some e /\ evs = CallBegin :: map CallDelete (pre ++ [key])).
Proof.
  cbn zeta. unfold Dels, bind, client_Begin, call.
  destruct (Begin_answer cluster h) as [e|] eqn:EB.
  - simpl. rewrite since_app. split; [done|]. split; [|done].
    intros [[H|[]]|H]; done.
  - split; [|split].
    + destruct (Dels_loop_run keys (h ++ [CallBegin])) as (done_ & Hh & Hres).
      destruct (Dels_loop cluster keys (h ++ [CallBegin])) as [stop h1] eqn:EL.
      simpl in Hh. subst h1.
      destruct stop as [err|]; simpl.
      * by rewrite <- app_assoc, since_app.
      * unfold tx_Commit, call. simpl. by rewrite <- !app_assoc, since_app.
    + destruct (Dels_loop_run keys (h ++ [CallBegin])) as (done_ & Hh & Hres).
      destruct (Dels_loop cluster keys (h ++ [CallBegin])) as [stop h1] eqn:EL.
      simpl in Hh, Hres. subst h1.
      destruct stop as [[e|]|]; simpl.
      * rewrite <- app_assoc, since_app.
        intros [[H|H]|H]; [done | by destruct (not_in_deletes _ H) | done].
      * done.
      * unfold tx_Commit, call. simpl. rewrite <- !app_assoc, since_app.
        destruct Hres as [-> _]. done.
    + intros pre key post e -> _ Hacc E.
      rewrite (Dels_loop_fail pre key post e); [| done |by rewrite <- app_assoc].
      simpl. by rewrite <- app_assoc, since_app.
Qed.

(** X13. [Get] and [Scan] only read: they call neither [Set] nor
    [Delete], and they never [Commit] the transaction they begin.  [Get]
    returns the zero [KV] with every error, and with a nil error the key
    it was asked for with the value the transaction returned. *)
Theorem reads_never_write (k : bytes) (limit : Z) (h : list Call) :
  (forall c, In c (since h (snd (Get cluster k h))) -> is_write c = false) /\
  (forall c, In c (since h (snd (Scan cluster k limit h))) -> is_write c = false) /\
  match fst (Get cluster k h) with
  | (kv, None) =>
      K kv = k /\ Begin_answer cluster h = None /\
      Get_answer cluster (h ++ [CallBegin]) k = Ok (V kv)
  | (kv, Some e) => kv = mkKV [] []
  end.
Proof.
  unfold Get, Scan, bind, client_Begin, tx_Get, tx_Iter, it_Close, call.
  destruct (Begin_answer cluster h) as [e|]; simpl.
  - rewrite since_app. split; [|split; [|done]]; by intros c [<-|[]].
  - destruct (Get_answer cluster (h ++ [CallBegin]) k) as [v|e]; simpl;
      (split; [|split; [|done]]).
    all: try (rewrite <- app_assoc, since_app; by intros c [<-|[<-|[]]]).
    all: destruct (Iter_answer cluster (h ++ [CallBegin]) k None) as [it|e']; simpl;
      rewrite <- ?app_assoc, since_app; simpl;
      intros c H; repeat (destruct H as [<-|H]; [done|]); done.
Qed.

Lemma Scan_loop_take (it : list KV) (limit : Z) (acc : list KV) :
  Scan_loop it limit acc = acc ++ take (Z.to_nat limit) it.
Proof.
  revert limit acc. induction it as [|kv it IH]; intros limit acc; simpl.
  - by rewrite take_nil, app_nil_r.
  - destruct (Z.ltb_spec 0 limit) as [Hl|Hl].
    + rewrite IH. replace (Z.to_nat limit) with (S (Z.to_nat (limit - 1))) by lia.
      simpl. rewrite <- app_assoc. by destruct kv.
    + replace (Z.to_nat limit) with 0%nat by lia. by rewrite app_nil_r.
Qed.

(** X14. When the transaction begins and the iterator is obtained,
    [Scan] returns, with a nil error, the first [limit] entries the
    iterator yields, all of them when there are fewer, and none when
    [limit] is not positive; nothing is filtered by the prefix.  The
    iterator is asked for with the prefix as lower bound and no upper
    bound, and it is closed once, as the last call. *)
Theorem Scan_returns_first_entries (keyPrefix : bytes) (limit : Z) (h : list Call)
    (it : list KV) :
  Begin_answer cluster h = None ->
  Iter_answer cluster (h ++ [CallBegin]) keyPrefix None = Ok it ->
  Scan cluster keyPrefix limit h
  = ((take (Z.to_nat limit) it, None),
     h ++ [CallBegin; CallIter keyPrefix None; CallClose]) /\
  (length (fst (fst (Scan cluster keyPrefix limit h))) <= Z.to_nat limit)%nat /\
  (limit <= 0 -> fst (fst (Scan cluster keyPrefix limit h)) = []).
Proof.
  intros EB EI.
  assert (Scan cluster keyPrefix limit h
          = ((take (Z.to_nat limit) it, None),
             h ++ [CallBegin; CallIter keyPrefix None; CallClose])) as E.
  { unfold Scan, bind, client_Begin, tx_Iter, it_Close, call. rewrite EB, EI. simpl.
    rewrite Scan_loop_take, <- !app_assoc. done. }
  rewrite E. simpl. split; [done|]. split.
  - rewrite length_take. lia.
  - intros Hl. by replace (Z.to_nat limit) with 0%nat by lia.
Qed.

(** X15. A [Scan] that cannot begin a transaction or cannot obtain the
    iterator returns a nil slice with that error and closes nothing. *)
Theorem Scan_failure_closes_nothing (keyPrefix : bytes) (limit : Z) (h : list Call)
    (e : string) :
  Begin_answer cluster h = Some e \/
  (Begin_answer cluster h = None /\
   Iter_answer cluster (h ++ [CallBegin]) keyPrefix None = Err e) ->
  fst (Scan cluster keyPrefix limit h) = ([], Some e) /\
  ~ In CallClose (since h (snd (Scan cluster keyPrefix limit h))).
Proof.
  unfold Scan, bind, client_Begin, tx_Iter, it_Close, call.
  intros [EB|[EB EI]].
  - rewrite EB. simpl. rewrite since_app. split; [done|]. by intros [H|[]].
  - rewrite EB, EI. simpl. rewrite <- app_assoc, since_app. split; [done|].
    by intros [H|[H|[]]].
Qed.

End TikvProperties.

(** * Properties of the aiozfs plugin *)

Section AiozfsProperties.

Import aiozfs.

Context {SL : ShardLib}.

Lemma assert_string_true (v : option any) (s : string) :
  assert_string v = (s, true) <-> v = Some (AString s).
Proof.
  destruct v as [[| | | |]|]; simpl; split; intros H; try done.
  - by injection H as ->.
  - by injection H as ->.
Qed.

Lemma assert_bool_true (v : option any) (b : bool) :
  assert_bool v = (b, true) <-> v = Some (ABool b).
Proof.
  destruct v as [[| | | |]|]; simpl; split; intros H; try done.
  - by injection H as ->.
  - by injection H as ->.
Qed.

Lemma parser_accepts_fields (params : gmap string any) (c : datastoreConfig) :
  DatastoreConfigParser params = Ok c ->
  params !! "path" = Some (AString (path c)) /\
  (exists s, params !! "shardFunc" = Some (AString s) /\
             ParseShardFunc s = Ok (shardFun c)) /\
  params !! "sync" = Some (ABool (syncField c)).
Proof.
  unfold DatastoreConfigParser.
  destruct (assert_string (params !! "path")) as [p [|]] eqn:Ep; [|done].
  destruct (assert_string (params !! "shardFunc")) as [s [|]] eqn:Es; [|done].
  simpl. destruct (ParseShardFunc s) as [f|e] eqn:Ef; [|done].
  destruct (assert_bool (params !! "sync")) as [b [|]] eqn:Eb; [|done].
  simpl. intros [= <-]. simpl.
  apply assert_string_true in Ep, Es. apply assert_bool_true in Eb.
  split; [done|]. split; [|done]. by exists s.
Qed.

Lemma parser_accepts_of_fields (params : gmap string any) (p s : string)
    (f : ShardIdV1) (b : bool) :
  params !! "path" = Some (AString p) ->
  params !! "shardFunc" = Some (AString s) ->
  ParseShardFunc s = Ok f ->
  params !! "sync" = Some (ABool b) ->
  DatastoreConfigParser params = Ok (mkDatastoreConfig p f b).
Proof.
  intros Hp Hs Hf Hb. unfold DatastoreConfigParser. rewrite Hp, Hs, Hb. simpl.
  by rewrite Hf.
Qed.

(** X16. The parser accepts a parameter map exactly when [path] holds a
    string, [shardFunc] holds a string that the library parses, and
    [sync] holds a boolean; the configuration it returns holds these
    three values. *)
Theorem DatastoreConfigParser_accepts_iff (params : gmap string any)
    (c : datastoreConfig) :
  DatastoreConfigParser params = Ok c <->
  params !! "path" = Some (AString (path c)) /\
  (exists s, params !! "shardFunc" = Some (AString s) /\
             ParseShardFunc s = Ok (shardFun c)) /\
  params !! "sync" = Some (ABool (syncField c)).
Proof.
  split.
  - apply parser_accepts_fields.
  - intros (Hp & (s & Hs & Hf) & Hb). destruct c as [p f b]. simpl in *.
    by apply (parser_accepts_of_fields params p s f b).
Qed.

(** X17. The error of a rejected map is that of the first field that
    fails, in the order [path], [shardFunc], [sync]: a [path] that is
    missing or not a string is reported (as 'missing or not boolean')
    whatever the other fields hold, the error of the library's parser is
    passed on unchanged, and [sync] is looked at last. *)
Theorem DatastoreConfigParser_first_failure (params : gmap string any) :
  ((forall s, params !! "path" <> Some (AString s)) ->
   DatastoreConfigParser params = Err "'path' field is missing or not boolean") /\
  (forall p,
     params !! "path" = Some (AString p) ->
     (forall s, params !! "shardFunc" <> Some (AString s)) ->
     DatastoreConfigParser params = Err "'shardFunc' field is missing or not a string") /\
  (forall p s e,
     params !! "path" = Some (AString p) ->
     params !! "shardFunc" = Some (AString s) ->
     ParseShardFunc s = Err e ->
     DatastoreConfigParser params = Err e) /\
  (forall p s f,
     params !! "path" = Some (AString p) ->
     params !! "shardFunc" = Some (AString s) ->
     ParseShardFunc s = Ok f ->
     (forall b, params !! "sync" <> Some (ABool b)) ->
     DatastoreConfigParser params = Err "'sync' field is missing or not boolean").
Proof.
  unfold DatastoreConfigParser. split; [|split; [|split]].
  - intros H. destruct (params !! "path") as [[s| | | |]|]; try done. by destruct (H s).
  - intros p -> H. simpl.
    destruct (params !! "shardFunc") as [[s| | | |]|]; try done. by destruct (H s).
  - intros p s e -> -> E. simpl. by rewrite E.
  - intros p s f -> -> E H. simpl. rewrite E.
    destruct (params !! "sync") as [[|b| | |]|]; try done. by destruct (H b).
Qed.

(** X18. The parser reads the three keys [path], [shardFunc] and [sync]
    and nothing else: two maps that agree on them get the same answer, so
    further keys, the [type] key among them, are ignored. *)
Theorem DatastoreConfigParser_reads_three_keys (params params' : gmap string any) :
  params !! "path" = params' !! "path" ->
  params !! "shardFunc" = params' !! "shardFunc" ->
  params !! "sync" = params' !! "sync" ->
  DatastoreConfigParser params = DatastoreConfigParser params'.
Proof. unfold DatastoreConfigParser. by intros -> -> ->. Qed.

(** X19. The disk specification names the datastore type, the path and
    the shard function and nothing else; it does not depend on the sync
    flag.  The parser therefore never accepts a disk specification: when
    the shard function prints to a string the library parses, a disk
    specification is rejected for its missing [sync] field. *)
Theorem DiskSpec_drops_sync (c : datastoreConfig) :
  dom (DiskSpec c) = ({["type"; "path"; "shardFunc"]} : gset string) /\
  DiskSpec c !! "type" = Some (AString DatastoreTypeName) /\
  (forall b, DiskSpec (mkDatastoreConfig (path c) (shardFun c) b) = DiskSpec c) /\
  (forall c', DatastoreConfigParser (DiskSpec c) <> Ok c') /\
  (forall f, ParseShardFunc (ShardIdV1_String (shardFun c)) = Ok f ->
     DatastoreConfigParser (DiskSpec c)
     = Err "'sync' field is missing or not boolean").
Proof.
  split; [|split; [|split; [|split]]].
  - unfold DiskSpec. rewrite !dom_insert_L, dom_empty_L. set_solver.
  - done.
  - done.
  - intros c' H. apply parser_accepts_fields in H as (_ & _ & H).
    unfold DiskSpec in H. rewrite !lookup_insert_ne in H by done.
    by rewrite lookup_empty in H.
  - intros f Hf. unfold DatastoreConfigParser, DiskSpec.
    rewrite lookup_insert_ne, lookup_insert by done. simpl.
    rewrite lookup_insert_ne, lookup_insert_ne, lookup_insert by done. simpl.
    rewrite Hf. done.
Qed.

(** X20. Parsing and printing agree on what they share.  For an accepted
    map whose shard function the library prints back as it was written,
    the disk specification of the parsed configuration repeats the map's
    [path] and [shardFunc] entries. *)
Theorem DiskSpec_of_parsed (params : gmap string any) (c : datastoreConfig) (s : string) :
  DatastoreConfigParser params = Ok c ->
  params !! "shardFunc" = Some (AString s) ->
  ShardIdV1_String (shardFun c) = s ->
  DiskSpec c !! "path" = params !! "path" /\
  DiskSpec c !! "shardFunc" = params !! "shardFunc".
Proof.
  intros H Hs Hprint. apply parser_accepts_fields in H as (Hp & _ & _).
  rewrite Hp, Hs. unfold DiskSpec.
  rewrite lookup_insert_ne, lookup_insert by done.
  rewrite lookup_insert_ne, lookup_insert_ne, lookup_insert by done.
  by rewrite Hprint.
Qed.

End AiozfsProperties.

(** * Properties of the init command *)

Section InitProperties.

Import Calls initcmd.

Variable Config : Type.
Variable sys : System Config.

Lemma Split_free (sep : ascii) (s : string) :
  free_of sep s = true -> Split s sep = [s].
Proof.
  induction s as [|a s IH]; simpl; [done|].
  destruct (Ascii.eqb a sep); simpl; [done|]. intros H. by rewrite IH.
Qed.

Lemma Split_app_sep (sep : ascii) (e t : string) :
  free_of sep e = true -> Split (e ++ String sep t) sep = e :: Split t sep.
Proof.
  induction e as [|a e IH].
  - intros _. change (EmptyString ++ String sep t) with (String sep t).
    simpl. by rewrite Ascii.eqb_refl.
  - rewrite append_String. simpl.
    destruct (Ascii.eqb a sep); simpl; [done|]. intros H. by rewrite IH.
Qed.

Lemma Split_Join (sep : ascii) (names : list string) :
  names <> [] ->
  Forall (fun name => free_of sep name = true) names ->
  Split (Join names sep) sep = names.
Proof.
  induction names as [|e names IH]; [done|]. intros _ Hfree.
  apply Forall_cons in Hfree as [He Hfree].
  destruct names as [|e' names].
  - simpl. by apply Split_free.
  - change (Join (e :: e' :: names) sep)
      with (e ++ String sep (Join (e' :: names) sep)).
    rewrite Split_app_sep by done. by rewrite IH.
Qed.

Lemma Join_empty (sep : ascii) (names : list string) :
  names <> [] -> Join names sep = EmptyString -> names = [EmptyString].
Proof.
  destruct names as [|e [|e' names]]; [done| |].
  - simpl. by intros _ ->.
  - intros _. change (Join (e :: e' :: names) sep)
      with (e ++ String sep (Join (e' :: names) sep)).
    by destruct e.
Qed.

Lemma applyProfiles_loop_app (pre rest : list string) (conf : Config) :
  applyProfiles_loop sys (pre ++ rest)%list conf =
  match applyProfiles_loop sys pre conf with
  | (None, conf') => applyProfiles_loop sys rest conf'
  | failed => failed
  end.
Proof.
  revert conf. induction pre as [|name pre IH]; intros conf; simpl; [done|].
  destruct (Profiles Config sys !! name) as [transformer|]; [|done].
  destruct (transformer conf) as [[err|] conf']; [done|]. apply IH.
Qed.

(** X21. The profiles applied are the comma-separated pieces of the
    option, empty pieces included, from left to right: for names that hold
    no comma, [applyProfiles] on their join runs the loop over exactly
    these names.  The empty option alone applies nothing and succeeds,
    although the empty name is looked up like any other when it stands
    beside a comma. *)
Theorem applyProfiles_reads_names (conf : Config) (names : list string) :
  names <> [] ->
  Forall (fun name => free_of comma name = true) names ->
  applyProfiles sys conf (Join names comma)
  = if decide (names = [EmptyString]) then (None, conf)
    else applyProfiles_loop sys names conf.
Proof.
  intros Hne Hfree. unfold applyProfiles.
  destruct (String.eqb_spec (Join names comma) EmptyString) as [E|E].
  - apply Join_empty in E; [|done]. by rewrite decide_True.
  - rewrite decide_False; [|by intros ->]. by rewrite Split_Join.
Qed.

(** X22. The first name that is no profile ends [applyProfiles] with an
    error that names it.  The profiles before it have been applied by
    then and stay applied to the configuration; the names after it are
    not looked at. *)
Theorem applyProfiles_first_unknown (conf conf' : Config)
    (pre : list string) (name : string) (post : list string) :
  Forall (fun name => free_of comma name = true) (pre ++ name :: post)%list ->
  (pre ++ name :: post)%list <> [EmptyString] ->
  applyProfiles_loop sys pre conf = (None, conf') ->
  Profiles Config sys !! name = None ->
  applyProfiles sys conf (Join (pre ++ name :: post)%list comma)
  = (Some (errors_New ("invalid configuration profile: " ++ name)), conf').
Proof.
  intros Hfree Hne Hpre Hname. unfold applyProfiles.
  destruct (String.eqb_spec (Join (pre ++ name :: post) comma) EmptyString) as [E|E].
  { apply Join_empty in E; [done | by destruct pre]. }
  rewrite Split_Join; [|by destruct pre|done].
  rewrite applyProfiles_loop_app, Hpre. simpl. by rewrite Hname.
Qed.

(** X23. [checkWritable] returns nil in two cases only: the directory
    exists and the test file in it was created and then removed, or the
    directory does not exist and was created. *)
Theorem checkWritable_nil_iff (dir : string) (h : list (Call Config)) :
  let testfile := filepath_Join Config sys dir "test" in
  fst (checkWritable sys dir h) = None <->
  (Stat_answer Config sys h dir = None /\
   Create_answer Config sys (h ++ [Stat dir])%list testfile = None /\
   Remove_answer Config sys
     (h ++ [Stat dir; Create testfile; FileClose testfile])%list testfile = None) \/
  (exists err, Stat_answer Config sys h dir = Some err /\
               os_IsNotExist err = true /\
               Mkdir_answer Config sys (h ++ [Stat dir])%list dir 509 = None).
Proof.
  cbn zeta. unfold checkWritable, bind, os_Stat, os_Create, File_Close, os_Remove,
    os_Mkdir, call, ret.
  destruct (Stat_answer Config sys h dir) as [err|] eqn:ES.
  - destruct (os_IsNotExist err) eqn:EN.
    + simpl. split.
      * intros H. right. by exists err.
      * intros [(H & _)|(err' & [= <-] & _ & H)]; done.
    + destruct (os_IsPermission err); simpl; split; try done.
      * intros [(H & _)|(err' & [= <-] & H & _)]; congruence.
      * intros [(H & _)|(err' & [= <-] & H & _)]; congruence.
  - destruct (Create_answer Config sys (h ++ [Stat dir])%list
                (filepath_Join Config sys dir "test")) as [err|] eqn:EC.
    + destruct (os_IsPermission err); simpl; split; try done.
      * intros [(_ & H & _)|(err' & H & _)]; done.
      * intros [(_ & H & _)|(err' & H & _)]; done.
    + simpl. rewrite <- !app_assoc. simpl. split.
      * intros H. by left.
      * intros [(_ & _ & H)|(err' & H & _)]; done.
Qed.

Ltac in_cases H :=
  simpl in H; rewrite ?in_app_iff in H; simpl in H;
  repeat match type of H with
         | _ \/ _ => destruct H as [H|H]
         | False => destruct H
         end.

(** X24. What [checkWritable] does to the file system.  Its calls are
    one of four sequences.  A test file that was created is closed and
    removed before the function returns, and is never created in a
    directory that [Stat] did not find; the directory is made only when
    [Stat] reports that it does not exist, with mode 0775.  When [Stat]
    fails for missing permission nothing is created, and the message
    quotes the error of [Stat] where the name of the directory would
    stand.  In full: the only file created is the test file, and only
    after [Stat] succeeded; [Close] and [Remove] are called exactly when
    it was created, on that file, and the result is then that of
    [Remove]; when it cannot be created nothing else is called and the
    error says so; the only directory made is the one asked about, and
    the result is then that of [Mkdir]; and after any other failure of
    [Stat] that call is the only one, its error being returned as it is
    unless it is one of missing permission. *)
Theorem checkWritable_footprint (dir : string) (h : list (Call Config)) :
  let testfile := filepath_Join Config sys dir "test" in
  let err := fst (checkWritable sys dir h) in
  let evs := since h (snd (checkWritable sys dir h)) in
  snd (checkWritable sys dir h) = (h ++ evs)%list /\
  (evs = [Stat dir; Create testfile; FileClose testfile; Remove testfile] \/
   evs = [Stat dir; Create testfile] \/
   evs = [Stat dir; Mkdir dir 509] \/
   evs = [Stat dir]) /\
  (Stat_answer Config sys h dir = None ->
   Create_answer Config sys (h ++ [Stat dir])%list testfile = None ->
   evs = [Stat dir; Create testfile; FileClose testfile; Remove testfile]) /\
  (In (Mkdir dir 509) evs <->
   exists e, Stat_answer Config sys h dir = Some e /\ os_IsNotExist e = true) /\
  (forall e, Stat_answer Config sys h dir = Some e ->
     kind e = ErrPermission ->
     evs = [Stat dir] /\
     err = Some (errors_New ("cannot write to " ++ Error e ++ ", incorrect permissions"))) /\
  (forall name, In (Create name) evs ->
     name = testfile /\ Stat_answer Config sys h dir = None) /\
  (forall name, In (FileClose name) evs \/ In (Remove name) evs ->
     name = testfile /\
     Stat_answer Config sys h dir = None /\
     Create_answer Config sys (h ++ [Stat dir])%list testfile = None) /\
  (Stat_answer Config sys h dir = None ->
   Create_answer Config sys (h ++ [Stat dir])%list testfile = None ->
   err = Remove_answer Config sys
           (h ++ [Stat dir; Create testfile; FileClose testfile])%list testfile) /\
  (forall e, Stat_answer Config sys h dir = None ->
     Create_answer Config sys (h ++ [Stat dir])%list testfile = Some e ->
     evs = [Stat dir; Create testfile] /\
     err = Some (errors_New
             (if os_IsPermission e
              then dir ++ " is not writeable by the current user"
              else "unexpected error while checking writeablility of repo root: "
                   ++ Error e))) /\
  (forall name perm, In (Mkdir name perm) evs ->
     name = dir /\ perm = 509 /\
     err = Mkdir_answer Config sys (h ++ [Stat dir])%list dir 509 /\
     exists e, Stat_answer Config sys h dir = Some e /\ os_IsNotExist e = true) /\
  (forall e, Stat_answer Config sys h dir = Some e ->
     os_IsNotExist e = false ->
     evs = [Stat dir] /\ (os_IsPermission e = false -> err = Some e)).
Proof.
  cbn zeta. unfold checkWritable, bind, os_Stat, os_Create, File_Close, os_Remove,
    os_Mkdir, call, ret.
  destruct (Stat_answer Config sys h dir) as [err|] eqn:ES.
  - unfold os_IsNotExist, os_IsPermission.
    destruct err as [msg [| |]]; simpl; rewrite <- ?app_assoc, since_app; simpl.
    + split; [done|]. split; [by do 3 right|]. split; [done|]. split.
      { split; [by intros [H|[]] | by intros (e & [= <-] & H)]. }
      split; [by intros e [= <-] _|].
      split; [intros name H; in_cases H; done|].
      split; [intros name [H|H]; in_cases H; done|].
      split; [done|]. split; [done|].
      split; [intros name perm H; in_cases H; done|].
      by intros e [= <-] _.
    + split; [done|]. split; [by right; right; left|]. split; [done|]. split.
      { split; [intros _; by eexists | intros _; right; by left]. }
      split; [by intros e [= <-] H|].
      split; [intros name H; in_cases H; done|].
      split; [intros name [H|H]; in_cases H; done|].
      split; [done|]. split; [done|]. split.
      { intros name perm H. in_cases H; [done|]. injection H as <- <-.
        split; [done|]. split; [done|]. split; [done|]. by eexists. }
      by intros e [= <-] H.
    + split; [done|]. split; [by do 3 right|]. split; [done|]. split.
      { split; [by intros [H|[]] | by intros (e & [= <-] & H)]. }
      split; [by intros e [= <-] H|].
      split; [intros name H; in_cases H; done|].
      split; [intros name [H|H]; in_cases H; done|].
      split; [done|]. split; [done|].
      split; [intros name perm H; in_cases H; done|].
      by intros e [= <-] _.
  - destruct (Create_answer Config sys (h ++ [Stat dir])%list
                (filepath_Join Config sys dir "test")) as [err|] eqn:EC.
    + destruct (os_IsPermission err) eqn:EP; simpl; rewrite <- ?app_assoc, since_app; simpl.
      all: split; [done|]; split; [by right; left|]; split; [done|]; split;
        [split; [by intros [H|[H|[]]] | by intros (e & H & _)]|];
        split; [done|];
        split; [intros name H; in_cases H; [done|]; by injection H as <-|];
        split; [intros name [H|H]; in_cases H; done|];
        split; [done|];
        split; [intros e _ [= <-]; by rewrite EP|];
        split; [intros name perm H; in_cases H; done|]; done.
    + simpl. rewrite <- !app_assoc, since_app. simpl.
      split; [done|]. split; [by left|]. split; [done|]. split.
      { split; [by intros [H|[H|[H|[H|[]]]]] | by intros (e & H & _)]. }
      split; [done|].
      split; [intros name H; in_cases H; try done; by injection H as <-|].
      split; [intros name [H|H]; in_cases H; try done; by injection H as <-|].
      split; [done|]. split; [done|].
      split; [intros name perm H; in_cases H; done|]. done.
Qed.

Ltac run_answers :=
  repeat match goal with
         | |- context [match ?a with _ => _ end] =>
             lazymatch a with
             | context [match _ with _ => _ end] => fail
             | _ => destruct a eqn:?
             end
         end.

Lemma checkWritable_run (dir : string) (h : list (Call Config)) :
  let evs := since h (snd (checkWritable sys dir h)) in
  snd (checkWritable sys dir h) = (h ++ evs)%list /\
  Forall (fun c => prepares c = true) evs.
Proof.
  cbn zeta. unfold checkWritable, bind, os_Stat, os_Create, File_Close, os_Remove,
    os_Mkdir, call, ret.
  run_answers; simpl; rewrite <- ?app_assoc, since_app; simpl;
    (split; [done|]); repeat constructor.
Qed.

Lemma addDefaultAssets_run (repoRoot : string) (h : list (Call Config)) :
  let evs := since h (snd (addDefaultAssets sys repoRoot h)) in
  snd (addDefaultAssets sys repoRoot h) = (h ++ evs)%list /\
  Forall (fun c => is_node_call c = true) evs /\
  (fst (addDefaultAssets sys repoRoot h) = None ->
   In SeedInitDocs evs /\ last evs = Some NodeClose).
Proof.
  cbn zeta. unfold addDefaultAssets, deferred_Close, bind, fsrepo_Open, core_NewNode,
    nd_Close, assets_SeedInitDocs, log_Debugf, fmt_Fprintf, call, ret.
  run_answers; simpl; rewrite <- ?app_assoc, since_app; simpl;
    (split; [done|]); (split; [repeat constructor|]); try done.
  all: intros _; split; [tauto | done].
Qed.

Lemma initializeIpnsKeyspace_run (repoRoot : string) (h : list (Call Config)) :
  let evs := since h (snd (initializeIpnsKeyspace sys repoRoot h)) in
  snd (initializeIpnsKeyspace sys repoRoot h) = (h ++ evs)%list /\
  Forall (fun c => is_node_call c = true) evs /\
  ~ In SeedInitDocs evs /\
  (fst (initializeIpnsKeyspace sys repoRoot h) = None ->
   In Publish evs /\ last evs = Some NodeClose).
Proof.
  cbn zeta. unfold initializeIpnsKeyspace, deferred_Close, bind, fsrepo_Open,
    core_NewNode, nd_Close, Pinning_Pin, Pinning_Flush, Namesys_Publish, call, ret.
  run_answers; simpl; rewrite <- ?app_assoc, since_app; simpl;
    (split; [done|]); (split; [repeat constructor|]);
    (split; [intros H; in_cases H; done|]); try done.
  all: intros _; split; [tauto | done].
Qed.

(** X25. Both functions that build a node close it on every path.  Once
    the repository is opened and the node constructed, the calls of
    [addDefaultAssets] and of [initializeIpnsKeyspace] end with the one
    [Close] of the node, whatever fails in between; when the repository
    cannot be opened or the node cannot be constructed, no [Close] is
    called. *)
Theorem node_closed_on_every_path (assets : bool) (repoRoot : string)
    (h : list (Call Config)) :
  let run := if assets then addDefaultAssets sys repoRoot h
             else initializeIpnsKeyspace sys repoRoot h in
  let evs := since h (snd run) in
  let built := Open_answer Config sys h repoRoot = None /\
               NewNode_answer Config sys (h ++ [FsrepoOpen repoRoot])%list = None in
  (built ->
   exists body, evs = (FsrepoOpen repoRoot :: NewNode :: body ++ [NodeClose])%list /\
                ~ In NodeClose body) /\
  (In NodeClose evs -> built).
Proof.
  cbn zeta. destruct assets.
  - unfold addDefaultAssets, deferred_Close, bind, fsrepo_Open, core_NewNode,
      nd_Close, assets_SeedInitDocs, log_Debugf, fmt_Fprintf, call, ret.
    destruct (Open_answer Config sys h repoRoot) as [e|] eqn:EO; simpl.
    { rewrite since_app. split; [by intros [H _]|]. by intros [H|[]]. }
    destruct (NewNode_answer Config sys (h ++ [FsrepoOpen repoRoot])%list) as [e|] eqn:EN;
      simpl.
    { rewrite <- app_assoc, since_app. split; [by intros [_ H]|]. by intros [H|[H|[]]]. }
    split; [intros _|done].
    run_answers; simpl; rewrite <- ?app_assoc, since_app; simpl.
    + by exists [SeedInitDocs; Debugf ("init: seeded init docs " ++ s);
                 Fprintf ("to get started, enter:" ++ nl)];
        split; [|intros H; in_cases H].
    + by eexists [SeedInitDocs; Debugf _; Fprintf _; Fprintf _];
        split; [|intros H; in_cases H].
    + by exists [SeedInitDocs]; split; [|intros H; in_cases H].
  - unfold initializeIpnsKeyspace, deferred_Close, bind, fsrepo_Open,
      core_NewNode, nd_Close, Pinning_Pin, Pinning_Flush, Namesys_Publish, call, ret.
    destruct (Open_answer Config sys h repoRoot) as [e|] eqn:EO; simpl.
    { rewrite since_app. split; [by intros [H _]|]. by intros [H|[]]. }
    destruct (NewNode_answer Config sys (h ++ [FsrepoOpen repoRoot])%list) as [e|] eqn:EN;
      simpl.
    { rewrite <- app_assoc, since_app. split; [by intros [_ H]|]. by intros [H|[H|[]]]. }
    split; [intros _|done].
    run_answers; simpl; rewrite <- ?app_assoc, since_app; simpl.
    + by exists [Pin true]; split; [|intros H; in_cases H].
    + by exists [Pin true; Flush]; split; [|intros H; in_cases H].
    + by exists [Pin true; Flush; Publish]; split; [|intros H; in_cases H].
Qed.

Lemma last_app_Some {A : Type} (l post : list A) (x : A) :
  last post = Some x -> last (l ++ post)%list = Some x.
Proof.
  intros H. induction l as [|a l IH]; [done|].
  simpl. destruct (l ++ post)%list eqn:E; [|done].
  apply app_eq_nil in E as [_ ->]. done.
Qed.

Lemma node_call_not_init (c : Call Config) :
  is_node_call c = true -> is_FsrepoInit c = false.
Proof. by destruct c. Qed.

Lemma doInit_run (repoRoot : string) (empty : bool) (confProfiles : string)
    (conf : Config) (h : list (Call Config)) :
  let r := doInit sys repoRoot empty confProfiles conf h in
  exists pre,
    Forall (fun c => prepares c = true) pre /\
    ((exists e, r = ((Some e, conf), (h ++ pre)%list)) \/
     (IsInitialized_answer Config sys (h ++ pre)%list repoRoot = true /\
      r = ((Some errRepoExists, conf), (h ++ pre ++ [IsInitialized repoRoot])%list)) \/
     (IsInitialized_answer Config sys (h ++ pre)%list repoRoot = false /\
      exists e conf',
        applyProfiles sys conf confProfiles = (Some e, conf') /\
        r = ((Some e, conf'), (h ++ pre ++ [IsInitialized repoRoot])%list)) \/
     (IsInitialized_answer Config sys (h ++ pre)%list repoRoot = false /\
      exists c post,
        applyProfiles sys conf confProfiles = (None, c) /\
        Forall (fun c => is_node_call c = true) post /\
        snd r = (h ++ pre ++ IsInitialized repoRoot :: FsrepoInit repoRoot c :: post)%list /\
        snd (fst r) = c /\
        (empty = true -> ~ In SeedInitDocs post) /\
        (fst (fst r) = None ->
         In Publish post /\ last post = Some NodeClose /\
         (empty = false -> In SeedInitDocs post)))).
Proof.
  cbn zeta. unfold doInit, bind, fmt_Fprintf, fsrepo_IsInitialized, fsrepo_Init, call.
  set (line := "initializing IPFS node at " ++ repoRoot ++ nl).
  destruct (Fprintf_answer Config sys h line) as [e|] eqn:EF.
  { exists [Fprintf line]. split; [by repeat constructor|]. left. by exists e. }
  destruct (checkWritable_run repoRoot (h ++ [Fprintf line])%list) as [Hh Hpre].
  destruct (checkWritable sys repoRoot (h ++ [Fprintf line])%list) as [err h2] eqn:EW.
  simpl in Hh, Hpre.
  remember (since (h ++ [Fprintf line])%list h2) as evs eqn:Eevs. clear Eevs.
  exists (Fprintf line :: evs). split; [by constructor|].
  assert (h2 = (h ++ Fprintf line :: evs)%list) as -> by (by rewrite Hh, <- app_assoc).
  destruct err as [e|].
  { left. by exists e. }
  right. simpl.
  destruct (IsInitialized_answer Config sys (h ++ Fprintf line :: evs) repoRoot) eqn:EI.
  { left. split; [done|]. unfold ret. by rewrite <- app_assoc. }
  right. destruct (applyProfiles sys conf confProfiles) as [[e|] c] eqn:EP.
  { left. split; [done|]. exists e, c. split; [done|]. unfold ret.
    by rewrite <- app_assoc. }
  right. split; [done|]. exists c.
  set (h3 := ((h ++ Fprintf line :: evs) ++ [IsInitialized repoRoot])%list).
  destruct (Init_answer Config sys h3 repoRoot c) as [e|] eqn:EN.
  { exists []. simpl. split; [done|]. split; [done|].
    split; [unfold h3; by rewrite <- !app_assoc|]. split; [done|].
    split; [by intros _ []|done]. }
  set (h4 := (h3 ++ [FsrepoInit repoRoot c])%list).
  assert (h4 = (h ++ (Fprintf line :: evs) ++ [IsInitialized repoRoot;
                 FsrepoInit repoRoot c])%list) as Eh4.
  { unfold h4, h3. by rewrite <- !app_assoc. }
  destruct empty; simpl.
  - destruct (initializeIpnsKeyspace_run repoRoot h4) as (Hk & Hnode & Hseed & Hnil).
    destruct (initializeIpnsKeyspace sys repoRoot h4) as [err h5] eqn:EK.
    simpl in Hk, Hnode, Hseed, Hnil.
    remember (since h4 h5) as post eqn:Epost. clear Epost.
    exists post. split; [done|]. split; [done|]. simpl. split.
    { rewrite Hk, Eh4, <- !app_assoc. done. }
    split; [done|]. split; [done|]. intros ->.
    destruct (Hnil eq_refl) as [? ?]. done.
  - destruct (addDefaultAssets_run repoRoot h4) as (Ha & Hanode & Hanil).
    destruct (addDefaultAssets sys repoRoot h4) as [err h5] eqn:EA.
    simpl in Ha, Hanode, Hanil.
    remember (since h4 h5) as seeded eqn:Eseeded. clear Eseeded.
    destruct err as [e|].
    { exists seeded. split; [done|]. split; [done|]. simpl. split.
      { rewrite Ha, Eh4, <- !app_assoc. done. }
      done. }
    destruct (initializeIpnsKeyspace_run repoRoot h5) as (Hk & Hnode & Hseed & Hnil).
    destruct (initializeIpnsKeyspace sys repoRoot h5) as [err h6] eqn:EK.
    simpl in Hk, Hnode, Hseed, Hnil.
    remember (since h5 h6) as post eqn:Epost. clear Epost.
    exists (seeded ++ post)%list. split; [done|].
    split; [by apply Forall_app|]. simpl. split.
    { rewrite Hk, Ha, Eh4, <- !app_assoc. done. }
    split; [done|]. split; [done|]. intros ->.
    destruct (Hnil eq_refl) as [Hpub Hlast]. destruct (Hanil eq_refl) as [Hs _].
    split; [apply in_or_app; by right|].
    split; [by apply last_app_Some|]. intros _. apply in_or_app. by left.
Qed.

Lemma prepares_no_mention (pre : list (Call Config)) (c : Call Config) :
  Forall (fun c => prepares c = true) pre -> In c pre -> prepares c = true.
Proof. intros H Hin. by apply (proj1 (List.Forall_forall _ _) H). Qed.

(** X26. [doInit] leaves an initialised repository alone.  When
    [fsrepo.IsInitialized] answers true for the root, [doInit] returns an
    error, the existing-repository error whenever it got as far as asking,
    it leaves the configuration as it was given, and it calls none of
    [fsrepo.Init], [fsrepo.Open], the node construction, seeding, pinning
    or publishing. *)
Theorem doInit_keeps_existing_repo (repoRoot : string) (empty : bool)
    (confProfiles : string) (conf : Config) (h : list (Call Config)) :
  (forall h', IsInitialized_answer Config sys h' repoRoot = true) ->
  let r := doInit sys repoRoot empty confProfiles conf h in
  let evs := since h (snd r) in
  fst (fst r) <> None /\
  snd (fst r) = conf /\
  (forall c, In c evs -> touches_repo c = false) /\
  (In (IsInitialized repoRoot) evs -> fst (fst r) = Some errRepoExists).
Proof.
  intros Hinit. cbn zeta.
  destruct (doInit_run repoRoot empty confProfiles conf h)
    as (pre & Hpre & [(e & E)|[(_ & E)|[(Hf & _)|(Hf & _)]]]);
    try (rewrite Hinit in Hf; done); rewrite E; simpl; rewrite since_app.
  - split; [done|]. split; [done|]. split.
    + intros c Hc. apply (prepares_no_mention _ _ Hpre) in Hc. by destruct c.
    + intros Hc. by apply (prepares_no_mention _ _ Hpre) in Hc.
  - split; [done|]. split; [done|]. split; [|done].
    intros c Hc. apply in_app_or in Hc as [Hc|[<-|[]]]; [|done].
    apply (prepares_no_mention _ _ Hpre) in Hc. by destruct c.
Qed.

(** X27. [fsrepo.Init] is guarded.  [doInit] calls it at most once, for
    the root it was given, right after [fsrepo.IsInitialized] answered
    false, and only when every profile was applied without error; what it
    writes is the configuration as the profiles left it, which is also the
    state the caller's configuration is in afterwards. *)
Theorem doInit_init_guarded (repoRoot : string) (empty : bool)
    (confProfiles : string) (conf : Config) (h : list (Call Config))
    (root : string) (c : Config) :
  let r := doInit sys repoRoot empty confProfiles conf h in
  let evs := since h (snd r) in
  In (FsrepoInit root c) evs ->
  root = repoRoot /\
  applyProfiles sys conf confProfiles = (None, c) /\
  snd (fst r) = c /\
  exists pre post,
    evs = (pre ++ IsInitialized repoRoot :: FsrepoInit repoRoot c :: post)%list /\
    IsInitialized_answer Config sys (h ++ pre)%list repoRoot = false /\
    Forall (fun c => is_FsrepoInit c = false) (pre ++ post)%list.
Proof.
  cbn zeta.
  destruct (doInit_run repoRoot empty confProfiles conf h)
    as (pre & Hpre & [(e & E)|[(_ & E)|[(Hf & e & conf' & _ & E)|
         (Hf & c0 & post & Hp & Hpost & E & Hc & _)]]]);
    rewrite E; simpl; rewrite ?since_app.
  - intros Hc. by apply (prepares_no_mention _ _ Hpre) in Hc.
  - intros Hc. apply in_app_or in Hc as [Hc|[Hc|[]]]; [|done].
    by apply (prepares_no_mention _ _ Hpre) in Hc.
  - intros Hc. apply in_app_or in Hc as [Hc|[Hc|[]]]; [|done].
    by apply (prepares_no_mention _ _ Hpre) in Hc.
  - intros Hin. apply in_app_or in Hin as [Hin|[Hin|[Hin|Hin]]].
    + by apply (prepares_no_mention _ _ Hpre) in Hin.
    + done.
    + injection Hin as <- <-. split; [done|]. split; [done|]. split; [done|].
      exists pre, post. split; [done|]. split; [done|].
      apply Forall_app. split.
      * eapply Forall_impl; [exact Hpre|]. intros x Hx. by destruct x.
      * eapply Forall_impl; [exact Hpost|]. intros x Hx. by destruct x.
    + by apply (proj1 (List.Forall_forall _ _) Hpost) in Hin.
Qed.

(** X28. [doInit] returns nil only after the whole initialisation: the
    repository was written with the configuration the profiles produced,
    the IPNS record was published, and the node was closed as the last
    call; the default assets were seeded exactly when [empty] is
    false. *)
Theorem doInit_nil_is_complete (repoRoot : string) (empty : bool)
    (confProfiles : string) (conf : Config) (h : list (Call Config)) :
  let r := doInit sys repoRoot empty confProfiles conf h in
  let evs := since h (snd r) in
  fst (fst r) = None ->
  applyProfiles sys conf confProfiles = (None, snd (fst r)) /\
  In (FsrepoInit repoRoot (snd (fst r))) evs /\
  In Publish evs /\
  last evs = Some NodeClose /\
  (In SeedInitDocs evs <-> empty = false).
Proof.
  cbn zeta.
  destruct (doInit_run repoRoot empty confProfiles conf h)
    as (pre & Hpre & [(e & E)|[(_ & E)|[(Hf & e & conf' & _ & E)|
         (Hf & c0 & post & Hp & Hpost & E & Hc & Hempty & Hnil)]]]);
    try (rewrite E; done).
  rewrite E, Hc, since_app. intros Hres.
  destruct (Hnil Hres) as (Hpub & Hlast & Hseed).
  split; [done|]. split.
  { apply in_or_app. right. right. by left. }
  split.
  { apply in_or_app. right. right. by right. }
  split.
  { apply last_app_Some.
    change (last ([IsInitialized repoRoot; FsrepoInit repoRoot c0] ++ post)%list
            = Some NodeClose).
    by apply last_app_Some. }
  split.
  - intros Hin. destruct empty; [|done]. exfalso.
    apply in_app_or in Hin as [Hin|[Hin|[Hin|Hin]]]; try done.
    + by apply (prepares_no_mention _ _ Hpre) in Hin.
    + by apply Hempty.
  - intros He. apply in_or_app. right. right. right. by apply Hseed.
Qed.

Lemma doInit_calls (repoRoot : string) (empty : bool) (confProfiles : string)
    (conf : Config) (h : list (Call Config)) :
  let r := doInit sys repoRoot empty confProfiles conf h in
  snd r = (h ++ since h (snd r))%list /\
  Forall (fun c => makes_config c = false) (since h (snd r)).
Proof.
  cbn zeta.
  assert (forall l : list (Call Config),
            Forall (fun c => prepares c = true) l ->
            Forall (fun c => makes_config c = false) l) as Hprep.
  { intros l Hl. eapply Forall_impl; [exact Hl|]. intros x Hx. by destruct x. }
  assert (forall l : list (Call Config),
            Forall (fun c => is_node_call c = true) l ->
            Forall (fun c => makes_config c = false) l) as Hnode.
  { intros l Hl. eapply Forall_impl; [exact Hl|]. intros x Hx. by destruct x. }
  destruct (doInit_run repoRoot empty confProfiles conf h)
    as (pre & Hpre & [(e & E)|[(_ & E)|[(Hf & e & conf' & _ & E)|
         (Hf & c0 & post & Hp & Hpost & E & Hc & _)]]]);
    rewrite E; simpl; rewrite ?since_app; (split; [done|]).
  - by apply Hprep.
  - apply Forall_app. split; [by apply Hprep | by repeat constructor].
  - apply Forall_app. split; [by apply Hprep | by repeat constructor].
  - apply Forall_app. split; [by apply Hprep|].
    constructor; [done|]. constructor; [done|]. by apply Hnode.
Qed.

(** X29. With a configuration file, [Run] initialises the repository
    from the decoded configuration and from nothing else.  No identity is
    generated, the block service is not initialised and no configuration
    is built; the key options and the options of the pinning service are
    not read, so that two option maps that agree on [empty-repo] and
    [profile] give the same run.  The assets are seeded unless
    [empty-repo] holds the boolean true. *)
Theorem Run_with_config_file (options : gmap string any) (file : string)
    (ConfigRoot : string) (conf : Config) (h : list (Call Config)) :
  json_Decode Config sys file = inl conf ->
  let r := Run sys options (Entry (Some file)) ConfigRoot h in
  let empty := match options !! emptyRepoOptionName with
               | Some (ABool b) => b
               | _ => false
               end in
  let profiles := match options !! profileOptionName with
                  | Some (AString s) => s
                  | _ => EmptyString
                  end in
  fst r = fst (fst (doInit sys ConfigRoot empty profiles conf h)) /\
  snd r = snd (doInit sys ConfigRoot empty profiles conf h) /\
  (forall c, In c (since h (snd r)) -> makes_config c = false) /\
  (forall options' : gmap string any,
     options' !! emptyRepoOptionName = options !! emptyRepoOptionName ->
     options' !! profileOptionName = options !! profileOptionName ->
     Run sys options' (Entry (Some file)) ConfigRoot h = r).
Proof.
  intros Hdec. cbn zeta.
  assert (forall o : gmap string any,
            Run sys o (Entry (Some file)) ConfigRoot h
            = (fst (fst (doInit sys ConfigRoot
                           (fst (assert_bool (o !! emptyRepoOptionName)))
                           (fst (assert_string (o !! profileOptionName))) conf h)),
               snd (doInit sys ConfigRoot
                      (fst (assert_bool (o !! emptyRepoOptionName)))
                      (fst (assert_string (o !! profileOptionName))) conf h))) as Hrun.
  { intros o. unfold Run, read_config_file. rewrite Hdec.
    destruct (assert_int (o !! bitsOptionName)) as [n given].
    unfold bind, ret. by destruct (doInit _ _ _ _ _ _) as [[err c] h']. }
  assert (forall v, fst (assert_bool v)
                    = match v with Some (ABool b) => b | _ => false end) as Eb.
  { by intros [[| | | |]|]. }
  assert (forall v, fst (assert_string v)
                    = match v with Some (AString s) => s | _ => EmptyString end) as Es.
  { by intros [[| | | |]|]. }
  rewrite Hrun, Eb, Es. simpl.
  split; [done|]. split; [done|]. split.
  - intros c Hc.
    destruct (doInit_calls ConfigRoot
                match options !! emptyRepoOptionName with
                | Some (ABool b) => b | _ => false end
                match options !! profileOptionName with
                | Some (AString s) => s | _ => EmptyString end conf h) as [_ Hall].
    by apply (proj1 (List.Forall_forall _ _) Hall).
  - intros options' He Hp. by rewrite Hrun, He, Hp, Eb, Es.
Qed.

Lemma new_config_run (options : gmap string any) (algorithm : string)
    (nBitsForKeypair : Z) (nBitsGiven : bool) (h : list (Call Config)) :
  let opts := if nBitsGiven then [Key_Size nBitsForKeypair; Key_Type algorithm]
              else [Key_Type algorithm] in
  let u := fst (assert_string (options !! uploaderEndpoint)) in
  let ps := fst (assert_string (options !! psEp)) in
  let key := fst (assert_string (options !! apiKey)) in
  let dGw := fst (assert_bool (options !! dedicatedGateway)) in
  let rc := fst (assert_string (options !! redisConn)) in
  let amqp := fst (assert_string (options !! amqpConnect)) in
  let ek := fst (assert_string (options !! encryptBlockKey)) in
  let bp := fst (assert_string (options !! encryptedBlockPrefix)) in
  let cps := mkConfigPinningService u ps key dGw rc amqp ek bp in
  let warn := match options !! redisConn with
              | Some (AString _) => []
              | _ => [Println "redisConn is not ok"]
              end in
  let block := InitBlockService u ps dGw rc amqp ek bp in
  new_config sys options algorithm nBitsForKeypair nBitsGiven h =
  match CreateIdentity_answer Config sys h opts with
  | inr err => (inr err, (h ++ [CreateIdentity opts])%list)
  | inl identity =>
      match InitBlockService_answer Config sys (h ++ CreateIdentity opts :: warn)%list
              u ps dGw rc amqp ek bp with
      | Some err =>
          (inr (errors_New "InitBlockService"),
           (h ++ CreateIdentity opts :: warn ++
            [block; Printf ("InitBlockService  " ++ Error err ++ nl)])%list)
      | None =>
          (InitWithIdentity_answer Config sys
             (h ++ CreateIdentity opts :: warn ++ [block])%list identity cps,
           (h ++ CreateIdentity opts :: warn ++
            [block; InitWithIdentity identity cps])%list)
      end
  end.
Proof.
  cbn zeta. unfold new_config.
  set (opts := if nBitsGiven then [Key_Size nBitsForKeypair; Key_Type algorithm]
               else [Key_Type algorithm]).
  assert ((if nBitsGiven
           then config_CreateIdentity Config sys [Key_Size nBitsForKeypair; Key_Type algorithm]
           else config_CreateIdentity Config sys [Key_Type algorithm])
          = config_CreateIdentity Config sys opts) as -> by (by destruct nBitsGiven).
  unfold bind, config_CreateIdentity, blockservice_InitBlockService, fmt_Printf,
    fmt_Println, config_InitWithIdentity, call, ret.
  destruct (CreateIdentity_answer Config sys h opts) as [identity|err]; [|done].
  destruct (options !! redisConn) as [[rc| | | |]|]; simpl.
  all: rewrite <- ?app_assoc; simpl.
  all: match goal with
       | |- context [InitBlockService_answer Config sys ?hh ?a ?b ?c ?d ?e ?f ?g] =>
           destruct (InitBlockService_answer Config sys hh a b c d e f g)
       end; simpl; rewrite <- ?app_assoc; simpl; done.
Qed.

(** X30. [Run] without a file argument, case by case.  It generates an
    identity, with the key size first when [bits] was given, and returns
    the error of that step.  It prints a warning exactly when
    [redis-conn] does not hold a string, and initialises the block
    service with exactly the values that it stores in the pinning-service
    section of the new configuration.  A failure of the block service is
    reported as the fixed error [InitBlockService], its cause being
    printed only, and neither the configuration is built nor anything of
    the initialisation runs.  A failure to build the configuration is
    returned as it is.  Otherwise [Run] is [doInit] on the new
    configuration.  So [fsrepo.Init] is called only after the identity
    was generated, the block service answered without error and the
    configuration was built, and a line is printed with [Printf] only on
    the failure of the block service. *)
Theorem Run_without_file (options : gmap string any) (ConfigRoot : string)
    (h : list (Call Config)) :
  let r := Run sys options NoFiles ConfigRoot h in
  let evs := since h (snd r) in
  let algorithm := fst (assert_string (options !! algorithmOptionName)) in
  let opts := match options !! bitsOptionName with
              | Some (AInt n) => [Key_Size n; Key_Type algorithm]
              | _ => [Key_Type algorithm]
              end in
  let cps := mkConfigPinningService
               (fst (assert_string (options !! uploaderEndpoint)))
               (fst (assert_string (options !! psEp)))
               (fst (assert_string (options !! apiKey)))
               (fst (assert_bool (options !! dedicatedGateway)))
               (fst (assert_string (options !! redisConn)))
               (fst (assert_string (options !! amqpConnect)))
               (fst (assert_string (options !! encryptBlockKey)))
               (fst (assert_string (options !! encryptedBlockPrefix))) in
  let warn := match options !! redisConn with
              | Some (AString _) => []
              | _ => [Println "redisConn is not ok"]
              end in
  let block := InitBlockService (Uploader cps) (PinningService cps) (DedicatedGateway cps)
                 (RedisConn cps) (AmqpConnect cps) (BlockEncryptionKey cps)
                 (EncryptedBlockPrefix cps) in
  let block_answer :=
    InitBlockService_answer Config sys (h ++ CreateIdentity opts :: warn)%list
      (Uploader cps) (PinningService cps) (DedicatedGateway cps)
      (RedisConn cps) (AmqpConnect cps) (BlockEncryptionKey cps)
      (EncryptedBlockPrefix cps) in
  let config_answer identity :=
    InitWithIdentity_answer Config sys
      (h ++ CreateIdentity opts :: warn ++ [block])%list identity cps in
  let empty := fst (assert_bool (options !! emptyRepoOptionName)) in
  let profiles := fst (assert_string (options !! profileOptionName)) in
  (forall err,
     CreateIdentity_answer Config sys h opts = inr err ->
     fst r = Some err /\ evs = [CreateIdentity opts]) /\
  (forall identity err,
     CreateIdentity_answer Config sys h opts = inl identity ->
     block_answer = Some err ->
     fst r = Some (errors_New "InitBlockService") /\
     evs = (CreateIdentity opts :: warn ++
            [block; Printf ("InitBlockService  " ++ Error err ++ nl)])%list) /\
  (forall identity err,
     CreateIdentity_answer Config sys h opts = inl identity ->
     block_answer = None ->
     config_answer identity = inr err ->
     fst r = Some err /\
     evs = (CreateIdentity opts :: warn ++ [block; InitWithIdentity identity cps])%list) /\
  (forall identity conf,
     CreateIdentity_answer Config sys h opts = inl identity ->
     block_answer = None ->
     config_answer identity = inl conf ->
     let h2 := (h ++ CreateIdentity opts :: warn ++
                [block; InitWithIdentity identity cps])%list in
     fst r = fst (fst (doInit sys ConfigRoot empty profiles conf h2)) /\
     snd r = snd (doInit sys ConfigRoot empty profiles conf h2)) /\
  (forall root c, In (FsrepoInit root c) evs ->
     exists identity conf rest,
       CreateIdentity_answer Config sys h opts = inl identity /\
       block_answer = None /\
       config_answer identity = inl conf /\
       evs = (CreateIdentity opts :: warn ++
              block :: InitWithIdentity identity cps :: rest)%list /\
       Forall (fun c => makes_config c = false) rest) /\
  (forall text, In (Printf text) evs ->
     (exists err, block_answer = Some err /\
                  text = "InitBlockService  " ++ Error err ++ nl) /\
     fst r = Some (errors_New "InitBlockService") /\
     last evs = Some (Printf text) /\
     Forall (fun c => makes_config c = true) evs).
Proof.
  cbn zeta.
  cbn [Uploader PinningService DedicatedGateway RedisConn AmqpConnect
       BlockEncryptionKey EncryptedBlockPrefix].
  set (alg := fst (assert_string (options !! algorithmOptionName))).
  assert (exists nBits given,
            assert_int (options !! bitsOptionName) = (nBits, given) /\
            match options !! bitsOptionName with
            | Some (AInt n) => [Key_Size n; Key_Type alg]
            | _ => [Key_Type alg]
            end = if given then [Key_Size nBits; Key_Type alg] else [Key_Type alg])
    as (nBits & given & Ebits & ->).
  { destruct (options !! bitsOptionName) as [[| |n| |]|]; simpl; by eexists _, _. }
  set (opts := if given then [Key_Size nBits; Key_Type alg] else [Key_Type alg]).
  set (warn := match options !! redisConn with
               | Some (AString _) => []
               | _ => [Println "redisConn is not ok"]
               end).
  assert (forall c : Call Config, In c warn -> c = Println "redisConn is not ok") as Hw.
  { intros c Hc. unfold warn in Hc.
    destruct (options !! redisConn) as [[| | | |]|]; in_cases Hc; done. }
  assert (Forall (fun c : Call Config => makes_config c = true) warn) as Hwarn.
  { apply List.Forall_forall. intros c Hc. by rewrite (Hw c Hc). }
  assert (Run sys options NoFiles ConfigRoot h
          = match new_config sys options alg nBits given h with
            | (inl conf, h2) =>
                (fst (fst (doInit sys ConfigRoot
                             (fst (assert_bool (options !! emptyRepoOptionName)))
                             (fst (assert_string (options !! profileOptionName)))
                             conf h2)),
                 snd (doInit sys ConfigRoot
                        (fst (assert_bool (options !! emptyRepoOptionName)))
                        (fst (assert_string (options !! profileOptionName)))
                        conf h2))
            | (inr err, h2) => (Some err, h2)
            end) as ->.
  { unfold Run, read_config_file. fold alg. rewrite Ebits. unfold bind, ret.
    destruct (new_config sys options alg nBits given h) as [[conf|err] h2]; [|done].
    by destruct (doInit _ _ _ _ _ _) as [[? ?] ?]. }
  rewrite new_config_run. cbn zeta. fold opts warn.
  destruct (CreateIdentity_answer Config sys h opts) as [identity|err] eqn:EC.
  2:{ simpl. rewrite since_app.
      split; [by intros ? [= <-]|]. split; [done|]. split; [done|]. split; [done|].
      split; [intros root c Hin; in_cases Hin; done|].
      intros text Hin. in_cases Hin. done. }
  destruct (InitBlockService_answer Config sys _ _ _ _ _ _ _ _) as [err|] eqn:EB.
  { simpl. rewrite since_app.
    split; [done|]. split; [by intros ? ? _ [= <-]|]. split; [done|]. split; [done|].
    split.
    - intros root c Hin. exfalso. in_cases Hin; first [done | by apply Hw in Hin].
    - intros text Hin.
      assert (text = "InitBlockService  " ++ Error err ++ nl) as ->.
      { in_cases Hin; first [done | by apply Hw in Hin | by injection Hin as <-]. }
      split; [by exists err|]. split; [done|]. split.
      + apply (last_app_Some [_]), last_app_Some. done.
      + constructor; [done|]. apply Forall_app. split; [done | by repeat constructor]. }
  destruct (InitWithIdentity_answer Config sys _ identity _) as [conf|err] eqn:EW.
  2:{ simpl. rewrite since_app.
      split; [done|]. split; [done|].
      split; [intros ? ? [= <-] _ H; cbn in H; rewrite EW in H; by injection H as <-|].
      split; [intros ? ? [= <-] _ H; cbn in H; by rewrite EW in H|]. split.
      - intros root c Hin. exfalso. in_cases Hin; first [done | by apply Hw in Hin].
      - intros text Hin. exfalso. in_cases Hin; first [done | by apply Hw in Hin]. }
  split; [done|]. split; [done|].
  split; [intros ? ? [= <-] _ H; cbn in H; by rewrite EW in H|]. split.
  { intros ? ? [= <-] _ H. cbn in H. rewrite EW in H. injection H as <-.
    split; reflexivity. }
  match goal with
  | |- context [doInit sys ConfigRoot ?e ?p conf ?hh] =>
      destruct (doInit_calls ConfigRoot e p conf hh) as [Hext Hall];
      destruct (doInit sys ConfigRoot e p conf hh) as [[err c'] h3] eqn:ED
  end.
  simpl in Hext, Hall.
  match type of Hext with
  | _ = (_ ++ ?x)%list => remember x as rest eqn:Erest; clear Erest
  end.
  subst h3. cbn [fst snd].
  rewrite <- !app_assoc, since_app.
  split.
  - intros root c _. exists identity, conf, rest.
    split; [done|]. split; [done|]. split; [done|]. split; [|done].
    simpl. by rewrite <- !app_assoc.
  - intros text Hin. exfalso. in_cases Hin;
      first [ done | by apply Hw in Hin
            | by apply (proj1 (List.Forall_forall _ _) Hall) in Hin ].
Qed.

End InitProperties.

(** * Closed instances *)

Section Closed.

#[local] Existing Instances Sample.rate_lib Sample.cid_lib Sample.url_lib.

Import GoStrings Regexp.

(** The budgets are per key: after the hundred requests that use up the
    budget of one address, a request from another address is served. *)
Example other_address_still_served :
  events_since Sample.exhausted
    (snd (DedicatedGatewayMiddleware (Sample.env_answering 200 "") Sample.next_ok
            (Sample.cfg false)
            {| http.Method := "GET"; http.URL_Path := "/ipfs/";
               http.RemoteAddr := "10.0.0.2:4000" |}
            Sample.exhausted))
  = [EvGetLimiter "10.0.0.2:4000" IpLimiters 100; EvAllow 1%nat true;
     EvFindStringSubmatch "/ipfs/"; EvHttpError "Invalid path" 400].
Proof. vm_compute. reflexivity. Qed.

Lemma open_mode_check_order_witness :
  let env := Sample.env_answering 200 "" in
  let next := Sample.next_ok in
  let r := Sample.get "/ipfs/QmA/x" in
  let cfg := Sample.cfg false in
  let w := init_world in
  wf w /\
  DedicatedGateway (ConfigPinningService cfg) = false /\
  HasPrefix (http.URL_Path r) "/ipfs/" = true /\
  let run := DedicatedGatewayMiddleware env next cfg r w in
  match getLimiter (http.RemoteAddr r) IpLimiters 100 w with
  | (ipL, wa) =>
  match Limiter_Allow env ipL wa with
  | (false, wb) =>
      run = reject "Too many requests from this IP" http.StatusTooManyRequests wb /\
      events_since w (snd run)
      = [EvGetLimiter (http.RemoteAddr r) IpLimiters 100; EvAllow ipL false;
         EvHttpError "Too many requests from this IP" 429]
  | (true, wb) =>
      events_since w wb = [EvGetLimiter (http.RemoteAddr r) IpLimiters 100; EvAllow ipL true] /\
      match parse_resource (http.URL_Path r) wb with
      | (Err msg, wc) =>
          run = reject msg http.StatusBadRequest wc /\
          Forall (fun e => is_parse_event e = true) (events_since wb wc)
      | (Ok cid, wc) =>
          Forall (fun e => is_parse_event e = true) (events_since wb wc) /\
          match getLimiter (cid_String cid) CidLimiters 15 wc with
          | (cidL, wd) =>
          match Limiter_Allow env cidL wd with
          | (false, we) =>
              run = reject "Too many requests for this CID" http.StatusTooManyRequests we /\
              events_since wc we
              = [EvGetLimiter (cid_String cid) CidLimiters 15; EvAllow cidL false]
          | (true, we) =>
              events_since wc we
              = [EvGetLimiter (cid_String cid) CidLimiters 15; EvAllow cidL true] /\
              match checkDmca env (cid_String cid) cfg we with
              | ((status, Some err), wm) =>
                  run = reject err status wm /\
                  head (events_since we wm) = Some (EvCheckDmca (cid_String cid)) /\
                  Forall (fun e => is_access_call e = false) (events_since w (snd run))
              | ((_, None), wm) =>
                  run = next r wm /\
                  head (events_since we wm) = Some (EvCheckDmca (cid_String cid)) /\
                  Forall (fun e => is_access_call e = false) (events_since w wm)
              end
          end
          end
      end
  end
  end.
Proof.
  intros env next r cfg w.
  split; [apply wf_init_world|]. split; [reflexivity|]. split; [reflexivity|].
  exact (open_mode_check_order env next cfg r w wf_init_world eq_refl eq_refl).
Defined.

(** The run of the request of the preceding instance, evaluated: both
    limiters are consulted before the moderation check, and the wrapped
    handler answers. *)
Example open_mode_all_checks_pass :
  events_since init_world
    (snd (DedicatedGatewayMiddleware (Sample.env_answering 200 "") Sample.next_ok
            (Sample.cfg false) (Sample.get "/ipfs/QmA/x") init_world))
  = [EvGetLimiter "10.0.0.1:4000" IpLimiters 100; EvAllow 0%nat true;
     EvFindStringSubmatch "/ipfs/QmA/x"; EvCidParse "QmA";
     EvGetLimiter "QmA" CidLimiters 15; EvAllow 1%nat true;
     EvCheckDmca "QmA";
     EvClientDo (15 * time.Second) (api_request (Sample.cfg false) "http://pin/api/dmca/QmA");
     EvBodyClose; EvWriteHeader 200].
Proof. vm_compute. reflexivity. Qed.

Lemma dedicated_moderation_before_access_witness :
  let env := Sample.env_answering 451 "unavailable" in
  let next := Sample.next_ok in
  let r := Sample.get "/ipfs/QmA" in
  let cfg := Sample.cfg true in
  let w := init_world in
  let cid : Cid := "QmA" in
  let w1 := log_events [EvFindStringSubmatch "/ipfs/QmA"; EvCidParse "QmA"] init_world in
  DedicatedGateway (ConfigPinningService cfg) = true /\
  HasPrefix (http.URL_Path r) "/ipfs/" = true /\
  parse_resource (http.URL_Path r) w = (Ok cid, w1) /\
  Forall (fun e => is_policy_call e = false) (events_since w w1) /\
  match checkDmca env (cid_String cid) cfg w1 with
  | ((status, Some err), w2) =>
      DedicatedGatewayMiddleware env next cfg r w = reject err status w2 /\
      head (events_since w1 w2) = Some (EvCheckDmca (cid_String cid)) /\
      Forall (fun e => is_access_call e = false)
             (events_since w (snd (DedicatedGatewayMiddleware env next cfg r w)))
  | ((_, None), w2) =>
      head (events_since w1 w2) = Some (EvCheckDmca (cid_String cid)) /\
      Forall (fun e => is_access_call e = false) (events_since w w2) /\
      head (events_since w2 (snd (getDedicatedGatewayAccess env (cid_Hash_HexString cid) cfg w2)))
      = Some (EvGetDedicatedGatewayAccess (cid_Hash_HexString cid)) /\
      match getDedicatedGatewayAccess env (cid_Hash_HexString cid) cfg w2 with
      | ((status, Some err), w3) =>
          DedicatedGatewayMiddleware env next cfg r w = reject err status w3
      | ((_, None), w3) =>
          DedicatedGatewayMiddleware env next cfg r w = next r w3
      end
  end.
Proof.
  intros env next r cfg w cid w1.
  split; [reflexivity|]. split; [reflexivity|]. split; [reflexivity|].
  exact (dedicated_moderation_before_access env next cfg r w cid w1
           eq_refl eq_refl eq_refl).
Defined.

(** The run of the request of the preceding instance, evaluated: the
    moderation service answers 451 and the access check is not called. *)
Example dedicated_moderation_denied :
  events_since init_world
    (snd (DedicatedGatewayMiddleware (Sample.env_answering 451 "unavailable") Sample.next_ok
            (Sample.cfg true) (Sample.get "/ipfs/QmA") init_world))
  = [EvFindStringSubmatch "/ipfs/QmA"; EvCidParse "QmA"; EvCheckDmca "QmA";
     EvClientDo (15 * time.Second) (api_request (Sample.cfg true) "http://pin/api/dmca/QmA");
     EvBodyClose; EvHttpError "Something went wrong" 451].
Proof. vm_compute. reflexivity. Qed.

(** The claim C3 as the specification words it, that the moderation check
    hands on the message of the remote, fails: a remote that answers 404
    with a body of its own gets the fixed message through. *)
Lemma moderation_message_is_not_remote_body :
  ~ (forall (env : Env) (hash : string) (cfg : Config) (w : World) (resp : http.Response),
       url_Parse_error (dmca_url cfg hash) = None ->
       Do env (15 * time.Second) (api_request cfg (dmca_url cfg hash)) = Some resp ->
       http.StatusCode resp <> 200 -> http.StatusCode resp <> 410 ->
       fst (checkDmca env hash cfg w) = (http.StatusCode resp, Some (http.Body resp))).
Proof.
  intros H.
  specialize (H (Sample.env_answering 404 "no such record") "QmA" (Sample.cfg true)
                init_world {| http.StatusCode := 404; http.Body := "no such record" |}
                eq_refl eq_refl).
  assert (H200 : (404 : Z) <> 200) by (intros E; discriminate E).
  assert (H410 : (404 : Z) <> 410) by (intros E; discriminate E).
  specialize (H H200 H410). vm_compute in H. discriminate H.
Qed.

Lemma not_ok_status_fixed_messages_witness :
  let env := Sample.env_answering 404 "no such record" in
  let cfg := Sample.cfg true in
  let resp := {| http.StatusCode := 404; http.Body := "no such record" |} in
  url_Parse_error (dmca_url cfg "QmA") = None /\
  Do env (15 * time.Second) (api_request cfg (dmca_url cfg "QmA")) = Some resp /\
  http.StatusCode resp <> 200 /\ http.StatusCode resp <> 410 /\
  fst (checkDmca env "QmA" cfg init_world) = (404, Some "Something went wrong") /\
  fst (getDedicatedGatewayAccess env "QmA" cfg init_world)
  = (404, Some "No users have subscribed to this hash yet.").
Proof.
  intros env cfg resp.
  assert (H200 : http.StatusCode resp <> 200) by (intros E; discriminate E).
  assert (H410 : http.StatusCode resp <> 410) by (intros E; discriminate E).
  split; [reflexivity|]. split; [reflexivity|]. split; [exact H200|]. split; [exact H410|].
  split.
  - exact (proj1 (not_ok_status_fixed_messages env "QmA" cfg init_world)
             resp eq_refl eq_refl H200 H410).
  - exact (proj2 (not_ok_status_fixed_messages env "QmA" cfg init_world)
             resp eq_refl eq_refl H200).
Defined.

Lemma moderation_gone_rejects_410_witness :
  let env := Sample.env_answering 410 "" in
  let r := Sample.get "/ipfs/QmA" in
  let cfg := Sample.cfg true in
  let w1 := log_events [EvFindStringSubmatch "/ipfs/QmA"; EvCidParse "QmA"] init_world in
  let resp := {| http.StatusCode := 410; http.Body := "" |} in
  HasPrefix (http.URL_Path r) "/ipfs/" = true /\
  reaches_moderation env cfg r init_world "QmA" w1 /\
  url_Parse_error (dmca_url cfg "QmA") = None /\
  Do env (15 * time.Second) (api_request cfg (dmca_url cfg "QmA")) = Some resp /\
  http.StatusCode resp = 410 /\
  fst (checkDmca env "QmA" cfg w1) = (http.StatusGone, Some dmca_gone_msg) /\
  DedicatedGatewayMiddleware env Sample.next_ok cfg r init_world
  = reject dmca_gone_msg http.StatusGone (snd (checkDmca env "QmA" cfg w1)).
Proof.
  intros env r cfg w1 resp.
  assert (Hreach : reaches_moderation env cfg r init_world "QmA" w1) by reflexivity.
  split; [reflexivity|]. split; [exact Hreach|]. split; [reflexivity|].
  split; [reflexivity|]. split; [reflexivity|].
  exact (moderation_gone_rejects_410 env Sample.next_ok cfg r init_world "QmA" w1 resp
           eq_refl Hreach eq_refl eq_refl eq_refl).
Defined.

(** The same in open mode: the request passes both limiters and is then
    answered 410 with the takedown message. *)
Example moderation_gone_open_mode :
  events_since init_world
    (snd (DedicatedGatewayMiddleware (Sample.env_answering 410 "") Sample.next_ok
            (Sample.cfg false) (Sample.get "/ipfs/QmA") init_world))
  = [EvGetLimiter "10.0.0.1:4000" IpLimiters 100; EvAllow 0%nat true;
     EvFindStringSubmatch "/ipfs/QmA"; EvCidParse "QmA";
     EvGetLimiter "QmA" CidLimiters 15; EvAllow 1%nat true;
     EvCheckDmca "QmA";
     EvClientDo (15 * time.Second) (api_request (Sample.cfg false) "http://pin/api/dmca/QmA");
     EvBodyClose; EvHttpError dmca_gone_msg 410].
Proof. vm_compute. reflexivity. Qed.

Lemma policy_checks_fail_closed_witness :
  let env := Sample.env_unreachable in
  let r := Sample.get "/ipfs/QmA" in
  let cfg := Sample.cfg true in
  let w1 := log_events [EvFindStringSubmatch "/ipfs/QmA"; EvCidParse "QmA"] init_world in
  let w2 := log_events [EvCheckDmca "QmA";
                        EvClientDo (15 * time.Second) (api_request cfg (dmca_url cfg "QmA"))]
              w1 in
  HasPrefix (http.URL_Path r) "/ipfs/" = true /\
  reaches_moderation env cfg r init_world "QmA" w1 /\
  url_Parse_error (dmca_url cfg "QmA") = None /\
  Do env (15 * time.Second) (api_request cfg (dmca_url cfg "QmA")) = None /\
  checkDmca env "QmA" cfg w1
  = ((http.StatusInternalServerError, Some dmca_call_failed_msg), w2) /\
  DedicatedGatewayMiddleware env Sample.next_ok cfg r init_world
  = reject dmca_call_failed_msg http.StatusInternalServerError w2.
Proof.
  intros env r cfg w1 w2.
  assert (Hreach : reaches_moderation env cfg r init_world "QmA" w1) by reflexivity.
  split; [reflexivity|]. split; [exact Hreach|]. split; [reflexivity|].
  split; [reflexivity|].
  exact (proj1 (policy_checks_fail_closed env Sample.next_ok cfg r init_world "QmA" w1
                  eq_refl Hreach) eq_refl eq_refl).
Defined.

Lemma getLimiter_registry_witness :
  let env := Sample.env_answering 200 "" in
  let w' := snd (getLimiter "10.0.0.1:4000" IpLimiters 100 init_world) in
  wf init_world /\
  ipLimiters w' !! "10.0.0.1:4000" = Some 0%nat /\
  fst (getLimiter "10.0.0.1:4000" IpLimiters 100 init_world) = 0%nat /\
  ipLimiters w' = <["10.0.0.1:4000" := 0%nat]> (ipLimiters init_world) /\
  heap w' = [NewLimiter (rate.Every time.Minute) 100].
Proof.
  intros env w'.
  pose proof (getLimiter_registry env "10.0.0.1:4000" IpLimiters 100 init_world
                wf_init_world) as H.
  split; [apply wf_init_world|]. split; [exact (proj1 H)|].
  exact (proj1 (proj2 H)).
Defined.

(** The claim C7 as the specification words it fails in two ways.  In open
    mode the limiter of the client address comes first: once the budget of
    an address is used up, its request for [/ipfs/] is answered 429, not
    400.  And the pattern is searched for in the whole path: when no
    segment follows the prefix but [/ipfs/] and a segment occur later, that
    later segment is parsed and the request goes on. *)
Lemma invalid_path_not_always_400 :
  (HasPrefix "/ipfs/" "/ipfs/" = true /\
   span_not_slash (drop_bytes 6 "/ipfs/") = EmptyString /\
   events_since Sample.exhausted
     (snd (DedicatedGatewayMiddleware (Sample.env_answering 200 "") Sample.next_ok
             (Sample.cfg false) (Sample.get "/ipfs/") Sample.exhausted))
   = [EvGetLimiter "10.0.0.1:4000" IpLimiters 100; EvAllow 0%nat false;
      EvHttpError "Too many requests from this IP" 429]) /\
  (HasPrefix "/ipfs//ipfs/QmA" "/ipfs/" = true /\
   span_not_slash (drop_bytes 6 "/ipfs//ipfs/QmA") = EmptyString /\
   events_since init_world
     (snd (DedicatedGatewayMiddleware (Sample.env_answering 200 "") Sample.next_ok
             (Sample.cfg true) (Sample.get "/ipfs//ipfs/QmA") init_world))
   = [EvFindStringSubmatch "/ipfs//ipfs/QmA"; EvCidParse "QmA"; EvCheckDmca "QmA";
      EvClientDo (15 * time.Second) (api_request (Sample.cfg true) "http://pin/api/dmca/QmA");
      EvBodyClose; EvGetDedicatedGatewayAccess "1220QmA";
      EvClientDo (15 * time.Second)
        (api_request (Sample.cfg true) "http://pin/api/dedicatedGateways/1220QmA");
      EvBodyClose; EvWriteHeader 200]).
Proof. vm_compute. repeat split. Qed.

Lemma resource_token_extraction_witness :
  let env := Sample.env_answering 200 "" in
  let cfg := Sample.cfg true in
  let r := Sample.get "/ipfs/bafy123/extra" in
  let r0 := Sample.get "/ipfs/" in
  http.URL_Path r = "/ipfs/" ++ "bafy123/extra" /\
  http.URL_Path r0 = "/ipfs/" ++ "" /\
  reaches_extraction env cfg r init_world init_world /\
  span_not_slash "bafy123/extra" <> EmptyString /\
  FindStringSubmatch (http.URL_Path r) = Some ["/ipfs/bafy123"; "bafy123"] /\
  DedicatedGatewayMiddleware env Sample.next_ok cfg r init_world
  = reject "Invalid hash" http.StatusBadRequest
      (log_events [EvFindStringSubmatch "/ipfs/bafy123/extra"; EvCidParse "bafy123"]
         init_world) /\
  DedicatedGatewayMiddleware env Sample.next_ok cfg r0 init_world
  = reject "Invalid path" http.StatusBadRequest
      (log_events [EvFindStringSubmatch "/ipfs/"] init_world).
Proof.
  intros env cfg r r0.
  assert (Hseg : span_not_slash "bafy123/extra" <> EmptyString)
    by (intros E; discriminate E).
  pose proof (resource_token_extraction env Sample.next_ok cfg r init_world init_world
                "bafy123/extra" eq_refl eq_refl) as H.
  pose proof (resource_token_extraction env Sample.next_ok cfg r0 init_world init_world
                "" eq_refl eq_refl) as H0.
  split; [reflexivity|]. split; [reflexivity|]. split; [reflexivity|].
  split; [exact Hseg|].
  split; [exact (proj1 (proj1 (proj2 H) Hseg))|].
  split; [exact (proj2 (proj2 (proj1 (proj2 H) Hseg)) eq_refl)|].
  exact (proj2 (proj2 H0) eq_refl eq_refl).
Defined.

Lemma MakeHandler_dispatch_witness :
  let options := [Sample.option_handle "/version"; Sample.option_interpose;
                  Sample.option_handle "/ipfs/"] in
  let handler : Handler := fun r =>
    if String.eqb (http.Method r) http.MethodConnect
    then WriteHeader http.StatusOK
    else ServeMux_ServeHTTP 0%nat r in
  let w' := log_events [EvMuxHandle 0%nat "/version"; EvMuxHandle 0%nat "/";
                        EvMuxHandle 1%nat "/ipfs/"]
              (set_nmux 2%nat init_world) in
  MakeHandler Sample.node Sample.listener options init_world = (Ok handler, w') /\
  (exists mux,
     fold_options_spec Sample.node Sample.listener options 0%nat
       (set_nmux 1%nat init_world) = (Ok mux, w')) /\
  forall (r : http.Request) (w0 : World),
    handler r w0 =
    if String.eqb (http.Method r) "CONNECT"
    then (tt, log_event (EvWriteHeader 200) w0)
    else (tt, log_event (EvMuxServeHTTP 0%nat r) w0).
Proof.
  intros options handler w'.
  assert (Hmake : MakeHandler Sample.node Sample.listener options init_world
                  = (Ok handler, w')) by reflexivity.
  split; [exact Hmake|].
  exact (MakeHandler_dispatch Sample.node Sample.listener options init_world handler w'
           Hmake).
Defined.

(** An option that fails leaves no handler. *)
Example MakeHandler_failing_option :
  fst (MakeHandler Sample.node Sample.listener
         [Sample.option_handle "/version"; Sample.option_fail] init_world)
  = Err "option failed".
Proof. reflexivity. Qed.

Lemma Serve_returned_error_witness :
  let env := Sample.env_answering 200 "" in
  let options := [Sample.option_handle "/version"] in
  let handler : Handler := fun r =>
    if String.eqb (http.Method r) http.MethodConnect
    then WriteHeader http.StatusOK
    else ServeMux_ServeHTTP 0%nat r in
  let w1 := log_events [EvMuxHandle 0%nat "/version"] (set_nmux 1%nat init_world) in
  MakeHandler Sample.node Sample.listener options init_world = (Ok handler, w1) /\
  Repo_Config Sample.node = Ok (Sample.cfg false) /\
  FromNetAddr Sample.listener = Ok "/ip4/127.0.0.1/tcp/5001" /\
  closing_at_start Sample.schedule_shutdown = false /\
  fst (Serve env Sample.schedule_shutdown Sample.node Sample.listener options init_world)
  = None /\
  In (EvShutdown (30 * time.Second))
     (trace (snd (Serve env Sample.schedule_shutdown Sample.node Sample.listener options
                    init_world))).
Proof.
  intros env options handler w1.
  assert (Hmake : MakeHandler Sample.node Sample.listener options init_world
                  = (Ok handler, w1)) by reflexivity.
  pose proof (Serve_returned_error env Sample.schedule_shutdown Sample.node
                Sample.listener options init_world handler w1 (Sample.cfg false)
                "/ip4/127.0.0.1/tcp/5001" Hmake eq_refl eq_refl eq_refl) as H.
  split; [exact Hmake|]. split; [reflexivity|]. split; [reflexivity|].
  split; [reflexivity|].
  split; [exact (proj2 H eq_refl)|].
  vm_compute. tauto.
Defined.

(** When the serve loop ends on its own, its error is what [Serve]
    returns. *)
Example Serve_loop_error_returned :
  fst (Serve (Sample.env_answering 200 "")
         {| closing_at_start := false; requests := [Sample.get "/version"];
            serve_loop_error := Some "accept tcp: use of closed network connection";
            first_signal := ServerProcClosed; warn_ticks := 0;
            shutdown_error := fun _ => None |}
         Sample.node Sample.listener [Sample.option_handle "/version"] init_world)
  = Some "accept tcp: use of closed network connection".
Proof. reflexivity. Qed.

(** The claim C10 as the specification words it, that a request in
    dedicated-gateway mode is never rejected with 429, fails: when the
    moderation service answers 429, so does the middleware. *)
Lemma dedicated_mode_rejects_429 :
  DedicatedGateway (ConfigPinningService (Sample.cfg true)) = true /\
  events_since init_world
    (snd (DedicatedGatewayMiddleware (Sample.env_answering 429 "slow down") Sample.next_ok
            (Sample.cfg true) (Sample.get "/ipfs/QmA") init_world))
  = [EvFindStringSubmatch "/ipfs/QmA"; EvCidParse "QmA"; EvCheckDmca "QmA";
     EvClientDo (15 * time.Second) (api_request (Sample.cfg true) "http://pin/api/dmca/QmA");
     EvBodyClose; EvHttpError "Something went wrong" 429].
Proof. vm_compute. split; reflexivity. Qed.

Lemma dedicated_mode_leaves_limiters_alone_witness :
  let env := Sample.env_answering 429 "slow down" in
  let cfg := Sample.cfg true in
  let r := Sample.get "/ipfs/QmA" in
  DedicatedGateway (ConfigPinningService cfg) = true /\
  exists o w',
    DedicatedGatewayMiddleware env Sample.next_ok cfg r Sample.exhausted
    = finish Sample.next_ok r o w' /\
    ipLimiters w' = ipLimiters Sample.exhausted /\
    cidLimiters w' = cidLimiters Sample.exhausted /\
    heap w' = heap Sample.exhausted /\
    Forall (fun e => is_limiter_event e = false) (events_since Sample.exhausted w') /\
    forall msg code, o = Reject msg code ->
      msg <> "Too many requests from this IP" /\
      msg <> "Too many requests for this CID" /\
      (code = 429 ->
       exists cid req resp,
         fst (parse_resource (http.URL_Path r) Sample.exhausted) = Ok cid /\
         (req = api_request cfg (dmca_url cfg (cid_String cid)) \/
          req = api_request cfg (access_url cfg (cid_Hash_HexString cid))) /\
         In (EvClientDo (15 * time.Second) req) (events_since Sample.exhausted w') /\
         Do env (15 * time.Second) req = Some resp /\ http.StatusCode resp = 429).
Proof.
  intros env cfg r. split; [reflexivity|].
  exact (dedicated_mode_leaves_limiters_alone env Sample.next_ok cfg r Sample.exhausted
           eq_refl).
Defined.

End Closed.

(** * Closed instances of the further properties *)

Section ClosedGateway.

#[local] Existing Instances Sample.rate_lib Sample.cid_lib Sample.url_lib.

Import GoStrings Regexp.

Lemma middleware_outbound_calls_witness :
  let env := Sample.env_answering 200 "" in
  let next := Sample.next_ok in
  let cfg := Sample.cfg true in
  let r := Sample.get "/ipfs/QmA" in
  let w := init_world in
  exists o w',
    DedicatedGatewayMiddleware env next cfg r w = finish next r o w' /\
    (length (List.filter is_client_do (events_since w w')) <= 2)%nat /\
    (DedicatedGateway (ConfigPinningService cfg) = false ->
     (length (List.filter is_client_do (events_since w w')) <= 1)%nat) /\
    Forall (is_policy_request cfg) (List.filter is_client_do (events_since w w')).
Proof.
  intros env next cfg r w.
  exact (middleware_outbound_calls env next cfg r w wf_init_world).
Defined.

Lemma middleware_answers_once_witness :
  let env := Sample.env_answering 200 "" in
  let next := Sample.next_ok in
  let cfg := Sample.cfg true in
  let r := Sample.get "/ipfs/QmA" in
  let w := init_world in
  exists o w',
    DedicatedGatewayMiddleware env next cfg r w = finish next r o w' /\
    Forall (fun e => is_response_event e = false) (events_since w w') /\
    match o with
    | Reject msg code =>
        events_since w (snd (DedicatedGatewayMiddleware env next cfg r w))
        = (events_since w w' ++ [EvHttpError msg code])%list
    | Forward => DedicatedGatewayMiddleware env next cfg r w = next r w'
    end.
Proof.
  intros env next cfg r w.
  exact (middleware_answers_once env next cfg r w wf_init_world).
Defined.

Lemma middleware_transparent_iff_witness :
  let env := Sample.env_answering 200 "" in
  let cfg := Sample.cfg true in
  let r := Sample.get "/version" in
  let next := Sample.next_ok in
  let w := init_world in
  DedicatedGatewayMiddleware env next cfg r w = next r w.
Proof.
  intros env cfg r next w.
  exact (proj1 (middleware_transparent_iff env cfg r) eq_refl next w).
Defined.

Lemma unbuildable_request_fails_closed_witness :
  let env := Sample.env_answering 200 "" in
  let next := Sample.next_ok in
  let cfg := SampleGateway.cfg_unbuildable in
  let r := Sample.get "/ipfs/QmA" in
  let w := init_world in
  let cid : Cid := "QmA" in
  let w1 := log_events [EvFindStringSubmatch "/ipfs/QmA"; EvCidParse "QmA"] init_world in
  let hash := cid_Hash_HexString cid in
  let w0 := w1 in
  let e := "net/url: invalid control character in URL" in
  reaches_moderation env cfg r w cid w1 /\
  DedicatedGatewayMiddleware env next cfg r w
  = reject ("failed to create request: " ++ e) http.StatusInternalServerError
      (log_event (EvCheckDmca (cid_String cid)) w1) /\
  getDedicatedGatewayAccess env hash cfg w0
  = ((http.StatusInternalServerError, Some ("failed to create request: " ++ e)),
     log_event (EvGetDedicatedGatewayAccess hash) w0).
Proof.
  intros env next cfg r w cid w1 hash w0 e.
  assert (Hreach : reaches_moderation env cfg r w cid w1) by reflexivity.
  split; [exact Hreach|]. split.
  - exact (proj1 (unbuildable_request_fails_closed env next cfg r w cid w1 hash w0
                    eq_refl Hreach) e eq_refl).
  - exact (proj2 (unbuildable_request_fails_closed env next cfg r w cid w1 hash w0
                    eq_refl Hreach) e eq_refl).
Defined.

Lemma registry_never_shrinks_witness :
  let env := Sample.env_answering 200 "" in
  let next := Sample.next_ok in
  let cfg := Sample.cfg false in
  let rs := [Sample.get "/ipfs/QmA"; Sample.get "/version"] in
  let w := init_world in
  let w' := snd (serve_requests (DedicatedGatewayMiddleware env next cfg) rs w) in
  wf w' /\
  registry_grew w w' /\
  (forall k, is_Some (ipLimiters w' !! k) ->
     is_Some (ipLimiters w !! k) \/ exists r, In r rs /\ k = http.RemoteAddr r) /\
  (forall k, is_Some (cidLimiters w' !! k) ->
     is_Some (cidLimiters w !! k) \/
     exists r cid, In r rs /\ resource_of (http.URL_Path r) = Some cid /\ k = cid_String cid).
Proof.
  intros env next cfg rs w.
  exact (registry_never_shrinks env next cfg rs w
           (fun r0 w0 => ex_intro _ [EvWriteHeader 200] eq_refl) wf_init_world).
Defined.

Lemma parsed_token_shape_witness :
  let path := "/ipfs/QmA/x" in
  let w := init_world in
  let token := "QmA" in
  exists pre post,
    path = pre ++ "/ipfs/" ++ token ++ post /\
    token <> EmptyString /\
    (forall c, In c (list_ascii_of_string token) -> c <> slash) /\
    (post = EmptyString \/ exists post', post = String slash post').
Proof.
  intros path w token.
  exact (parsed_token_shape path w token (or_intror (or_introl eq_refl))).
Defined.

Lemma MakeHandler_stops_at_first_failure_witness :
  let n := Sample.node in
  let l := Sample.listener in
  let pre := [Sample.option_handle "/a"] in
  let post := [Sample.option_interpose] in
  let option := Sample.option_fail in
  let w := init_world in
  let mux := 0%nat in
  let w1 := snd (MakeHandler_loop n l pre (nmux w) (set_nmux (S (nmux w)) w)) in
  let e := "option failed" in
  let w2 := w1 in
  MakeHandler n l (pre ++ option :: post) w = (Err e, w2).
Proof.
  intros n l pre post option w mux w1 e w2.
  exact (MakeHandler_stops_at_first_failure n l pre post option w mux w1 e w2
           eq_refl eq_refl).
Defined.

Lemma Serve_start_failures_witness :
  let env := Sample.env_answering 200 "" in
  let sched := SampleGateway.schedule_closing in
  let node := Sample.node in
  let lis := Sample.listener in
  let options := [Sample.option_handle "/a"; Sample.option_fail] in
  let w := init_world in
  let w1 := snd (MakeHandler node lis options w) in
  Serve env sched node lis options w
  = (Some "option failed", log_event EvListenerClose w1).
Proof.
  intros env sched node lis options w w1.
  exact (proj1 (Serve_start_failures env sched node lis options w)
           "option failed" w1 eq_refl).
Defined.

End ClosedGateway.

Section ClosedStore.

Import Calls tikv.

#[local] Open Scope list_scope.

Lemma Puts_commits_complete_writes_witness :
  let cluster := SampleStore.accepting in
  let args := [SampleStore.k1; SampleStore.v1; SampleStore.k2; SampleStore.v2] in
  let h := @nil Call in
  In CallCommit (since h (snd (Puts cluster args h))).
Proof.
  intros cluster args h.
  exact (proj2 (proj2 (Puts_commits_complete_writes cluster args h))
           (ex_intro _ 2%nat eq_refl) eq_refl (conj eq_refl (conj eq_refl I))).
Defined.

Lemma Puts_odd_arguments_witness :
  let cluster := SampleStore.accepting in
  let args := [SampleStore.k1; SampleStore.v1; SampleStore.k2] in
  let h := @nil Call in
  let o := fst (Puts cluster args h) in
  let evs := since h (snd (Puts cluster args h)) in
  ~ In CallCommit evs /\
  (o = Panics \/ exists e, o = Returns (Some e)) /\
  (o = Panics <->
   Begin_answer cluster h = None /\ sets_accepted cluster (h ++ [CallBegin]) args) /\
  (o = Panics -> evs = CallBegin :: sets_of args).
Proof.
  intros cluster args h.
  exact (Puts_odd_arguments cluster args h (ex_intro _ 1%nat eq_refl)).
Defined.

Lemma Dels_commits_after_all_deletes_witness :
  let cluster := SampleStore.conflicting in
  let pre := [SampleStore.k1] in
  let key := SampleStore.k2 in
  let post := [SampleStore.other] in
  let keys := pre ++ key :: post in
  let h := @nil Call in
  let e := "write conflict" in
  fst (Dels cluster keys h) = Some e /\
  since h (snd (Dels cluster keys h)) = CallBegin :: map CallDelete (pre ++ [key]).
Proof.
  intros cluster pre key post keys h e.
  exact (proj2 (proj2 (Dels_commits_after_all_deletes cluster keys h))
           pre key post e eq_refl eq_refl (conj eq_refl I) eq_refl).
Defined.

Lemma Scan_returns_first_entries_witness :
  let cluster := SampleStore.accepting in
  let keyPrefix := SampleStore.k1 in
  let limit := 5%Z in
  let h := @nil Call in
  let it := [mkKV SampleStore.k1 SampleStore.v1; mkKV SampleStore.k2 SampleStore.v2;
             mkKV SampleStore.other SampleStore.v1] in
  Scan cluster keyPrefix limit h
  = ((take (Z.to_nat limit) it, None),
     h ++ [CallBegin; CallIter keyPrefix None; CallClose]) /\
  (length (fst (fst (Scan cluster keyPrefix limit h))) <= Z.to_nat limit)%nat /\
  (limit <= 0 -> fst (fst (Scan cluster keyPrefix limit h)) = []).
Proof.
  intros cluster keyPrefix limit h it.
  exact (Scan_returns_first_entries cluster keyPrefix limit h it eq_refl eq_refl).
Defined.

Lemma Scan_failure_closes_nothing_witness :
  let cluster := SampleStore.conflicting in
  let keyPrefix := SampleStore.k1 in
  let limit := 5%Z in
  let h := @nil Call in
  let e := "region unavailable" in
  fst (Scan cluster keyPrefix limit h) = ([], Some e) /\
  ~ In CallClose (since h (snd (Scan cluster keyPrefix limit h))).
Proof.
  intros cluster keyPrefix limit h e.
  exact (Scan_failure_closes_nothing cluster keyPrefix limit h e
           (or_intror (conj eq_refl eq_refl))).
Defined.

End ClosedStore.

Section ClosedPlugin.

Import aiozfs.

#[local] Existing Instance SamplePlugin.shard_lib.

Lemma sample_params_path : SamplePlugin.params !! "path" = Some (AString "blocks").
Proof.
  unfold SamplePlugin.params. by rewrite lookup_insert_ne, lookup_insert.
Qed.

Lemma sample_params_shardFunc :
  SamplePlugin.params !! "shardFunc" = Some (AString SamplePlugin.next_to_last_2).
Proof.
  unfold SamplePlugin.params.
  by rewrite lookup_insert_ne, lookup_insert_ne, lookup_insert.
Qed.

Lemma sample_params_sync : SamplePlugin.params !! "sync" = Some (ABool true).
Proof.
  unfold SamplePlugin.params.
  by rewrite lookup_insert_ne, lookup_insert_ne, lookup_insert_ne, lookup_insert.
Qed.

Lemma sample_params_parsed :
  DatastoreConfigParser SamplePlugin.params = Ok (mkDatastoreConfig "blocks" tt true).
Proof.
  apply (@parser_accepts_of_fields SamplePlugin.shard_lib SamplePlugin.params
           "blocks" SamplePlugin.next_to_last_2 tt true).
  - apply sample_params_path.
  - apply sample_params_shardFunc.
  - done.
  - apply sample_params_sync.
Qed.

Lemma DatastoreConfigParser_first_failure_witness :
  let params := delete "sync" SamplePlugin.params in
  DatastoreConfigParser params = Err "'sync' field is missing or not boolean".
Proof.
  intros params.
  refine (proj2 (proj2 (proj2 (DatastoreConfigParser_first_failure params)))
            "blocks" SamplePlugin.next_to_last_2 tt _ _ eq_refl _).
  - unfold params. rewrite lookup_delete_ne by done. apply sample_params_path.
  - unfold params. rewrite lookup_delete_ne by done. apply sample_params_shardFunc.
  - intros b. unfold params. by rewrite lookup_delete.
Defined.

Lemma DatastoreConfigParser_reads_three_keys_witness :
  let params := SamplePlugin.params in
  let params' := delete "type" SamplePlugin.params in
  DatastoreConfigParser params = DatastoreConfigParser params'.
Proof.
  intros params params'.
  refine (DatastoreConfigParser_reads_three_keys params params' _ _ _);
    unfold params'; by rewrite lookup_delete_ne.
Defined.

Lemma DiskSpec_of_parsed_witness :
  let params := SamplePlugin.params in
  let c := mkDatastoreConfig "blocks" tt true in
  let s := SamplePlugin.next_to_last_2 in
  DiskSpec c !! "path" = params !! "path" /\
  DiskSpec c !! "shardFunc" = params !! "shardFunc".
Proof.
  intros params c s.
  exact (DiskSpec_of_parsed params c s sample_params_parsed sample_params_shardFunc
           eq_refl).
Defined.

End ClosedPlugin.

Section ClosedInit.

Import Calls initcmd.

Lemma sample_profile_server :
  SampleInit.profiles !! "server"
  = Some ((fun conf => (None, (conf ++ ["server"])%list))
          : SampleInit.Config -> option goerror * SampleInit.Config).
Proof. unfold SampleInit.profiles. by rewrite lookup_insert. Qed.

Lemma sample_profile_unknown : SampleInit.profiles !! "lowpower" = None.
Proof.
  unfold SampleInit.profiles. by rewrite lookup_insert_ne, lookup_insert_ne, lookup_empty.
Qed.

Lemma applyProfiles_reads_names_witness :
  let Config := SampleInit.Config in
  let sys := SampleInit.system None false None in
  let conf : Config := [] in
  let names := ["server"; "lowpower"; "test"] in
  applyProfiles sys conf (Join names comma)
  = if decide (names = [EmptyString]) then (None, conf)
    else applyProfiles_loop sys names conf.
Proof.
  intros Config sys conf names.
  refine (applyProfiles_reads_names Config sys conf names _ _).
  - intros E. discriminate E.
  - by repeat constructor.
Defined.

Lemma applyProfiles_first_unknown_witness :
  let Config := SampleInit.Config in
  let sys := SampleInit.system None false None in
  let conf : Config := [] in
  let conf' : Config := ["server"] in
  let pre := ["server"] in
  let name := "lowpower" in
  let post := ["test"] in
  applyProfiles sys conf (Join (pre ++ name :: post)%list comma)
  = (Some (errors_New ("invalid configuration profile: " ++ name)), conf').
Proof.
  intros Config sys conf conf' pre name post.
  refine (applyProfiles_first_unknown Config sys conf conf' pre name post _ _ _
            sample_profile_unknown).
  - by repeat constructor.
  - intros E. discriminate E.
  - subst sys pre conf conf'. subst Config. cbn [applyProfiles_loop Profiles SampleInit.system].
    by rewrite sample_profile_server.
Defined.

Lemma checkWritable_footprint_witness :
  let Config := SampleInit.Config in
  let e := mkError "stat /root/.ipfs: permission denied" ErrPermission in
  let sys := SampleInit.system (Some e) false None in
  let dir := "/root/.ipfs" in
  let h := @nil (Call Config) in
  since h (snd (checkWritable sys dir h)) = [Stat dir] /\
  fst (checkWritable sys dir h)
  = Some (errors_New ("cannot write to " ++ Error e ++ ", incorrect permissions")).
Proof.
  intros Config e sys dir h.
  exact (proj1 (proj2 (proj2 (proj2 (proj2
           (checkWritable_footprint Config sys dir h)))))
           e eq_refl eq_refl).
Defined.

Lemma node_closed_on_every_path_witness :
  let Config := SampleInit.Config in
  let sys := SampleInit.system None false None in
  let assets := true in
  let repoRoot := "/root/.ipfs" in
  let h := @nil (Call Config) in
  exists body,
    since h (snd (addDefaultAssets sys repoRoot h))
    = (FsrepoOpen repoRoot :: NewNode :: body ++ [NodeClose])%list /\
    ~ In NodeClose body.
Proof.
  intros Config sys assets repoRoot h.
  exact (proj1 (node_closed_on_every_path Config sys assets repoRoot h)
           (conj eq_refl eq_refl)).
Defined.

Lemma doInit_keeps_existing_repo_witness :
  let Config := SampleInit.Config in
  let sys := SampleInit.system None true None in
  let repoRoot := "/root/.ipfs" in
  let empty := true in
  let confProfiles := "server" in
  let conf : Config := [] in
  let h := @nil (Call Config) in
  let r := doInit sys repoRoot empty confProfiles conf h in
  let evs := since h (snd r) in
  fst (fst r) <> None /\
  snd (fst r) = conf /\
  (forall c, In c evs -> touches_repo c = false) /\
  (In (IsInitialized repoRoot) evs -> fst (fst r) = Some errRepoExists).
Proof.
  intros Config sys repoRoot empty confProfiles conf h.
  exact (doInit_keeps_existing_repo Config sys repoRoot empty confProfiles conf h
           (fun h' => eq_refl)).
Defined.

Lemma doInit_init_guarded_witness :
  let Config := SampleInit.Config in
  let sys := SampleInit.system None false None in
  let repoRoot := "/root/.ipfs" in
  let empty := true in
  let confProfiles := EmptyString in
  let conf : Config := [] in
  let h := @nil (Call Config) in
  let root := repoRoot in
  let c := conf in
  let r := doInit sys repoRoot empty confProfiles conf h in
  let evs := since h (snd r) in
  root = repoRoot /\
  applyProfiles sys conf confProfiles = (None, c) /\
  snd (fst r) = c /\
  exists pre post,
    evs = (pre ++ IsInitialized repoRoot :: FsrepoInit repoRoot c :: post)%list /\
    IsInitialized_answer Config sys (h ++ pre)%list repoRoot = false /\
    Forall (fun c => is_FsrepoInit c = false) (pre ++ post)%list.
Proof.
  intros Config sys repoRoot empty confProfiles conf h root c.
  refine (doInit_init_guarded Config sys repoRoot empty confProfiles conf h root c _).
  do 6 right. left. reflexivity.
Defined.

Lemma doInit_nil_is_complete_witness :
  let Config := SampleInit.Config in
  let sys := SampleInit.system None false None in
  let repoRoot := "/root/.ipfs" in
  let empty := true in
  let confProfiles := EmptyString in
  let conf : Config := [] in
  let h := @nil (Call Config) in
  let r := doInit sys repoRoot empty confProfiles conf h in
  let evs := since h (snd r) in
  applyProfiles sys conf confProfiles = (None, snd (fst r)) /\
  In (FsrepoInit repoRoot (snd (fst r))) evs /\
  In Publish evs /\
  last evs = Some NodeClose /\
  (In SeedInitDocs evs <-> empty = false).
Proof.
  intros Config sys repoRoot empty confProfiles conf h.
  exact (doInit_nil_is_complete Config sys repoRoot empty confProfiles conf h eq_refl).
Defined.

Lemma Run_with_config_file_witness :
  let Config := SampleInit.Config in
  let sys := SampleInit.system None false None in
  let options := SampleInit.options in
  let file := "{}" in
  let ConfigRoot := "/root/.ipfs" in
  let conf : Config := [] in
  let h := @nil (Call Config) in
  let r := Run sys options (Entry (Some file)) ConfigRoot h in
  let empty := match options !! emptyRepoOptionName with
               | Some (ABool b) => b
               | _ => false
               end in
  let profiles := match options !! profileOptionName with
                  | Some (AString s) => s
                  | _ => EmptyString
                  end in
  fst r = fst (fst (doInit sys ConfigRoot empty profiles conf h)) /\
  snd r = snd (doInit sys ConfigRoot empty profiles conf h) /\
  (forall c, In c (since h (snd r)) -> makes_config c = false) /\
  (forall options' : gmap string any,
     options' !! emptyRepoOptionName = options !! emptyRepoOptionName ->
     options' !! profileOptionName = options !! profileOptionName ->
     Run sys options' (Entry (Some file)) ConfigRoot h = r).
Proof.
  intros Config sys options file ConfigRoot conf h.
  exact (Run_with_config_file Config sys options file ConfigRoot conf h eq_refl).
Defined.

Lemma Run_without_file_witness :
  let Config := SampleInit.Config in
  let cause := errors_New "dial tcp: connection refused" in
  let sys := SampleInit.system None false (Some cause) in
  let options := SampleInit.options in
  let ConfigRoot := "/root/.ipfs" in
  let h := @nil (Call Config) in
  let r := Run sys options NoFiles ConfigRoot h in
  let evs := since h (snd r) in
  let algorithm := fst (assert_string (options !! algorithmOptionName)) in
  let opts := match options !! bitsOptionName with
              | Some (AInt n) => [Key_Size n; Key_Type algorithm]
              | _ => [Key_Type algorithm]
              end in
  let cps := mkConfigPinningService
               (fst (assert_string (options !! uploaderEndpoint)))
               (fst (assert_string (options !! psEp)))
               (fst (assert_string (options !! apiKey)))
               (fst (assert_bool (options !! dedicatedGateway)))
               (fst (assert_string (options !! redisConn)))
               (fst (assert_string (options !! amqpConnect)))
               (fst (assert_string (options !! encryptBlockKey)))
               (fst (assert_string (options !! encryptedBlockPrefix))) in
  let warn := match options !! redisConn with
              | Some (AString _) => []
              | _ => [Println "redisConn is not ok"]
              end in
  let block := InitBlockService (Uploader cps) (PinningService cps) (DedicatedGateway cps)
                 (RedisConn cps) (AmqpConnect cps) (BlockEncryptionKey cps)
                 (EncryptedBlockPrefix cps) in
  fst r = Some (errors_New "InitBlockService") /\
  evs = (CreateIdentity opts :: warn ++
         [block; Printf ("InitBlockService  " ++ Error cause ++ nl)])%list.
Proof.
  intros Config cause sys options ConfigRoot h r evs algorithm opts cps warn block.
  exact (proj1 (proj2 (Run_without_file Config sys options ConfigRoot h))
           (mkIdentity "12D3KooW" "CAESQ") cause eq_refl eq_refl).
Defined.

End ClosedInit.
